(** * go3mf: the 3MF package decoder

    A shallow embedding of the decoding pipeline of go3mf: the per-element
    decoders of [decoder.go] (vertex and triangle elements, child dispatch),
    the extension bags with their [Get] lookup, and the package reader: the
    token loop [decodeModelFile], the relationship walk [processOPC] and the
    orchestration of root and auxiliary model parts in [DecodeContext].

    Go values are modelled as follows: unsigned integers are [Z] with the
    wrap-around written where the code converts; strings and byte slices are
    [string]; a Go [error] that may be nil is an [option]; slices are lists;
    maps keyed by strings are [gmap string _]; mutation through pointers is
    explicit state passing. *)

From Stdlib Require Import ZArith Lia Ascii String List Bool.
From stdpp Require Import base option list gmap strings sorting.

Local Open Scope string_scope.
Local Open Scope list_scope.
Local Open Scope Z_scope.

(** ** Go standard library: strconv and strings *)

Module Strconv.

(** The two error kinds of package strconv. *)
Inductive NumError := ErrSyntax | ErrRange.

#[global] Instance NumError_eq_dec : EqDecision NumError.
Proof. solve_decision. Defined.

Definition maxUint64 : Z := 2 ^ 64 - 1.

(** The value of a byte as a base-10 digit; letters give digits at or
    above the base and every other byte is no digit at all, and both are
    rejected by [ParseUint] in the same way. *)
Definition digit10 (c : ascii) : option Z :=
  let n := Z.of_N (N_of_ascii c) in
  if (48 <=? n) && (n <=? 57) then Some (n - 48) else None.

(** The digit loop of [strconv.ParseUint] for base 10: [n] is the value
    accumulated so far as a uint64. *)
Fixpoint parseUintLoop (maxVal cutoff n : Z) (s : string) : Z * option NumError :=
  match s with
  | EmptyString => (n, None)
  | String c rest =>
      match digit10 c with
      | None => (0, Some ErrSyntax)
      | Some d =>
          if cutoff <=? n then (maxVal, Some ErrRange)
          else
            let n10 := (n * 10) mod 2 ^ 64 in
            let n1 := (n10 + d) mod 2 ^ 64 in
            if (n1 <? n10) || (maxVal <? n1) then (maxVal, Some ErrRange)
            else parseUintLoop maxVal cutoff n1 rest
      end
  end.

(** [strconv.ParseUint(s, 10, bitSize)] for [0 < bitSize <= 64]. *)
Definition ParseUint (s : string) (bitSize : Z) : Z * option NumError :=
  match s with
  | EmptyString => (0, Some ErrSyntax)
  | _ => parseUintLoop (2 ^ bitSize - 1) (maxUint64 / 10 + 1) 0 s
  end.

(** *** Floats: [strconv.ParseFloat(s, 32)] on decimal literals

    A float32 is its IEEE-754 bit pattern, a 32-bit [Z]. [ParseFloat32]
    covers the decimal literals (sign, digits, fraction, exponent) and the
    words inf, infinity and nan; the value is the float32 nearest to the
    decimal number, ties to even. Hexadecimal literals and digit
    separators are left out. The decoders below take the float parser as
    a parameter; [ParseFloat32] is the instance used on concrete
    documents. *)

Definition f32Inf : Z := 0x7F800000.
Definition f32NaN : Z := 0x7FC00000.
Definition f32SignBit (neg : bool) : Z := if neg then 2 ^ 31 else 0.

Fixpoint digitsRun (s : string) (acc : Z) (cnt : Z) : Z * Z * string :=
  match s with
  | String c rest =>
      match digit10 c with
      | Some d => digitsRun rest (acc * 10 + d) (cnt + 1)
      | None => (acc, cnt, s)
      end
  | EmptyString => (acc, cnt, s)
  end.

(** The exponent digits: the accumulated value stops growing at 10000. *)
Fixpoint expRun (s : string) (e : Z) (cnt : Z) : Z * Z * string :=
  match s with
  | String c rest =>
      match digit10 c with
      | Some d => expRun rest (if e <? 10000 then e * 10 + d else e) (cnt + 1)
      | None => (e, cnt, s)
      end
  | EmptyString => (e, cnt, s)
  end.

Definition readSign (s : string) : bool * string :=
  match s with
  | String "+" rest => (false, rest)
  | String "-" rest => (true, rest)
  | _ => (false, s)
  end.

Definition lower (c : ascii) : ascii :=
  let n := N_of_ascii c in
  if (65 <=? n)%N && (n <=? 90)%N then ascii_of_N (n + 32) else c.

Definition lowerString (s : string) : string :=
  string_of_list_ascii (List.map lower (list_ascii_of_string s)).

(** The special values: an optionally signed inf or infinity, an unsigned
    nan, in any letter case. *)
Definition special (s : string) : option Z :=
  let '(neg, rest) := readSign s in
  let w := lowerString rest in
  if String.eqb w "inf" || String.eqb w "infinity" then Some (f32SignBit neg + f32Inf)
  else if String.eqb (lowerString s) "nan" then Some f32NaN
  else None.

(** The decimal mantissa and exponent of a literal that is consumed whole:
    the sign, all digits as one integer, and the power of ten. *)
Definition readFloat (s : string) : option (bool * Z * Z) :=
  let '(neg, s1) := readSign s in
  let '(m1, n1, s2) := digitsRun s1 0 0 in
  let '(m, n2, s3) :=
    match s2 with
    | String "." rest => digitsRun rest m1 0
    | _ => (m1, 0, s2)
    end in
  if n1 + n2 =? 0 then None
  else
    match s3 with
    | EmptyString => Some (neg, m, - n2)
    | String c rest =>
        if Ascii.eqb (lower c) "e" then
          let '(eneg, s4) := readSign rest in
          let '(e, ne, s5) := expRun s4 0 0 in
          if ne =? 0 then None
          else
            match s5 with
            | EmptyString => Some (neg, m, (if eneg then - e else e) - n2)
            | _ => None
            end
        else None
    end.

(** Quotient and remainder of [num / den] divided by [2 ^ k]. *)
Definition scaleDiv (num den k : Z) : Z * Z :=
  if 0 <=? k then Z.div_eucl num (den * 2 ^ k)
  else Z.div_eucl (num * 2 ^ (- k)) den.

(** The float32 nearest to [m * 10 ^ e10], ties to even; a value that
    rounds beyond the largest finite float32 gives the infinity and a range
    error. *)
Definition round32 (neg : bool) (m e10 : Z) : Z * option NumError :=
  let sign := f32SignBit neg in
  if m =? 0 then (sign, None)
  else
    let num := if 0 <=? e10 then m * 10 ^ e10 else m in
    let den := if 0 <=? e10 then 1 else 10 ^ (- e10) in
    let e0 := Z.log2 num - Z.log2 den in
    let e := if fst (scaleDiv num den e0) =? 0 then e0 - 1 else e0 in
    let q := Z.max (e - 23) (-149) in
    let '(m2, r) := scaleDiv num den (q - 1) in
    let mant := m2 / 2 in
    let up := (m2 mod 2 =? 1) && (negb (r =? 0) || (mant mod 2 =? 1)) in
    let mant1 := if up then mant + 1 else mant in
    let '(mant2, q2) := if mant1 =? 2 ^ 24 then (2 ^ 23, q + 1) else (mant1, q) in
    if mant2 <? 2 ^ 23 then (sign + mant2, None)
    else
      let biased := q2 + 150 in
      if 255 <=? biased then (sign + f32Inf, Some ErrRange)
      else (sign + biased * 2 ^ 23 + (mant2 - 2 ^ 23), None).

Definition ParseFloat32 (s : string) : Z * option NumError :=
  match special s with
  | Some bits => (bits, None)
  | None =>
      match readFloat s with
      | Some (neg, m, e10) => round32 neg m e10
      | None => (0, Some ErrSyntax)
      end
  end.

End Strconv.

Definition uint32 (v : Z) : Z := v mod 2 ^ 32.

(** ** encoding/xml names and attributes *)

Record xmlName := XmlName { Space : string; Local : string }.

#[global] Instance xmlName_eq_dec : EqDecision xmlName.
Proof. solve_decision. Defined.

Record Attr := MkAttr { Name : xmlName; Value : string }.

#[global] Instance Attr_eq_dec : EqDecision Attr.
Proof. solve_decision. Defined.

(** The core namespace and the element and attribute names the decoders
    switch on. The constant block is declared outside the decoder file; the
    names are the ones of the 3MF core schema. *)
Definition Namespace : string := "http://schemas.microsoft.com/3dmanufacturing/core/2015/02".
Definition attrModel : string := "model".
Definition attrResources : string := "resources".
Definition attrBuild : string := "build".
Definition attrMetadata : string := "metadata".
Definition attrMetadataGroup : string := "metadatagroup".
Definition attrItem : string := "item".
Definition attrObject : string := "object".
Definition attrBaseMaterials : string := "basematerials".
Definition attrBase : string := "base".
Definition attrMesh : string := "mesh".
Definition attrComponents : string := "components".
Definition attrComponent : string := "component".
Definition attrVertices : string := "vertices".
Definition attrVertex : string := "vertex".
Definition attrTriangles : string := "triangles".
Definition attrTriangle : string := "triangle".
Definition attrX : string := "x".
Definition attrY : string := "y".
Definition attrZ : string := "z".
Definition attrV1 : string := "v1".
Definition attrV2 : string := "v2".
Definition attrV3 : string := "v3".
Definition attrPID : string := "pid".
Definition attrP1 : string := "p1".
Definition attrP2 : string := "p2".
Definition attrP3 : string := "p3".

(** ** Structured errors (package errors, imported as specerr) *)

Module Specerr.

(** Modelled from the spec: the errors package is not part of the decoder
    file. A parse-attribute error is tagged with the attribute name and
    whether the attribute is mandatory; a missing-mandatory-attribute error
    is a different kind of error. *)
Inductive AttrError :=
| ParseAttrError (name : string) (required : bool)
| MissingFieldError (name : string).

#[global] Instance AttrError_eq_dec : EqDecision AttrError.
Proof. solve_decision. Defined.

(** An accumulated error is the list of what was appended; the empty list
    is Go's nil error. *)
Definition Append (errs : list AttrError) (e : AttrError) : list AttrError :=
  errs ++ [e].

(** [WrapIndex err element index]: the error tagged with the element it
    belongs to and the index of that element in its collection. *)
Record Wrapped (T : Type) := MkWrapped {
  Target : T;
  Index : nat;
  Err : list AttrError
}.
Arguments MkWrapped {T} _ _ _.
Arguments Target {T} _.
Arguments Index {T} _.
Arguments Err {T} _.

Definition WrapIndex {T} (errs : list AttrError) (element : T) (index : nat)
  : option (Wrapped T) :=
  match errs with
  | [] => None
  | _ => Some (MkWrapped element index errs)
  end.

End Specerr.

(** ** decoder.go: the mesh decoders *)

Module Core.
Import Strconv Specerr.

(** A 24-bit unsigned value. Modelled from the spec: [ToUint24] is declared
    with the mesh types, outside the decoder file; triangles hold 24-bit
    vertex indices. *)
Definition ToUint24 (v : Z) : Z := v mod 2 ^ 24.

(** A triangle: the three vertex slots the decoder writes by index, and the
    property reference handed to [SetPID] and [SetPIndices]. Those two
    setters are declared with the mesh types; the record keeps the
    arguments they are called with. *)
Record Triangle := MkTriangle {
  V1 : Z; V2 : Z; V3 : Z;
  PID : Z; P1 : Z; P2 : Z; P3 : Z
}.

Definition zeroTriangle : Triangle := MkTriangle 0 0 0 0 0 0 0.

Definition SetPID (t : Triangle) (pid : Z) : Triangle :=
  MkTriangle (V1 t) (V2 t) (V3 t) pid (P1 t) (P2 t) (P3 t).

Definition SetPIndices (t : Triangle) (p1 p2 p3 : Z) : Triangle :=
  MkTriangle (V1 t) (V2 t) (V3 t) (PID t) p1 p2 p3.

Definition setV (i : nat) (v : Z) (t : Triangle) : Triangle :=
  match i with
  | O => MkTriangle v (V2 t) (V3 t) (PID t) (P1 t) (P2 t) (P3 t)
  | S O => MkTriangle (V1 t) v (V3 t) (PID t) (P1 t) (P2 t) (P3 t)
  | _ => MkTriangle (V1 t) (V2 t) v (PID t) (P1 t) (P2 t) (P3 t)
  end.

(** The local variables of [triangleDecoder.Start]. *)
Record triLocals := MkTriLocals {
  l_t : Triangle;
  l_pid : Z; l_p1 : Z; l_p2 : Z; l_p3 : Z;
  l_hasPID : bool; l_hasP1 : bool; l_hasP2 : bool; l_hasP3 : bool;
  l_errs : list AttrError
}.

Definition triLocals0 : triLocals :=
  MkTriLocals zeroTriangle 0 0 0 0 false false false false [].

Definition addErr (err : option NumError) (name : string) (required : bool)
    (errs : list AttrError) : list AttrError :=
  match err with
  | Some _ => Append errs (ParseAttrError name required)
  | None => errs
  end.

(** One iteration of the attribute loop of [triangleDecoder.Start]. *)
Definition triangleAttr (l : triLocals) (a : Attr) : triLocals :=
  let '(val, err) := ParseUint (Value a) 24 in
  let n := Local (Name a) in
  let '(MkTriLocals t pid p1 p2 p3 hPID hP1 hP2 hP3 errs) := l in
  if String.eqb n attrV1 then
    MkTriLocals (setV 0 (ToUint24 (uint32 val)) t) pid p1 p2 p3 hPID hP1 hP2 hP3
      (addErr err n true errs)
  else if String.eqb n attrV2 then
    MkTriLocals (setV 1 (ToUint24 (uint32 val)) t) pid p1 p2 p3 hPID hP1 hP2 hP3
      (addErr err n true errs)
  else if String.eqb n attrV3 then
    MkTriLocals (setV 2 (ToUint24 (uint32 val)) t) pid p1 p2 p3 hPID hP1 hP2 hP3
      (addErr err n true errs)
  else if String.eqb n attrPID then
    MkTriLocals t (uint32 val) p1 p2 p3 true hP1 hP2 hP3 (addErr err n false errs)
  else if String.eqb n attrP1 then
    MkTriLocals t pid (uint32 val) p2 p3 hPID true hP2 hP3 (addErr err n false errs)
  else if String.eqb n attrP2 then
    MkTriLocals t pid p1 (uint32 val) p3 hPID hP1 true hP3 (addErr err n false errs)
  else if String.eqb n attrP3 then
    MkTriLocals t pid p1 p2 (uint32 val) hPID hP1 hP2 true (addErr err n false errs)
  else
    MkTriLocals t pid p1 p2 p3 hPID hP1 hP2 hP3 (addErr err n true errs).

Definition applyDefault (val defVal : Z) (noDef : bool) : Z :=
  if noDef then val else defVal.

Record Point3D := MkPoint3D { X : Z; Y : Z; Z_ : Z }.

Record Mesh := MkMesh {
  Vertices : list Point3D;
  Triangles : list Triangle
}.

Record triangleDecoder := MkTriangleDecoder {
  td_mesh : Mesh;
  defaultPropertyIndex : Z;
  defaultPropertyID : Z
}.

(** [triangleDecoder.Start]: the decoder with its mesh updated, and the
    returned error. *)
Definition triangleDecoder_Start (d : triangleDecoder) (attrs : list Attr)
  : triangleDecoder * option (Wrapped Triangle) :=
  let l := fold_left triangleAttr attrs triLocals0 in
  let p1 := applyDefault (l_p1 l) (defaultPropertyIndex d) (l_hasP1 l) in
  let p2 := applyDefault (l_p2 l) p1 (l_hasP2 l) in
  let p3 := applyDefault (l_p3 l) p1 (l_hasP3 l) in
  let pid := applyDefault (l_pid l) (defaultPropertyID d) (l_hasPID l) in
  let t := SetPIndices (SetPID (l_t l) pid) p1 p2 p3 in
  let triangles := Triangles (td_mesh d) ++ [t] in
  let mesh := MkMesh (Vertices (td_mesh d)) triangles in
  (MkTriangleDecoder mesh (defaultPropertyIndex d) (defaultPropertyID d),
   WrapIndex (l_errs l) t (length triangles - 1)%nat).

(** *** [vertexDecoder.Start] *)

Section VertexDecoder.

(** [strconv.ParseFloat(s, 32)] followed by the conversion to float32: the
    bit pattern of the value and the error. *)
Variable ParseFloat : string -> Z * option NumError.

Record vertexLocals := MkVertexLocals {
  vl_x : Z; vl_y : Z; vl_z : Z;
  vl_errs : list AttrError
}.

Definition vertexLocals0 : vertexLocals := MkVertexLocals 0 0 0 [].

(** One iteration of the attribute loop: every attribute is parsed, the
    error is recorded under the attribute name, and the value goes to the
    coordinate the name selects, if any. *)
Definition vertexAttr (l : vertexLocals) (a : Attr) : vertexLocals :=
  let '(val, err) := ParseFloat (Value a) in
  let n := Local (Name a) in
  let errs := addErr err n true (vl_errs l) in
  if String.eqb n attrX then MkVertexLocals val (vl_y l) (vl_z l) errs
  else if String.eqb n attrY then MkVertexLocals (vl_x l) val (vl_z l) errs
  else if String.eqb n attrZ then MkVertexLocals (vl_x l) (vl_y l) val errs
  else MkVertexLocals (vl_x l) (vl_y l) (vl_z l) errs.

Record vertexDecoder := MkVertexDecoder { vd_mesh : Mesh }.

Definition vertexDecoder_Start (d : vertexDecoder) (attrs : list Attr)
  : vertexDecoder * option (Wrapped Point3D) :=
  let l := fold_left vertexAttr attrs vertexLocals0 in
  let p := MkPoint3D (vl_x l) (vl_y l) (vl_z l) in
  let vertices := Vertices (vd_mesh d) ++ [p] in
  (MkVertexDecoder (MkMesh vertices (Triangles (vd_mesh d))),
   WrapIndex (vl_errs l) p (length vertices - 1)%nat).

End VertexDecoder.

(** The last attribute of the element with a given local name, the one
    whose value the attribute loops keep. *)
Definition lastAttr (n : string) (attrs : list Attr) : option Attr :=
  last (filter (fun a => Local (Name a) = n) attrs).

(** The parse-attribute errors an attribute loop reports: one per attribute
    whose value does not parse, in document order. *)
Definition failing {V} (parse : string -> V * option NumError) (attrs : list Attr)
  : list Attr :=
  filter (fun a => is_Some (snd (parse (Value a)))) attrs.

(** What the attribute loop of [triangleDecoder.Start] has computed once
    the attributes [attrs] have gone through it. *)
Definition vertexSlot (n : string) (attrs : list Attr) : Z :=
  match lastAttr n attrs with
  | Some a => fst (ParseUint (Value a) 24)
  | None => 0
  end.

Definition propSlot (n : string) (attrs : list Attr) (v : Z) (has : bool) : Prop :=
  match lastAttr n attrs with
  | Some a => v = fst (ParseUint (Value a) 24) /\ has = true
  | None => v = 0 /\ has = false
  end.

(** Whether the loop reports a failing attribute as mandatory. *)
Definition triangleRequired (a : Attr) : bool :=
  let n := Local (Name a) in
  negb (String.eqb n attrPID || String.eqb n attrP1 || String.eqb n attrP2
        || String.eqb n attrP3).

Definition parseErrors {V} (parse : string -> V * option NumError)
    (required : Attr -> bool) (attrs : list Attr) : list AttrError :=
  map (fun a => ParseAttrError (Local (Name a)) (required a)) (failing parse attrs).

(** The float value the vertex loop leaves in a coordinate: the value the
    parser returned for the last attribute with that name, zero when the
    element has no such attribute. *)
Definition coord (parse : string -> Z * option NumError) (n : string)
    (attrs : list Attr) : Z :=
  match lastAttr n attrs with
  | Some a => fst (parse (Value a))
  | None => 0
  end.

End Core.

(** ** decoder.go: which child decoder an element gets *)

Module Dispatch.

(** The element decoders of the core, reduced to their kind and to the
    flags [Child] reads; the pointers into the model under construction
    play no part in the dispatch. *)
Inductive coreDecoder :=
| topLevelDecoder (isRoot : bool)
| modelDecoder (isRoot : bool)
| metadataGroupDecoder
| metadataDecoder
| buildDecoder
| buildItemDecoder
| resourceDecoder
| baseMaterialsDecoder
| baseMaterialDecoder
| meshDecoder
| verticesDecoder
| vertexDecoder
| trianglesDecoder
| triangleDecoder
| objectDecoder
| componentsDecoder
| componentDecoder.

(** What [Child] returns: a core decoder, or the decoder a registered
    extension made for the element, which is opaque to the core. *)
Inductive ElementDecoder (E : Type) :=
| coreElement (d : coreDecoder)
| extensionElement (e : E).
Arguments coreElement {E} _.
Arguments extensionElement {E} _.

(** A registered extension: [NewElementDecoder] for an element name, nil
    when the extension has no decoder for it. *)
Record ExtensionDecoder (E : Type) := MkExtensionDecoder {
  NewElementDecoder : xmlName -> option E
}.
Arguments MkExtensionDecoder {E} _.
Arguments NewElementDecoder {E} _ _.

(** The part of [decoderContext] the dispatch reads. *)
Record decoderContext (E : Type) := MkDecoderContext {
  extensionDecoder : gmap string (ExtensionDecoder E)
}.
Arguments MkDecoderContext {E} _.
Arguments extensionDecoder {E} _.

Section Child.
Context {E : Type}.

Definition core (name : xmlName) (n : string) (d : coreDecoder)
  : option (ElementDecoder E) :=
  if String.eqb (Space name) Namespace && String.eqb (Local name) n
  then Some (coreElement d) else None.

(** The branch shared by the model, resources and mesh decoders for a
    name outside the core namespace. *)
Definition extChild (ctx : decoderContext E) (name : xmlName)
  : option (ElementDecoder E) :=
  match extensionDecoder ctx !! Space name with
  | Some ext => extensionElement <$> NewElementDecoder ext name
  | None => None
  end.

(** The [Child] methods of the core decoders. The decoders that only embed
    [baseDecoder] (metadata, base, vertex, triangle, component) have none
    and offer no child. *)
Definition Child (ctx : decoderContext E) (d : coreDecoder) (name : xmlName)
  : option (ElementDecoder E) :=
  match d with
  | topLevelDecoder isRoot =>
      if decide (name = XmlName Namespace attrModel)
      then Some (coreElement (modelDecoder isRoot)) else None
  | modelDecoder isRoot =>
      if String.eqb (Space name) Namespace then
        if String.eqb (Local name) attrResources then Some (coreElement resourceDecoder)
        else if String.eqb (Local name) attrBuild then
          if isRoot then Some (coreElement buildDecoder) else None
        else if String.eqb (Local name) attrMetadata then
          if isRoot then Some (coreElement metadataDecoder) else None
        else None
      else extChild ctx name
  | metadataGroupDecoder => core name attrMetadata metadataDecoder
  | buildDecoder => core name attrItem buildItemDecoder
  | buildItemDecoder => core name attrMetadataGroup metadataGroupDecoder
  | resourceDecoder =>
      if String.eqb (Space name) Namespace then
        if String.eqb (Local name) attrObject then Some (coreElement objectDecoder)
        else if String.eqb (Local name) attrBaseMaterials
        then Some (coreElement baseMaterialsDecoder)
        else None
      else extChild ctx name
  | baseMaterialsDecoder => core name attrBase baseMaterialDecoder
  | meshDecoder =>
      if String.eqb (Space name) Namespace then
        if String.eqb (Local name) attrVertices then Some (coreElement verticesDecoder)
        else if String.eqb (Local name) attrTriangles
        then Some (coreElement trianglesDecoder)
        else None
      else extChild ctx name
  | verticesDecoder => core name attrVertex vertexDecoder
  | trianglesDecoder => core name attrTriangle triangleDecoder
  | objectDecoder =>
      if String.eqb (Space name) Namespace then
        if String.eqb (Local name) attrMesh then Some (coreElement meshDecoder)
        else if String.eqb (Local name) attrComponents
        then Some (coreElement componentsDecoder)
        else if String.eqb (Local name) attrMetadataGroup
        then Some (coreElement metadataGroupDecoder)
        else None
      else None
  | componentsDecoder => core name attrComponent componentDecoder
  | metadataDecoder | baseMaterialDecoder | vertexDecoder | triangleDecoder
  | componentDecoder => None
  end.

End Child.

End Dispatch.

(** ** Extension bags and their [Get] lookup *)

Module Extensions.

(** The kinds of package reflect that [Get] tells apart. *)
Inductive Kind := Ptr | Interface | OtherKind.

#[global] Instance Kind_eq_dec : EqDecision Kind.
Proof. solve_decision. Defined.

(** The two marshaler interfaces a target type is tested against. *)
Inductive marshalerIface := marshalerAttrType | marshalerType.

(** What [Get] asks of package reflect about dynamic types. *)
Class Reflect (Typ : Type) := {
  KindOf : Typ -> Kind;
  Elem : Typ -> Typ;
  Implements : Typ -> marshalerIface -> bool;
  AssignableTo : Typ -> Typ -> bool
}.

Section Get.
Context {Typ V : Type} `{Reflect Typ}.

(** A non-nil interface value: its dynamic type and the value itself. *)
Record dyn := MkDyn { dynType : Typ; dynValue : V }.

(** An extension bag is a slice of interface values: the slice may be nil
    ([None]) and each entry may be a nil interface ([None]). *)
Definition bag := option (list (option dyn)).

(** The [target] argument, an [interface{}]: nil, or a value of some type
    which, when the type is a pointer, may be a nil pointer. *)
Inductive target :=
| targetNil
| targetOf (typ : Typ) (isNilPtr : bool).

(** The result of a call: a panic, or the returned boolean with the value
    stored through the target pointer, if any. *)
Inductive getResult :=
| Panic (msg : string)
| Return (found : bool) (stored : option dyn).

Definition bagLen (e : bag) : nat :=
  match e with None => O | Some l => length l end.

Fixpoint firstAssignable (targetType : Typ) (l : list (option dyn))   : getResult :=
  match l with
  | [] => Return false None
  | Some v :: rest =>
      if AssignableTo (dynType v) targetType then Return true (Some v)
      else firstAssignable targetType rest
  | None :: rest => firstAssignable targetType rest
  end.

Definition get (iface : marshalerIface) (msg : string) (e : bag) (t : target)   : getResult :=
  match e with
  | None => Return false None
  | Some l =>
      if Nat.eqb (length l) 0 then Return false None
      else
        match t with
        | targetNil => Panic "go3mf: target cannot be nil"
        | targetOf typ isNil =>
            if negb (bool_decide (KindOf typ = Ptr)) || isNil
            then Panic "go3mf: target must be a non-nil pointer"
            else
              let el := Elem typ in
              if negb (bool_decide (KindOf el = Interface)) && negb (Implements el iface)
              then Panic msg
              else firstAssignable (Elem typ) l
        end
  end.

(** [ExtensionsAttr.Get] *)
Definition ExtensionsAttr_Get : bag -> target -> getResult :=
  get marshalerAttrType "go3mf: *target must be interface or implement AttrMarshaler".

(** [Extensions.Get] *)
Definition Extensions_Get : bag -> target -> getResult :=
  get marshalerType "go3mf: *target must be interface or implement Marshaler".

End Get.

End Extensions.

(** ** The package reader: tokens, scanner and model *)

Module Reader.

(** Go errors the reader tells apart or creates. *)
Inductive error :=
| io_EOF
| context_Canceled
| context_DeadlineExceeded
| errorString (s : string).

#[global] Instance error_eq_dec : EqDecision error.
Proof. solve_decision. Defined.

(** What a call returns when the function can also panic; [OutOfFuel] is
    the loop model running out of iterations, shown below not to occur. *)
Inductive outcome (A : Type) :=
| Returns (a : A)
| Panics
| OutOfFuel.
Arguments Returns {A} _.
Arguments Panics {A}.
Arguments OutOfFuel {A}.

#[global] Instance outcome_bind : MBind outcome := fun A B f m =>
  match m with
  | Returns a => f a
  | Panics => Panics
  | OutOfFuel => OutOfFuel
  end.

Definition checkEveryBytes : Z := 4 * 1024 * 1024.

(** *** The token stream *)

Inductive Token :=
| StartElement (name : xmlName) (attr : list Attr)
| EndElement (name : xmlName)
| CharData (data : string)
| Comment (data : string)
| ProcInst (target inst : string)
| Directive (data : string).

(** An [XMLDecoder] over a document already cut into tokens: the tokens not
    yet read, each with the input offset after it, the error [Token]
    returns once they are used up ([io.EOF] at a regular end of input), and
    the current input offset. *)
Record XMLDecoder := MkXMLDecoder {
  pending : list (Token * Z);
  final : error;
  offset : Z
}.

Definition XMLDecoder_Token (x : XMLDecoder) : (Token + error) * XMLDecoder :=
  match pending x with
  | [] => (inr (final x), x)
  | (t, o) :: rest => (inl t, MkXMLDecoder rest (final x) o)
  end.

(** The loop of [Skip]: tokens are read until the end element at depth
    zero has been consumed; [None] when the tokens run out first. *)
Fixpoint skipLoop (depth : nat) (toks : list (Token * Z)) : option (list (Token * Z) * Z) :=
  match toks with
  | [] => None
  | (StartElement _ _, _) :: rest => skipLoop (S depth) rest
  | (EndElement _, o) :: rest =>
      match depth with
      | O => Some (rest, o)
      | S d => skipLoop d rest
      end
  | _ :: rest => skipLoop depth rest
  end.

(** A run of tokens in which every end element closes a start element of
    the run, [depth] elements being open before it and none after it. *)
Fixpoint wellNested (depth : nat) (toks : list (Token * Z)) : bool :=
  match toks with
  | [] => Nat.eqb depth 0
  | (StartElement _ _, _) :: rest => wellNested (S depth) rest
  | (EndElement _, _) :: rest =>
      match depth with
      | O => false
      | S d => wellNested d rest
      end
  | _ :: rest => wellNested depth rest
  end.

Definition lastOffset (toks : list (Token * Z)) (o : Z) : Z :=
  match last toks with
  | Some (_, o') => o'
  | None => o
  end.

(** [Skip] reads tokens until it has consumed the end element matching the
    most recent start element already consumed. *)
Definition XMLDecoder_Skip (x : XMLDecoder) : option error * XMLDecoder :=
  match skipLoop 0 (pending x) with
  | Some (rest, o) => (None, MkXMLDecoder rest (final x) o)
  | None => (Some (final x), MkXMLDecoder [] (final x) (lastOffset (pending x) (offset x)))
  end.

Definition InputOffset (x : XMLDecoder) : Z := offset x.

(** *** The cancellation context

    A context is polled without blocking. What a poll answers is decided
    by the caller and by time, so a context is the list of the answers to
    the successive polls (false once the list is used up) and the error
    [ctx.Err()] reports when done. *)
Record Context := MkContext {
  polls : list bool;
  ctxErr : error
}.

Definition Done (c : Context) : bool * Context :=
  match polls c with
  | [] => (false, c)
  | b :: rest => (b, MkContext rest (ctxErr c))
  end.

Definition Background : Context := MkContext [] context_Canceled.


(** *** Scanner and model

    Resources, build items and specs are declared outside the reader; the
    reader only moves them around, so they are reduced to an identity. *)
Record Resource := MkResource { ID : Z }.
Record Item := MkItem { ObjectID : Z }.

(** A registered spec: its namespace and whether it implements
    [ExtensionDecoder]. *)
Record Spec := MkSpec { spec_Space : string; spec_isDecoder : bool }.

Record Scanner := MkScanner {
  extensionDecoder : gmap string Spec;
  IsRoot : bool;
  Strict : bool;
  ModelPath : string;
  Element : string;
  Err : option error;
  Warnings : list error;
  Resources : list Resource;
  BuildItems : list Item
}.

Definition setErr (e : option error) (s : Scanner) : Scanner :=
  MkScanner (extensionDecoder s) (IsRoot s) (Strict s) (ModelPath s) (Element s)
    e (Warnings s) (Resources s) (BuildItems s).

Definition setElement (n : string) (s : Scanner) : Scanner :=
  MkScanner (extensionDecoder s) (IsRoot s) (Strict s) (ModelPath s) n
    (Err s) (Warnings s) (Resources s) (BuildItems s).

Record Relationship := MkRelationship { r_Type : string; r_Path : string }.

Definition RelType3DModel : string :=
  "http://schemas.microsoft.com/3dmanufacturing/2013/01/3dmodel".
Definition DefaultModelPath : string := "/3D/3dmodel.model".
Definition ContentType3DModel : string :=
  "application/vnd.ms-package.3dmanufacturing-3dmodel+xml".

Record Attachment := MkAttachment {
  att_Path : string;
  att_Stream : string;
  att_ContentType : string
}.

Record ChildModel := MkChildModel {
  cm_Resources : list Resource;
  cm_Relationships : list Relationship
}.

Record Model := MkModel {
  m_Path : string;
  m_RootRelationships : list Relationship;
  m_Relationships : list Relationship;
  m_Attachments : list Attachment;
  m_Childs : gmap string ChildModel;
  m_BuildItems : list Item;
  m_Resources : list Resource;
  m_Specs : list Spec
}.

(** *** The node decoders

    [NodeDecoder] is the interface the token loop drives. A decoder holds
    the scanner it was given by [SetScanner] and writes its results and
    errors there, so the hooks take the scanner and return it; [Start] and
    [Text] may also change the decoder itself. [newModelDecoder] stands for
    the literal [&modelDecoder{model: d.model}] of the top-level decoder. *)
Class NodeDecoder (D : Type) := {
  Child : D -> Scanner -> xmlName -> option D;
  Start : D -> list Attr -> Scanner -> D * Scanner;
  Text : D -> string -> Scanner -> D * Scanner;
  End_ : D -> Scanner -> Scanner;
  newModelDecoder : Model -> D
}.

(** ** The token loop of [decodeModelFile] *)

Section Engine.
Context {D : Type} `{NodeDecoder D}.

(** The decoders on the stack: the top-level decoder the loop starts
    with, or one made by a [Child] method. *)
Inductive decoder :=
| topLevelDecoder (model : Model) (isRoot : bool)
| nodeDecoder (d : D).

Definition decoder_Child (cur : decoder) (sc : Scanner) (name : xmlName) : option decoder :=
  match cur with
  | topLevelDecoder model _ =>
      if decide (name = XmlName Namespace attrModel)
      then Some (nodeDecoder (newModelDecoder model)) else None
  | nodeDecoder d => nodeDecoder <$> Child d sc name
  end.

Definition decoder_Start (cur : decoder) (attr : list Attr) (sc : Scanner) : decoder * Scanner :=
  match cur with
  | topLevelDecoder _ _ => (cur, sc)
  | nodeDecoder d => let '(d', sc') := Start d attr sc in (nodeDecoder d', sc')
  end.

Definition decoder_Text (cur : decoder) (data : string) (sc : Scanner) : decoder * Scanner :=
  match cur with
  | topLevelDecoder _ _ => (cur, sc)
  | nodeDecoder d => let '(d', sc') := Text d data sc in (nodeDecoder d', sc')
  end.

Definition decoder_End (cur : decoder) (sc : Scanner) : Scanner :=
  match cur with
  | topLevelDecoder _ _ => sc
  | nodeDecoder d => End_ d sc
  end.

(** The variables of the loop. *)
Record loopState := MkLoopState {
  ls_x : XMLDecoder;
  ls_scanner : Scanner;
  ls_ctx : Context;
  currentDecoder : decoder;
  currentName : xmlName;
  state : list decoder;
  names : list xmlName;
  nextBytesCheck : Z
}.

Inductive iter :=
| Continue (st : loopState)
| Break (st : loopState)
| IterPanic.

(** The end of an iteration: the loop stops as soon as the scanner holds
    an error. *)
Definition checkErr (st : loopState) : iter :=
  match Err (ls_scanner st) with
  | Some _ => Break st
  | None => Continue st
  end.

(** The cancellation check that follows every end element. *)
Definition checkCancel (x : XMLDecoder) (sc : Scanner) (ctx : Context) (next : Z)
  : Scanner * Context * Z :=
  if next <? InputOffset x then
    let '(done, ctx') := Done ctx in
    ((if done then setErr (Some (ctxErr ctx)) sc else sc), ctx', next + checkEveryBytes)
  else (sc, ctx, next).

(** Popping the decoder stack and the name stack; indexing an empty slice
    panics. *)
Definition pop {A} (l : list A) : option (A * list A) :=
  match last l with
  | Some a => Some (a, removelast l)
  | None => None
  end.

(** One iteration of the loop. *)
Definition iteration (st : loopState) : iter :=
  match XMLDecoder_Token (ls_x st) with
  | (inr err, x) =>
      Break (MkLoopState x (setErr (Some err) (ls_scanner st)) (ls_ctx st)
               (currentDecoder st) (currentName st) (state st) (names st)
               (nextBytesCheck st))
  | (inl t, x) =>
      let sc := setErr None (ls_scanner st) in
      match t with
      | StartElement name attr =>
          match decoder_Child (currentDecoder st) sc name with
          | Some tmp =>
              let '(cur, sc') := decoder_Start tmp attr (setElement (Local name) sc) in
              checkErr (MkLoopState x sc' (ls_ctx st) cur name
                          (state st ++ [currentDecoder st]) (names st ++ [currentName st])
                          (nextBytesCheck st))
          | None =>
              let '(err, x') := XMLDecoder_Skip x in
              checkErr (MkLoopState x' (setErr err sc) (ls_ctx st)
                          (currentDecoder st) (currentName st) (state st) (names st)
                          (nextBytesCheck st))
          end
      | CharData data =>
          let '(cur, sc') := decoder_Text (currentDecoder st) data sc in
          checkErr (MkLoopState x sc' (ls_ctx st) cur (currentName st)
                      (state st) (names st) (nextBytesCheck st))
      | EndElement name =>
          if decide (currentName st = name) then
            let sc1 := decoder_End (currentDecoder st) (setElement (Local name) sc) in
            match pop (state st), pop (names st) with
            | Some (cur, state'), Some (cname, names') =>
                let '(sc2, ctx, next) := checkCancel x sc1 (ls_ctx st) (nextBytesCheck st) in
                checkErr (MkLoopState x sc2 ctx cur cname state' names' next)
            | _, _ => IterPanic
            end
          else
            let '(sc2, ctx, next) := checkCancel x sc (ls_ctx st) (nextBytesCheck st) in
            checkErr (MkLoopState x sc2 ctx (currentDecoder st) (currentName st)
                        (state st) (names st) next)
      | _ =>
          checkErr (MkLoopState x sc (ls_ctx st) (currentDecoder st) (currentName st)
                      (state st) (names st) (nextBytesCheck st))
      end
  end.

Fixpoint loop (fuel : nat) (st : loopState) : outcome loopState :=
  match fuel with
  | O => OutOfFuel
  | S n =>
      match iteration st with
      | Continue st' => loop n st'
      | Break st' => Returns st'
      | IterPanic => Panics
      end
  end.

(** The loop from a state on: every iteration that does not stop the loop
    reads a token, so one more iteration than there are tokens is enough. *)
Definition run (st : loopState) : outcome loopState :=
  loop (S (length (pending (ls_x st)))) st.

(** The scanner's extension decoders: the specs of the model that
    implement [ExtensionDecoder], by namespace. *)
Definition registerSpecs (specs : list Spec) : gmap string Spec :=
  fold_left (fun m ext => if spec_isDecoder ext then <[spec_Space ext := ext]> m else m)
    specs ∅.

Definition newScanner (model : Model) (path : string) (isRoot strict : bool) : Scanner :=
  MkScanner (registerSpecs (m_Specs model)) isRoot strict path "" None [] [] [].

Definition initialState (ctx : Context) (x : XMLDecoder) (model : Model)
    (path : string) (isRoot strict : bool) : loopState :=
  MkLoopState x (newScanner model path isRoot strict) ctx
    (topLevelDecoder model isRoot) (XmlName "" "") [] [] checkEveryBytes.

(** After the loop an [io.EOF] is no error. *)
Definition clearEOF (sc : Scanner) : Scanner :=
  if decide (Err sc = Some io_EOF) then setErr None sc else sc.

(** [decodeModelFile]: the scanner it returns, and the context with what
    is left of its polls. *)
Definition decodeModelFile (ctx : Context) (x : XMLDecoder) (model : Model)
    (path : string) (isRoot strict : bool) : outcome (Scanner * Context) :=
  st ← run (initialState ctx x model path isRoot strict);
  Returns (clearEOF (ls_scanner st), ls_ctx st).



End Engine.

(** ** The package and the decoder *)

(** What [Open] on a package file gives: the bytes of the part and the
    error reading them ends with, if any. *)
Record ReadCloser := MkReadCloser { rc_data : string; rc_err : option error }.

(** The [packageFile] interface. *)
Class PackageFile (F : Type) := {
  pf_Name : F -> string;
  pf_ContentType : F -> string;
  pf_FindFileFromName : F -> string -> option F;
  pf_Relationships : F -> list Relationship;
  pf_Open : F -> error + ReadCloser
}.

(** The [packageReader] interface, as the answers of one package. *)
Record packageReader (F : Type) := MkPackageReader {
  p_Open : option error;
  p_FindFileFromName : string -> option F;
  p_Relationships : list Relationship
}.
Arguments MkPackageReader {F} _ _ _.
Arguments p_Open {F} _.
Arguments p_FindFileFromName {F} _ _.
Arguments p_Relationships {F} _.

(** [strings.EqualFold], the case-insensitive comparison of the Go
    library. *)
Class CaseFold := { EqualFold : string -> string -> bool }.

(** The [Decoder]. [d_x] is [tokenReader]: the configured XML decoder, or
    [xml.NewDecoder] when none is set, applied to an opened part. The
    decompressor only reaches [p.Open] and is part of its answer. *)
Record Decoder (F : Type) := MkDecoder {
  d_Strict : bool;
  d_Warnings : list error;
  d_p : packageReader F;
  d_x : ReadCloser -> XMLDecoder;
  d_nonRootModels : list F
}.
Arguments MkDecoder {F} _ _ _ _ _.
Arguments d_Strict {F} _.
Arguments d_Warnings {F} _.
Arguments d_p {F} _.
Arguments d_x {F} _.
Arguments d_nonRootModels {F} _.

(** [fakePackageFile], the package file [UnmarshalModel] wraps its bytes
    in. *)
Record fakePackageFile := MkFakePackageFile { fake_data : string }.

#[global] Instance fakePackageFile_PackageFile : PackageFile fakePackageFile := {
  pf_Name _ := DefaultModelPath;
  pf_ContentType _ := ContentType3DModel;
  pf_FindFileFromName _ _ := None;
  pf_Relationships _ := [];
  pf_Open f := inr (MkReadCloser (fake_data f) None)
}.

(** What the run-time environment decides during [DecodeContext]: the
    answers each auxiliary task and the root decode get when they poll the
    context, whether the caller's context is done when an auxiliary task
    polls after its decode, and how the goroutines interleave: each
    occurrence of [i] in [tailOrder] lets the goroutine of part [i] take
    its next step after [readChildModel] has returned. *)
Record Schedule := MkSchedule {
  childCtx : nat -> Context;
  parentDone : nat -> bool;
  tailOrder : list nat;
  rootCtx : Context
}.

(** The trace of decoding work: the goroutine of an auxiliary part ran, or
    the root part was decoded. *)
Inductive Event :=
| AuxTask (i : nat) (path : string)
| RootDecode (path : string).

#[global] Instance Event_eq_dec : EqDecision Event.
Proof. solve_decision. Defined.

Section Orchestrator.
Context {F : Type} `{PackageFile F} {D : Type} `{NodeDecoder D} `{CaseFold}.

Definition copyFile {G} `{PackageFile G} (file : G) : error + string :=
  match pf_Open file with
  | inl err => inl err
  | inr stream =>
      match rc_err stream with
      | Some err => inl err
      | None => inr (rc_data stream)
      end
  end.

Definition addAttachment (attachments : list Attachment) (file : F) : list Attachment :=
  if existsb (fun att => EqualFold (att_Path att) (pf_Name file)) attachments
  then attachments
  else
    match copyFile file with
    | inr buff =>
        attachments ++ [MkAttachment (pf_Name file) buff (pf_ContentType file)]
    | inl _ => attachments
    end.

Definition setAttachments (a : list Attachment) (m : Model) : Model :=
  MkModel (m_Path m) (m_RootRelationships m) (m_Relationships m) a (m_Childs m)
    (m_BuildItems m) (m_Resources m) (m_Specs m).

Definition setChilds (c : gmap string ChildModel) (m : Model) : Model :=
  MkModel (m_Path m) (m_RootRelationships m) (m_Relationships m) (m_Attachments m) c
    (m_BuildItems m) (m_Resources m) (m_Specs m).

Definition setRelationships (r : list Relationship) (m : Model) : Model :=
  MkModel (m_Path m) (m_RootRelationships m) r (m_Attachments m) (m_Childs m)
    (m_BuildItems m) (m_Resources m) (m_Specs m).

Definition setRootRelationships (r : list Relationship) (m : Model) : Model :=
  MkModel (m_Path m) r (m_Relationships m) (m_Attachments m) (m_Childs m)
    (m_BuildItems m) (m_Resources m) (m_Specs m).

Definition setPath (p : string) (m : Model) : Model :=
  MkModel p (m_RootRelationships m) (m_Relationships m) (m_Attachments m) (m_Childs m)
    (m_BuildItems m) (m_Resources m) (m_Specs m).

Definition addNonRootModel (file : F) (d : Decoder F) : Decoder F :=
  MkDecoder (d_Strict d) (d_Warnings d) (d_p d) (d_x d) (d_nonRootModels d ++ [file]).

Definition addWarnings (w : list error) (d : Decoder F) : Decoder F :=
  MkDecoder (d_Strict d) (d_Warnings d ++ w) (d_p d) (d_x d) (d_nonRootModels d).

(** The body of the loop of [extractCoreAttachments]. *)
Definition extractRel (modelFile : F) (isRoot : bool) (st : Decoder F * Model)
    (rel : Relationship) : Decoder F * Model :=
  let '(d, model) := st in
  match pf_FindFileFromName modelFile (r_Path rel) with
  | Some file =>
      if isRoot then
        if decide (r_Type rel = RelType3DModel) then
          (addNonRootModel file d,
           setChilds (<[pf_Name file := MkChildModel [] []]> (m_Childs model)) model)
        else
          (d, setRelationships (m_Relationships model ++ [rel])
                (setAttachments (addAttachment (m_Attachments model) file) model))
      else if decide (r_Type rel = RelType3DModel) then (d, model)
      else
        match m_Childs model !! pf_Name modelFile with
        | Some child =>
            (d, setChilds
                  (<[pf_Name modelFile :=
                       MkChildModel (cm_Resources child) (cm_Relationships child ++ [rel])]>
                     (m_Childs model))
                  (setAttachments (addAttachment (m_Attachments model) file) model))
        | None => (d, model)
        end
  | None => (d, model)
  end.

Definition extractCoreAttachments (modelFile : F) (isRoot : bool)
    (st : Decoder F * Model) : Decoder F * Model :=
  fold_left (extractRel modelFile isRoot) (pf_Relationships modelFile) st.

(** The loop of [processOPC] over the package relationships; [rootFile] is
    the root found so far. *)
Fixpoint processRelationships (rels : list Relationship) (rootFile : option F)
    (d : Decoder F) (model : Model) : (error + option F) * Decoder F * Model :=
  match rels with
  | [] => (inr rootFile, d, model)
  | r :: rest =>
      if decide (r_Type r = RelType3DModel) then
        match p_FindFileFromName (d_p d) (r_Path r) with
        | None =>
            (inl (errorString "package root model points to an unexisting file"), d, model)
        | Some root =>
            let st := extractCoreAttachments root true (d, setPath (pf_Name root) model) in
            let '(d', model') :=
              fold_left (fun st file => extractCoreAttachments file false st)
                (d_nonRootModels (fst st)) st in
            processRelationships rest (Some root) d' model'
        end
      else
        match p_FindFileFromName (d_p d) (r_Path r) with
        | Some att =>
            processRelationships rest rootFile d
              (setAttachments (addAttachment (m_Attachments model) att)
                 (setRootRelationships (m_RootRelationships model ++ [r]) model))
        | None => processRelationships rest rootFile d model
        end
  end.

Definition processOPC (d : Decoder F) (model : Model) : (error + F) * Decoder F * Model :=
  match p_Open (d_p d) with
  | Some err => (inl err, d, model)
  | None =>
      match processRelationships (p_Relationships (d_p d)) None d model with
      | (inl err, d', model') => (inl err, d', model')
      | (inr None, d', model') =>
          (inl (errorString "package does not have root model"), d', model')
      | (inr (Some rootFile), d', model') => (inr rootFile, d', model')
      end
  end.

Definition addModelFile (p : Scanner) (st : Decoder F * Model) : Decoder F * Model :=
  let '(d, model) := st in
  (addWarnings (Warnings p) d,
   MkModel (m_Path model) (m_RootRelationships model) (m_Relationships model)
     (m_Attachments model) (m_Childs model) (m_BuildItems model ++ BuildItems p)
     (Resources p) (m_Specs model)).

(** [addChildModelFile]: the child entry of the part must exist, writing
    through a missing (nil) entry panics. *)
Definition addChildModelFile (p : Scanner) (st : Decoder F * Model)
  : outcome (Decoder F * Model) :=
  let '(d, model) := st in
  match m_Childs model !! ModelPath p with
  | Some child =>
      Returns (addWarnings (Warnings p) d,
               setChilds (<[ModelPath p := MkChildModel (Resources p) (cm_Relationships child)]>
                            (m_Childs model)) model)
  | None => Panics
  end.

Definition processRootModel {G} `{PackageFile G} (ctx : Context) (rootFile : G)
    (d : Decoder F) (model : Model) : outcome (option error * Decoder F * Model) :=
  match pf_Open rootFile with
  | inl err => Returns (Some err, d, model)
  | inr f =>
      '(scanner, ctx') ← decodeModelFile ctx (d_x d f) model (pf_Name rootFile) true (d_Strict d);
      let '(done, _) := Done ctx' in
      let scanner := if done then setErr (Some (ctxErr ctx')) scanner else scanner in
      let '(d', model') := addModelFile scanner (d, model) in
      Returns (Err scanner, d', model')
  end.

(** [readChildModel]: the scanner (nil when the part cannot be opened) and
    the error. *)
Definition readChildModel (ctx : Context) (i : nat) (d : Decoder F) (model : Model)
  : outcome (option Scanner * option error) :=
  match d_nonRootModels d !! i with
  | None => Panics
  | Some attachment =>
      match pf_Open attachment with
      | inl err => Returns (None, Some err)
      | inr file =>
          '(scanner, _) ← decodeModelFile ctx (d_x d file) model (pf_Name attachment)
                             false (d_Strict d);
          Returns (Some scanner, Err scanner)
      end
  end.

(** *** The goroutines of [processNonRootModels]

    Each goroutine runs [readChildModel] and then takes two steps: it
    polls the derived context and returns if it is done; otherwise it
    records its error (and cancels the derived context) and stores its
    scanner. The shared variables are the cancellation flag, [err] and
    the [files] map, kept as the entries in the order they were stored. *)
Record shared := MkShared {
  cancelled : bool;
  sh_err : option error;
  files : list (nat * option Scanner);
  pcs : list nat
}.

Definition tailStep (tasks : list (option Scanner * option error))
    (pdone : nat -> bool) (sh : shared) (i : nat) : shared :=
  match tasks !! i, pcs sh !! i with
  | Some (f, err1), Some O =>
      if cancelled sh || pdone i
      then MkShared (cancelled sh) (sh_err sh) (files sh) (<[i := 2%nat]> (pcs sh))
      else MkShared (cancelled sh) (sh_err sh) (files sh) (<[i := 1%nat]> (pcs sh))
  | Some (f, err1), Some (S O) =>
      match err1 with
      | Some e =>
          MkShared true (Some e) (files sh ++ [(i, f)]) (<[i := 2%nat]> (pcs sh))
      | None =>
          MkShared (cancelled sh) (sh_err sh) (files sh ++ [(i, f)]) (<[i := 2%nat]> (pcs sh))
      end
  | _, _ => sh
  end.

(** All goroutines run to their end before [wg.Wait] returns: after the
    steps of the schedule every goroutine is given the two steps it may
    still have to take. *)
Definition runTails (tasks : list (option Scanner * option error))
    (pdone : nat -> bool) (order : list nat) : shared :=
  let n := length tasks in
  fold_left (tailStep tasks pdone) (order ++ seq 0 n ++ seq 0 n)
    (MkShared false None [] (replicate n O)).

(** [sort.Ints] *)
Definition sortInts (l : list nat) : list nat := merge_sort Nat.le l.

Definition loadFile (fs : list (nat * option Scanner)) (index : nat) : option (option Scanner) :=
  snd <$> List.find (fun e => Nat.eqb (fst e) index) fs.

(** The merge loop: the stored scanners are added in the order of the
    sorted indices. *)
Fixpoint mergeFiles (fs : list (nat * option Scanner)) (indices : list nat)
    (st : Decoder F * Model) : outcome (Decoder F * Model) :=
  match indices with
  | [] => Returns st
  | index :: rest =>
      match loadFile fs index with
      | Some (Some p) => st' ← addChildModelFile p st; mergeFiles fs rest st'
      | _ => Panics
      end
  end.

Fixpoint mapM {A B} (f : A -> outcome B) (l : list A) : outcome (list B) :=
  match l with
  | [] => Returns []
  | a :: rest => b ← f a; bs ← mapM f rest; Returns (b :: bs)
  end.

Definition auxEvents (d : Decoder F) : list Event :=
  imap (fun i file => AuxTask i (pf_Name file)) (d_nonRootModels d).

Definition processNonRootModels (sched : Schedule) (d : Decoder F) (model : Model)
  : outcome (option error * Decoder F * Model) :=
  let n := length (d_nonRootModels d) in
  tasks ← mapM (fun i => readChildModel (childCtx sched i) i d model) (seq 0 n);
  let sh := runTails tasks (parentDone sched) (tailOrder sched) in
  match sh_err sh with
  | Some err => Returns (Some err, d, model)
  | None =>
      let indices := sortInts (map fst (files sh)) in
      '(d', model') ← mergeFiles (files sh) indices (d, model);
      Returns (None, d', model')
  end.

(** The root part is decoded when it can be opened. *)
Definition rootEvents (rootFile : F) : list Event :=
  match pf_Open rootFile with
  | inr _ => [RootDecode (pf_Name rootFile)]
  | inl _ => []
  end.

(** [DecodeContext]: the returned error, the decoder and the model as the
    call leaves them, and the trace of the decoding work done. *)
Definition DecodeContext (sched : Schedule) (d : Decoder F) (model : Model)
  : outcome (option error * Decoder F * Model * list Event) :=
  match processOPC d model with
  | (inl err, d1, model1) => Returns (Some err, d1, model1, [])
  | (inr rootFile, d1, model1) =>
      '(err, d2, model2) ← processNonRootModels sched d1 model1;
      match err with
      | Some e => Returns (Some e, d2, model2, auxEvents d1)
      | None =>
          '(err', d3, model3) ← processRootModel (rootCtx sched) rootFile d2 model2;
          Returns (err', d3, model3, auxEvents d1 ++ rootEvents rootFile)
      end
  end.

(** [Decode] runs [DecodeContext] with the background context, which is
    never done. *)
Definition Decode (sched : Schedule) (d : Decoder F) (model : Model)
  : outcome (option error * Decoder F * Model * list Event) :=
  DecodeContext
    (MkSchedule (childCtx sched) (fun _ => false) (tailOrder sched) Background) d model.


(** *** Predicates on attachments and on the state of the walk *)

(** No two attachments have paths that are equal when case is ignored. *)
Definition foldDistinct (l : list Attachment) : Prop :=
  forall (i j : nat) a b, (i < j)%nat -> l !! i = Some a -> l !! j = Some b ->
    EqualFold (att_Path a) (att_Path b) = false.

(** Some attachment of the list has the path of the file, case ignored. *)
Definition hasPath (l : list Attachment) (name : string) : Prop :=
  exists a, a ∈ l /\ EqualFold (att_Path a) name = true.

(** What the relationship walk leaves alone: the decoded content of the
    model, and the configuration and the warnings of the decoder. *)
Definition sameContent (st st' : Decoder F * Model) : Prop :=
  m_Resources (snd st') = m_Resources (snd st) /\
  m_BuildItems (snd st') = m_BuildItems (snd st) /\
  m_Specs (snd st') = m_Specs (snd st) /\
  d_Warnings (fst st') = d_Warnings (fst st) /\
  d_Strict (fst st') = d_Strict (fst st) /\
  d_p (fst st') = d_p (fst st) /\
  d_x (fst st') = d_x (fst st).

(** The invariant of the walk. *)
Definition walkInv (st0 st : Decoder F * Model) : Prop :=
  sameContent st0 st /\
  (foldDistinct (m_Attachments (snd st0)) -> foldDistinct (m_Attachments (snd st))).

(** The relationships of the recognized 3D-model type. *)
Definition modelRels (rels : list Relationship) : list Relationship :=
  filter (fun r => r_Type r = RelType3DModel) rels.

(** *** The merge in index order

    The indices of the tasks that get to store their scanner when no task
    fails: those whose poll of the caller's context answers not done, in
    ascending order. *)
Definition stored (tasks : list (option Scanner * option error)) (pdone : nat -> bool)
  : list nat :=
  filter (fun i => pdone i = false) (seq 0 (length tasks)).

Definition scannersOf (tasks : list (option Scanner * option error)) (indices : list nat)
  : list (option Scanner) :=
  map (fun i => match tasks !! i with Some (f, _) => f | None => None end) indices.

(** Adding scanners one after the other, in the order of the list. *)
Fixpoint mergeInOrder (scs : list (option Scanner)) (st : Decoder F * Model)
  : outcome (Decoder F * Model) :=
  match scs with
  | [] => Returns st
  | Some p :: rest => st' ← addChildModelFile p st; mergeInOrder rest st'
  | None :: _ => Panics
  end.

(** The program counter of a goroutine: 0 before its poll, 1 between the
    poll and the store, 2 at its end. *)
Definition pcOf (sh : shared) (i : nat) : nat := default O (pcs sh !! i).

(** The invariant of the goroutine steps. *)
Definition tailInv (tasks : list (option Scanner * option error)) (pdone : nat -> bool)
    (sh : shared) : Prop :=
  length (pcs sh) = length tasks /\
  (forall i, (pcOf sh i <= 2)%nat) /\
  (sh_err sh = None ->
     cancelled sh = false /\
     NoDup (map fst (files sh)) /\
     (forall i, i ∈ map fst (files sh) <-> pcs sh !! i = Some 2%nat /\ pdone i = false) /\
     (forall i, pcs sh !! i = Some 1%nat -> pdone i = false) /\
     (forall i f, (i, f) ∈ files sh -> tasks !! i = Some (f, None))).

(** No task that gets past its poll has failed. *)
Definition noFailure (tasks : list (option Scanner * option error)) (pdone : nat -> bool)
  : Prop :=
  forall i f e, tasks !! i = Some (f, e) -> pdone i = false -> e = None.

(** What merging a part leaves alone. *)
Definition sameWalk (st st' : Decoder F * Model) : Prop :=
  m_Attachments (snd st') = m_Attachments (snd st) /\
  d_nonRootModels (fst st') = d_nonRootModels (fst st) /\
  exists w, d_Warnings (fst st') = d_Warnings (fst st) ++ w.

(** A relationship of the 3D-model type whose target is not a part of
    the package. *)
Definition dangling (p : packageReader F) (r : Relationship) : Prop :=
  r ∈ modelRels (p_Relationships p) /\ p_FindFileFromName p (r_Path r) = None.

End Orchestrator.

End Reader.

(** ** Sample packages

    Concrete implementations of the interfaces, used to run the reader on
    small packages: package files backed by a list of parts, a token
    reader that looks the tokens of a part up in a table, the ASCII case
    folding, and node decoders for model, resources and object elements. *)

Module Sample.
Import Reader.

(** [strings.EqualFold] on ASCII strings. *)
Definition EqualFoldASCII (s t : string) : bool :=
  String.eqb (Strconv.lowerString s) (Strconv.lowerString t).

#[global] Instance asciiFold : CaseFold := {| EqualFold := EqualFoldASCII |}.

Record part := MkPart {
  part_Name : string;
  part_ContentType : string;
  part_Relationships : list Relationship;
  part_Open : error + ReadCloser
}.

(** A file of a package: the part, and the parts of the package for
    [FindFileFromName]. *)
Record file := MkFile { f_package : list part; f_part : part }.

Definition findPart (pkg : list part) (name : string) : option file :=
  MkFile pkg <$> List.find (fun p => String.eqb (part_Name p) name) pkg.

#[global] Instance file_PackageFile : PackageFile file := {
  pf_Name f := part_Name (f_part f);
  pf_ContentType f := part_ContentType (f_part f);
  pf_FindFileFromName f name := findPart (f_package f) name;
  pf_Relationships f := part_Relationships (f_part f);
  pf_Open f := part_Open (f_part f)
}.

Definition reader (pkg : list part) (rels : list Relationship) : packageReader file :=
  MkPackageReader None (findPart pkg) rels.

(** A token reader set with [SetXMLDecoder]: the tokens of a part are
    looked up by its content; every token advances the offset by one. *)
Fixpoint withOffsets (o : Z) (toks : list Token) : list (Token * Z) :=
  match toks with
  | [] => []
  | t :: rest => (t, o + 1) :: withOffsets (o + 1) rest
  end.

Definition tokenTable (docs : list (string * list Token)) (rc : ReadCloser) : XMLDecoder :=
  match List.find (fun e => String.eqb (fst e) (rc_data rc)) docs with
  | Some (_, toks) => MkXMLDecoder (withOffsets 0 toks) io_EOF 0
  | None => MkXMLDecoder [] io_EOF 0
  end.

(** Node decoders for a model with resources and objects. An object with
    an id that does not parse is a warning; with [promote] set the warning
    also becomes the scanner's error when the scanner is strict. *)
Inductive node := modelNode | resourcesNode | objectNode (id : Z).

Definition coreName (n : string) : xmlName := XmlName Namespace n.

Definition node_Child (d : node) (sc : Scanner) (name : xmlName) : option node :=
  match d with
  | modelNode =>
      if decide (name = coreName attrResources) then Some resourcesNode else None
  | resourcesNode =>
      if decide (name = coreName attrObject) then Some (objectNode 0) else None
  | objectNode _ => None
  end.

Definition addWarning (promote : bool) (w : error) (sc : Scanner) : Scanner :=
  MkScanner (extensionDecoder sc) (IsRoot sc) (Strict sc) (ModelPath sc) (Element sc)
    (if promote && Strict sc then Some w else Err sc)
    (Warnings sc ++ [w]) (Resources sc) (BuildItems sc).

Definition node_Start (promote : bool) (d : node) (attrs : list Attr) (sc : Scanner)
  : node * Scanner :=
  match d with
  | objectNode _ =>
      match Core.lastAttr "id" attrs with
      | Some a =>
          match Strconv.ParseUint (Value a) 32 with
          | (id, None) => (objectNode id, sc)
          | (id, Some _) => (objectNode id, addWarning promote (errorString "invalid id") sc)
          end
      | None => (d, sc)
      end
  | _ => (d, sc)
  end.

Definition node_End (d : node) (sc : Scanner) : Scanner :=
  match d with
  | objectNode id =>
      MkScanner (extensionDecoder sc) (IsRoot sc) (Strict sc) (ModelPath sc) (Element sc)
        (Err sc) (Warnings sc) (Resources sc ++ [MkResource id]) (BuildItems sc)
  | _ => sc
  end.

Definition nodeDecoders (promote : bool) : NodeDecoder node := {|
  Child := node_Child;
  Start := node_Start promote;
  Text := fun d _ sc => (d, sc);
  End_ := node_End;
  newModelDecoder := fun _ => modelNode
|}.

Definition emptyModel : Model := MkModel "" [] [] [] ∅ [] [] [].

Definition startCore (n : string) (attrs : list Attr) : Token :=
  StartElement (coreName n) attrs.
Definition endCore (n : string) : Token := EndElement (coreName n).
Definition idAttr (v : string) : Attr := MkAttr (XmlName "" "id") v.

(** A model document with the objects of the given ids. *)
Definition modelDoc (ids : list string) : list Token :=
  [startCore attrModel []; startCore attrResources []]
  ++ flat_map (fun v => [startCore attrObject [idAttr v]; endCore attrObject]) ids
  ++ [endCore attrResources; endCore attrModel].

Definition data (name : string) : error + ReadCloser := inr (MkReadCloser name None).

Definition relModel (path : string) : Relationship := MkRelationship RelType3DModel path.
Definition relThumbnail (path : string) : Relationship :=
  MkRelationship "http://schemas.openxmlformats.org/package/2006/relationships/metadata/thumbnail" path.

(** An element of a namespace no extension is registered for, nested
    three levels deep. *)
Definition foreignName (n : string) : xmlName := XmlName "http://example.com/unknown" n.
Definition foreignSubtree : list Token :=
  [StartElement (foreignName "a") [];
   StartElement (foreignName "b") [];
   StartElement (foreignName "c") [idAttr "7"];
   EndElement (foreignName "c");
   CharData "text";
   EndElement (foreignName "b");
   EndElement (foreignName "a")].

(** A model document with the foreign subtree between its objects. *)
Definition modelDocWithForeign (ids1 ids2 : list string) : list Token :=
  [startCore attrModel []; startCore attrResources []]
  ++ flat_map (fun v => [startCore attrObject [idAttr v]; endCore attrObject]) ids1
  ++ foreignSubtree
  ++ flat_map (fun v => [startCore attrObject [idAttr v]; endCore attrObject]) ids2
  ++ [endCore attrResources; endCore attrModel].

(** The schedule in which no context is ever done and the goroutines
    finish in the order they were started. *)
Definition quiet : Schedule :=
  MkSchedule (fun _ => Background) (fun _ => false) [] Background.

(** A package: a root model with two auxiliary model parts and a
    thumbnail; the first auxiliary part refers to the thumbnail under a
    name that differs in case. The second object of the root document and
    of the first auxiliary document has an id that does not parse. *)
Definition rootPart : part :=
  MkPart "/3D/3dmodel.model" ContentType3DModel
    [relModel "/3D/aux1.model"; relModel "/3D/aux2.model"; relThumbnail "/thumb.png"]
    (data "root").
Definition aux1 : part :=
  MkPart "/3D/aux1.model" ContentType3DModel [relThumbnail "/THUMB.png"] (data "aux1").
Definition aux2 : part := MkPart "/3D/aux2.model" ContentType3DModel [] (data "aux2").
Definition thumb : part := MkPart "/thumb.png" "image/png" [] (data "png").
Definition thumbUpper : part := MkPart "/THUMB.png" "image/png" [] (data "PNG").
Definition parts : list part := [rootPart; aux1; aux2; thumb; thumbUpper].

Definition docs : list (string * list Token) :=
  [("root", modelDoc ["1"; "x"; "3"]);
   ("aux1", modelDoc ["10"; "bad"]);
   ("aux2", modelDoc ["20"])].

Definition decoderFor (rels : list Relationship) (strict : bool) : Decoder file :=
  MkDecoder strict [] (reader parts rels) (tokenTable docs) [].

Definition packageRels : list Relationship :=
  [relModel "/3D/3dmodel.model"; relThumbnail "/thumb.png"].

(** A schedule in which the goroutine of the second auxiliary part polls
    and stores before the one of the first. *)
Definition secondFirst : Schedule :=
  MkSchedule (fun _ => Background) (fun _ => false) [1; 1; 0; 0]%nat Background.




(** Projections of a result. *)
Definition errorOf {A B C} (o : outcome (option error * A * B * C)) : option (option error) :=
  match o with Returns (e, _, _, _) => Some e | _ => None end.
Definition modelOf {A B C} (o : outcome (A * B * Model * C)) : option Model :=
  match o with Returns (_, _, m, _) => Some m | _ => None end.

End Sample.

(** ** Further predicates on token streams and on the state of a decode *)

Module ReaderSpec.
Import Reader.

(** The name of no element: the value of [currentName] before the first
    start element. *)
Definition noName : xmlName := XmlName "" "".

(** No end element of the run has the empty name. *)
Definition namedEnds (toks : list (Token * Z)) : Prop :=
  forall o, (EndElement noName, o) ∉ toks.

(** Every token of the run ends at or before the first cancellation
    check. *)
(** The same as a test on a given stream. *)
Definition namedEndsb (toks : list (Token * Z)) : bool :=
  forallb (fun e => match fst e with
                    | EndElement n => negb (bool_decide (n = noName))
                    | _ => true
                    end) toks.

Definition belowFirstCheck (toks : list (Token * Z)) : Prop :=
  Forall (fun e => snd e <= checkEveryBytes) toks.

(** The same as a test on a given stream. *)
Definition belowFirstCheckb (toks : list (Token * Z)) : bool :=
  forallb (fun e => snd e <=? checkEveryBytes) toks.

(** The context [c'] is [c] after the polls that were answered [used]. *)
Definition usedPolls (c c' : Context) (used : list bool) : Prop :=
  polls c = used ++ polls c' /\ ctxErr c' = ctxErr c.

Section Engine.
Context {D : Type} `{NodeDecoder D}.

(** The two stacks of the loop go together, and the name at the bottom of
    the name stack, or the current name when the stack is empty, is the
    empty name the loop starts with. *)
Definition stackInv (st : @loopState D) : Prop :=
  length (state st) = length (names st) /\
  head (names st ++ [currentName st]) = Some noName /\
  namedEnds (pending (ls_x st)).

(** A loop state with another context. *)
Definition withCtx (c : Context) (st : @loopState D) : @loopState D :=
  MkLoopState (ls_x st) (ls_scanner st) c (currentDecoder st) (currentName st)
    (state st) (names st) (nextBytesCheck st).

(** The hooks leave the path of the part in the scanner alone. *)
(** The loop has not moved its threshold and no token left lies beyond
    it. *)
Definition smallInv (st : @loopState D) : Prop :=
  nextBytesCheck st = checkEveryBytes /\ belowFirstCheck (pending (ls_x st)).

Definition hooksKeepPath : Prop :=
  (forall d attr sc, ModelPath (snd (Start d attr sc)) = ModelPath sc) /\
  (forall d data sc, ModelPath (snd (Text d data sc)) = ModelPath sc) /\
  (forall d sc, ModelPath (End_ d sc) = ModelPath sc).

End Engine.

Section Walk.
Context {F : Type} `{PackageFile F}.

(** Every auxiliary part the decoder has discovered has its entry in the
    table of child models. *)
Definition childrenKnown (st : Decoder F * Model) : Prop :=
  forall f, f ∈ d_nonRootModels (fst st) -> is_Some (m_Childs (snd st) !! pf_Name f).

(** The targets, where they exist, of the relationships of the 3D-model
    type of a part, in the order of the relationships. *)
Definition modelTargets (part : F) : list F :=
  omap (fun rel => pf_FindFileFromName part (r_Path rel))
    (modelRels (pf_Relationships part)).

(** The parts the model relationships of the package point to. *)
Definition packageRoots (p : packageReader F) : list F :=
  omap (fun rel => p_FindFileFromName p (r_Path rel)) (modelRels (p_Relationships p)).

(** The package relationships that become root relationships of the
    model: those that are not of the 3D-model type and whose target is a
    part of the package. *)
Definition keptRelationships (p : packageReader F) (rels : list Relationship)
  : list Relationship :=
  filter (fun r => r_Type r <> RelType3DModel /\ is_Some (p_FindFileFromName p (r_Path r)))
    rels.

(** The child entries of [m'] are those of [m]. *)
Definition sameChildKeys (m m' : Model) : Prop :=
  forall k, is_Some (m_Childs m' !! k) <-> is_Some (m_Childs m !! k).

(** Where the error the goroutines leave comes from: a goroutine between
    its poll and its store has seen the context not done, and the error is
    the one of a task that got past its poll. *)
Definition errInv (tasks : list (option Scanner * option error)) (pdone : nat -> bool)
    (sh : shared) : Prop :=
  (forall i, pcs sh !! i = Some 1%nat -> pdone i = false) /\
  (forall e, sh_err sh = Some e ->
     exists i f, tasks !! i = Some (f, Some e) /\ pdone i = false).

End Walk.

End ReaderSpec.

(** ** The tree of the core element decoders *)

Module DispatchSpec.
Import Dispatch.

#[global] Instance coreDecoder_eq_dec : EqDecision coreDecoder.
Proof. solve_decision. Defined.

(** The element each core decoder is created for; the top-level decoder
    stands for the document and is created by [decodeModelFile]. *)
Definition elementName (d : coreDecoder) : option string :=
  match d with
  | topLevelDecoder _ => None
  | modelDecoder _ => Some attrModel
  | metadataGroupDecoder => Some attrMetadataGroup
  | metadataDecoder => Some attrMetadata
  | buildDecoder => Some attrBuild
  | buildItemDecoder => Some attrItem
  | resourceDecoder => Some attrResources
  | baseMaterialsDecoder => Some attrBaseMaterials
  | baseMaterialDecoder => Some attrBase
  | meshDecoder => Some attrMesh
  | verticesDecoder => Some attrVertices
  | vertexDecoder => Some attrVertex
  | trianglesDecoder => Some attrTriangles
  | triangleDecoder => Some attrTriangle
  | objectDecoder => Some attrObject
  | componentsDecoder => Some attrComponents
  | componentDecoder => Some attrComponent
  end.

Section Tree.
Context {E : Type}.

(** The core decoder a path of nested elements gets, going down from the
    decoder [d] by [Child]: none when some element of the path gets no
    decoder or the decoder of an extension. *)
Fixpoint descend (ctx : decoderContext E) (d : coreDecoder) (path : list xmlName)
  : option coreDecoder :=
  match path with
  | [] => Some d
  | name :: rest =>
      match Child ctx d name with
      | Some (coreElement c) => descend ctx c rest
      | _ => None
      end
  end.

(** The names of the core namespace. *)
Definition corePath (names : list string) : list xmlName := map (XmlName Namespace) names.

(** The decoders of the build section of the root model. *)
Definition ofBuild (d : coreDecoder) : bool :=
  match d with
  | buildDecoder | buildItemDecoder => true
  | _ => false
  end.

(** The decoders that carry the root flag, with the flag set. *)
Definition ofRoot (d : coreDecoder) : bool :=
  match d with
  | topLevelDecoder true | modelDecoder true => true
  | _ => false
  end.

End Tree.

(** The decoders whose [Child] creates a given core decoder. *)
Definition parents (c : coreDecoder) : list coreDecoder :=
  match c with
  | topLevelDecoder _ => []
  | modelDecoder r => [topLevelDecoder r]
  | metadataGroupDecoder => [buildItemDecoder; objectDecoder]
  | metadataDecoder => [modelDecoder true; metadataGroupDecoder]
  | buildDecoder => [modelDecoder true]
  | buildItemDecoder => [buildDecoder]
  | resourceDecoder => [modelDecoder true; modelDecoder false]
  | baseMaterialsDecoder => [resourceDecoder]
  | baseMaterialDecoder => [baseMaterialsDecoder]
  | meshDecoder => [objectDecoder]
  | verticesDecoder => [meshDecoder]
  | vertexDecoder => [verticesDecoder]
  | trianglesDecoder => [meshDecoder]
  | triangleDecoder => [trianglesDecoder]
  | objectDecoder => [resourceDecoder]
  | componentsDecoder => [objectDecoder]
  | componentDecoder => [componentsDecoder]
  end.

(** How many levels of core decoders can follow below a decoder. *)
Definition height (d : coreDecoder) : nat :=
  match d with
  | topLevelDecoder _ => 6
  | modelDecoder _ => 5
  | resourceDecoder => 4
  | objectDecoder | buildDecoder => 3
  | meshDecoder | buildItemDecoder => 2
  | verticesDecoder | trianglesDecoder | componentsDecoder | baseMaterialsDecoder
  | metadataGroupDecoder => 1
  | vertexDecoder | triangleDecoder | componentDecoder | baseMaterialDecoder
  | metadataDecoder => 0
  end.

End DispatchSpec.

(** ** Encoding the extension bags *)

Module Encode.

Section Encode.
(** [X] is the state of the [XMLEncoder] the marshalers write to and [E]
    the type of their errors. *)
Context {X E : Type}.

(** The interfaces [Marshaler] and [MarshalerAttr]: a method gets the
    encoder and may leave it changed. *)
Record Marshaler := MkMarshaler { Marshal3MF : X -> X * option E }.
Record MarshalerAttr := MkMarshalerAttr {
  Marshal3MFAttr : X -> X * (list Attr * option E)
}.

(** [Extensions.encode]: the encoder and the returned error; calling the
    method of a nil entry panics ([None]). *)
Fixpoint Extensions_encode (e : list (option Marshaler)) (x : X) : option (X * option E) :=
  match e with
  | [] => Some (x, None)
  | None :: _ => None
  | Some ext :: rest =>
      match Marshal3MF ext x with
      | (x', None) => Some (x', None)
      | (x', Some _) => Extensions_encode rest x'
      end
  end.

(** [ExtensionsAttr.encode]: the encoder and the attributes of the start
    element. *)
Fixpoint ExtensionsAttr_encode (e : list (option MarshalerAttr)) (x : X)
    (start : list Attr) : option (X * list Attr) :=
  match e with
  | [] => Some (x, start)
  | None :: _ => None
  | Some ext :: rest =>
      match Marshal3MFAttr ext x with
      | (x', (att, None)) => ExtensionsAttr_encode rest x' (start ++ att)
      | (x', (_, Some _)) => ExtensionsAttr_encode rest x' start
      end
  end.

(** Every marshaler of the list, called in turn, fails: the encoder they
    leave. *)
Fixpoint allFail (l : list Marshaler) (x : X) : option X :=
  match l with
  | [] => Some x
  | m :: rest =>
      match Marshal3MF m x with
      | (x', Some _) => allFail rest x'
      | (_, None) => None
      end
  end.

End Encode.

Arguments Marshaler : clear implicits.
Arguments MarshalerAttr : clear implicits.

End Encode.

(** ** Looking up an extension by type *)

Module GetSpec.
Import Extensions.

Section Get.
Context {Typ V : Type} `{Reflect Typ}.

(** The targets [Get] accepts: a non-nil pointer to an interface type or
    to a type that implements the marshaler interface. *)
Definition validTarget (iface : marshalerIface) (typ : Typ) : Prop :=
  KindOf typ = Ptr /\
  (KindOf (Elem typ) = Interface \/ Implements (Elem typ) iface = true).

(** An entry that is not nil and whose dynamic type is assignable to the
    target type. *)
Definition matches (targetType : Typ) (o : option (@dyn Typ V)) : bool :=
  match o with
  | Some v => AssignableTo (dynType v) targetType
  | None => false
  end.

End Get.

End GetSpec.

(** ** The production extension: UUIDs before encoding *)

Module Production.
Import Extensions.

(** The attribute types of the production extension. *)
Inductive attrType := BuildAttr | ItemAttr | ObjectAttr | ComponentAttr.

#[global] Instance attrType_eq_dec : EqDecision attrType.
Proof. solve_decision. Defined.

(** The Go types that occur: the structs of the extension, the types of
    other attribute marshalers, and pointers. *)
Inductive goType :=
| Struct (t : attrType)
| Other (n : nat)
| PtrTo (t : goType).

#[global] Instance goType_eq_dec : EqDecision goType.
Proof. solve_decision. Defined.

(** Package reflect on these types. The [Marshal3MFAttr] methods have
    pointer receivers, so the pointers to the structs implement
    [MarshalerAttr]; none of the types is an interface type, so a type is
    assignable to an other one when they are identical. *)
#[global] Instance goReflect : Reflect goType := {
  KindOf t := match t with PtrTo _ => Ptr | _ => OtherKind end;
  Elem t := match t with PtrTo u => u | _ => t end;
  Implements t i :=
    match i, t with
    | marshalerAttrType, PtrTo (Struct _) => true
    | marshalerAttrType, Other _ => true
    | _, _ => false
    end;
  AssignableTo t u := bool_decide (t = u)
}.

(** The fields of the attribute structs; the build and object attributes
    have no path. *)
Record attrValue := MkAttrValue { a_Path : string; a_UUID : string }.

Definition attrs := @bag goType attrValue.

Record Spec := MkSpec { DisableAutoUUID : bool }.

Record Item := MkItem { i_AnyAttr : attrs }.
Record Build := MkBuild { b_AnyAttr : attrs; b_Items : list Item }.
Record Component := MkComponent { c_AnyAttr : attrs }.
Record Object := MkObject { o_AnyAttr : attrs; o_Components : list Component }.

Section BeforeEncode.
(** [uuid.New]: the identifiers it returns, call after call; the number
    of calls made so far is part of the state. *)
Variable uuid_New : nat -> string.

(** [append] to a bag that may be nil. *)
Definition appendAttr (b : attrs) (v : @dyn goType attrValue) : attrs :=
  Some (default [] b ++ [Some v]).

(** The step repeated for every entity: [Get] with a pointer to a nil
    pointer of the attribute type, and an attribute with a new UUID when
    [Get] finds none. A panic of [Get] is [None]. *)
Definition ensure (t : attrType) (b : attrs) (n : nat) : option (attrs * nat) :=
  match ExtensionsAttr_Get b (targetOf (PtrTo (PtrTo (Struct t))) false) with
  | Panic _ => None
  | Return true _ => Some (b, n)
  | Return false _ =>
      Some (appendAttr b (MkDyn (PtrTo (Struct t)) (MkAttrValue "" (uuid_New n))), S n)
  end.

Fixpoint ensureItems (items : list Item) (n : nat) : option (list Item * nat) :=
  match items with
  | [] => Some ([], n)
  | item :: rest =>
      match ensure ItemAttr (i_AnyAttr item) n with
      | None => None
      | Some (a, n1) =>
          match ensureItems rest n1 with
          | None => None
          | Some (rest', n2) => Some (MkItem a :: rest', n2)
          end
      end
  end.

Fixpoint ensureComponents (cs : list Component) (n : nat)
  : option (list Component * nat) :=
  match cs with
  | [] => Some ([], n)
  | c :: rest =>
      match ensure ComponentAttr (c_AnyAttr c) n with
      | None => None
      | Some (a, n1) =>
          match ensureComponents rest n1 with
          | None => None
          | Some (rest', n2) => Some (MkComponent a :: rest', n2)
          end
      end
  end.

(** [BeforeEncode] up to the walk over the objects: the build and its
    items. *)
Definition BeforeEncode_build (s : Spec) (build : Build) (n : nat) : option (Build * nat) :=
  if DisableAutoUUID s then Some (build, n)
  else
    match ensure BuildAttr (b_AnyAttr build) n with
    | None => None
    | Some (a, n1) =>
        match ensureItems (b_Items build) n1 with
        | None => None
        | Some (items, n2) => Some (MkBuild a items, n2)
        end
    end.

(** The function [BeforeEncode] hands to [WalkObjects], applied to one
    object; it always returns nil. *)
Definition BeforeEncode_object (o : Object) (n : nat) : option (Object * nat) :=
  match ensure ObjectAttr (o_AnyAttr o) n with
  | None => None
  | Some (a, n1) =>
      match ensureComponents (o_Components o) n1 with
      | None => None
      | Some (cs, n2) => Some (MkObject a cs, n2)
      end
  end.

End BeforeEncode.

(** [Get] finds an attribute of the type in the bag. *)
Definition hasAttr (t : attrType) (b : attrs) : Prop :=
  exists v, ExtensionsAttr_Get b (targetOf (PtrTo (PtrTo (Struct t))) false)
            = Return true (Some v) /\ dynType v = PtrTo (Struct t).

(** The entries of [b] are the first entries of [b'], a nil bag counting
    as an empty one. *)
Definition keeps (b b' : attrs) : Prop :=
  exists added, default [] b' = default [] b ++ added.

End Production.

(** ** decoder.go: objects and the defaults of their triangles *)

Module Objects.
Import Strconv Specerr Core.

(** Further attribute names of the core schema; like the names above they
    are declared outside the decoder file. *)
Definition attrID : string := "id".
Definition attrType : string := "type".
Definition attrThumbnail : string := "thumbnail".
Definition attrName : string := "name".
Definition attrPartNumber : string := "partnumber".
Definition attrPIndex : string := "pindex".

Section Object.
(** The object types and [newObjectType], declared with the model. *)
Context {ObjectType : Type}.
Variable newObjectType : string -> ObjectType * bool.

(** The fields of [Object] the decoder writes; [Mesh] is a pointer, nil
    until the mesh element starts. *)
Record Object := MkObject {
  o_ID : Z;
  o_Type : ObjectType;
  o_Thumbnail : string;
  o_Name : string;
  o_PartNumber : string;
  o_PID : Z;
  o_PIndex : Z;
  o_Mesh : option Mesh
}.

(** [ext.DecodeAttribute(&d.resource, a)] of the extension registered for
    the namespace of the attribute, which gets a pointer to the object;
    [None] when no extension is registered for the namespace. *)
Variable extensionAttr : Object -> Attr -> option (Object * list AttrError).

(** [objectDecoder.parseCoreAttr]: the object and the error. *)
Definition parseCoreAttr (o : Object) (a : Attr) : Object * list AttrError :=
  let n := Local (Name a) in
  let '(MkObject id typ thumbnail name partNumber pid pindex mesh) := o in
  if String.eqb n attrID then
    let '(val, err) := ParseUint (Value a) 32 in
    (MkObject (uint32 val) typ thumbnail name partNumber pid pindex mesh,
     addErr err n true [])
  else if String.eqb n attrType then
    let '(t, ok) := newObjectType (Value a) in
    (MkObject id t thumbnail name partNumber pid pindex mesh,
     if ok then [] else [ParseAttrError n false])
  else if String.eqb n attrThumbnail then
    (MkObject id typ (Value a) name partNumber pid pindex mesh, [])
  else if String.eqb n attrName then
    (MkObject id typ thumbnail (Value a) partNumber pid pindex mesh, [])
  else if String.eqb n attrPartNumber then
    (MkObject id typ thumbnail name (Value a) pid pindex mesh, [])
  else if String.eqb n attrPID then
    let '(val, err) := ParseUint (Value a) 32 in
    (MkObject id typ thumbnail name partNumber (uint32 val) pindex mesh,
     addErr err n false [])
  else if String.eqb n attrPIndex then
    let '(val, err) := ParseUint (Value a) 32 in
    (MkObject id typ thumbnail name partNumber pid (uint32 val) mesh,
     addErr err n false [])
  else (o, []).

(** One iteration of the attribute loop of [objectDecoder.Start]. *)
Definition objectAttr (st : Object * list AttrError) (a : Attr) : Object * list AttrError :=
  let '(o, errs) := st in
  if String.eqb (Space (Name a)) "" then
    let '(o', e) := parseCoreAttr o a in (o', errs ++ e)
  else
    match extensionAttr o a with
    | Some (o', e) => (o', errs ++ e)
    | None => (o, errs)
    end.

(** [objectDecoder.Start]; [nObjects] is [len(d.resources.Objects)]. *)
Definition objectDecoder_Start (o : Object) (attrs : list Attr) (nObjects : nat)
  : Object * option (Wrapped Object) :=
  let '(o', errs) := fold_left objectAttr attrs (o, []) in
  (o', WrapIndex errs o' nObjects).

(** [meshDecoder.Start] *)
Definition meshDecoder_Start (o : Object) : Object :=
  MkObject (o_ID o) (o_Type o) (o_Thumbnail o) (o_Name o) (o_PartNumber o)
    (o_PID o) (o_PIndex o) (Some (MkMesh [] [])).

(** [trianglesDecoder.Start]: the triangle decoder it sets up, which
    shares the mesh of the object; reading the mesh through a nil pointer
    panics ([None]). The capacity it reserves does not show. *)
Definition trianglesDecoder_Start (o : Object) : option triangleDecoder :=
  match o_Mesh o with
  | Some mesh => Some (MkTriangleDecoder mesh (o_PIndex o) (o_PID o))
  | None => None
  end.

(** The extensions leave the property defaults of the object alone. *)
Definition extensionsKeepDefaults : Prop :=
  forall o a o' errs, extensionAttr o a = Some (o', errs) ->
    o_PID o' = o_PID o /\ o_PIndex o' = o_PIndex o.

End Object.

(** The value an attribute loop over 32-bit numbers keeps for the
    attribute [n] of the empty namespace: that of the last such attribute,
    [d] when there is none. *)
Definition coreUint (n : string) (attrs : list Attr) (d : Z) : Z :=
  match lastAttr n (filter (fun a => Space (Name a) = "") attrs) with
  | Some a => uint32 (fst (ParseUint (Value a) 32))
  | None => d
  end.

(** The property group and the first property index of a triangle
    decoded under the defaults [pid] and [pindex]. *)
Definition resolved (pid pindex : Z) (tattrs : list Attr) (t : Triangle) : Prop :=
  PID t = match lastAttr attrPID tattrs with
          | Some a => fst (ParseUint (Value a) 24)
          | None => pid
          end /\
  P1 t = match lastAttr attrP1 tattrs with
         | Some a => fst (ParseUint (Value a) 24)
         | None => pindex
         end.

End Objects.

(** ** decoder.go: base materials *)

Module Materials.
Import Strconv Specerr.

Definition attrDisplayColor : string := "displaycolor".

Section Materials.
(** [color.RGBA] and [encoding.ParseRGBA], declared outside the decoder
    file: the colour it returns and whether it returned an error. *)
Context {Color : Type}.
Variable ParseRGBA : string -> Color * bool.
Variable zeroColor : Color.

Record Base := MkBase { base_Name : string; base_Color : Color }.
Record BaseMaterials := MkBaseMaterials { bm_ID : Z; bm_Materials : list Base }.

(** The attribute loop of [baseMaterialsDecoder.Start], which ends at the
    first id attribute of the empty namespace. *)
Fixpoint idLoop (attrs : list Attr) (r : BaseMaterials) : BaseMaterials * list AttrError :=
  match attrs with
  | [] => (r, [])
  | a :: rest =>
      if String.eqb (Space (Name a)) "" && String.eqb (Local (Name a)) Objects.attrID then
        let '(id, err) := ParseUint (Value a) 32 in
        (MkBaseMaterials (uint32 id) (bm_Materials r),
         Core.addErr err (Local (Name a)) true [])
      else idLoop rest r
  end.

(** [baseMaterialsDecoder.Start]; [nAssets] is [len(d.resources.Assets)]. *)
Definition baseMaterialsDecoder_Start (r : BaseMaterials) (attrs : list Attr) (nAssets : nat)
  : BaseMaterials * option (Wrapped BaseMaterials) :=
  let '(r', errs) := idLoop attrs r in
  (r', WrapIndex errs r' nAssets).

(** The local variables of [baseMaterialDecoder.Start]. *)
Record baseLocals := MkBaseLocals {
  bl_name : string;
  bl_color : Color;
  bl_errs : list AttrError
}.

Definition baseAttr (l : baseLocals) (a : Attr) : baseLocals :=
  let n := Local (Name a) in
  if String.eqb n Objects.attrName then MkBaseLocals (Value a) (bl_color l) (bl_errs l)
  else if String.eqb n attrDisplayColor then
    let '(c, failed) := ParseRGBA (Value a) in
    MkBaseLocals (bl_name l) c
      (if failed then Append (bl_errs l) (ParseAttrError n true) else bl_errs l)
  else l.

(** [baseMaterialDecoder.Start]: it appends to the materials of the
    resource of its parent, which it holds a pointer to. *)
Definition baseMaterialDecoder_Start (r : BaseMaterials) (attrs : list Attr)
  : BaseMaterials * option (Wrapped Color) :=
  let l := fold_left baseAttr attrs (MkBaseLocals "" zeroColor []) in
  let materials := bm_Materials r ++ [MkBase (bl_name l) (bl_color l)] in
  (MkBaseMaterials (bm_ID r) materials,
   WrapIndex (bl_errs l) (bl_color l) (length materials - 1)%nat).

(** [baseMaterialsDecoder.End] *)
Definition baseMaterialsDecoder_End (assets : list BaseMaterials) (r : BaseMaterials)
  : list BaseMaterials :=
  assets ++ [r].

(** A basematerials element with its base elements, from start to end:
    the assets afterwards and the error of the start. *)
Definition decodeBaseMaterials (assets : list BaseMaterials) (attrs : list Attr)
    (bases : list (list Attr)) : list BaseMaterials * option (Wrapped BaseMaterials) :=
  let '(r, err) :=
    baseMaterialsDecoder_Start (MkBaseMaterials 0 []) attrs (length assets) in
  let r' := fold_left (fun r battrs => fst (baseMaterialDecoder_Start r battrs)) bases r in
  (baseMaterialsDecoder_End assets r', err).

End Materials.

(** The first id attribute of the empty namespace. *)
Definition firstID (attrs : list Attr) : option Attr :=
  head (filter (fun a => Space (Name a) = "" /\ Local (Name a) = Objects.attrID) attrs).

End Materials.

(** ** decoder.go: metadata *)

Module Metadata.
Import Strconv.

Definition attrPreserve : string := "preserve".

(** [bytes.IndexByte]: the index of the first byte equal to [c]. *)
Fixpoint IndexByte (s : string) (c : ascii) : option nat :=
  match s with
  | EmptyString => None
  | String x rest => if Ascii.eqb x c then Some O else S <$> IndexByte rest c
  end.

(** [strconv.ParseBool] *)
Definition ParseBool (s : string) : bool * option NumError :=
  if existsb (String.eqb s) ["1"; "t"; "T"; "TRUE"; "true"; "True"] then (true, None)
  else if existsb (String.eqb s) ["0"; "f"; "F"; "FALSE"; "false"; "False"]
  then (false, None)
  else (false, Some ErrSyntax).

Record Metadata := MkMetadata {
  md_Name : xmlName;
  md_Type : string;
  md_Preserve : bool;
  md_Value : string
}.

Section Metadata.
(** [decoderContext.namespace], declared outside the decoder file: the
    namespace bound to a prefix, if any. *)
Variable namespace : string -> option string.

(** The name a metadata gets from the value of its name attribute. *)
Definition metadataName (a : Attr) : xmlName :=
  match IndexByte (Value a) ":" with
  | None => XmlName (Space (Name a)) (Value a)
  | Some i =>
      match namespace (substring 0 i (Value a)) with
      | Some _ =>
          XmlName (substring 0 i (Value a))
            (substring (S i) (String.length (Value a) - S i) (Value a))
      | None => XmlName (Space (Name a)) (Value a)
      end
  end.

(** One iteration of the attribute loop of [metadataDecoder.Start]. *)
Definition metadataAttr (m : Metadata) (a : Attr) : Metadata :=
  if negb (String.eqb (Space (Name a)) "") then m
  else
    let n := Local (Name a) in
    if String.eqb n Objects.attrName then
      MkMetadata (metadataName a) (md_Type m) (md_Preserve m) (md_Value m)
    else if String.eqb n Objects.attrType then
      MkMetadata (md_Name m) (Value a) (md_Preserve m) (md_Value m)
    else if String.eqb n attrPreserve then
      MkMetadata (md_Name m) (md_Type m) (fst (ParseBool (Value a))) (md_Value m)
    else m.

Definition metadataDecoder_Start (m : Metadata) (attrs : list Attr) : Metadata :=
  fold_left metadataAttr attrs m.

Definition metadataDecoder_CharData (m : Metadata) (txt : string) : Metadata :=
  MkMetadata (md_Name m) (md_Type m) (md_Preserve m) txt.

Definition metadataDecoder_End (metadatas : list Metadata) (m : Metadata) : list Metadata :=
  metadatas ++ [m].

End Metadata.

(** A name as it is written in a document: the local name, after the
    prefix and a colon when there is a prefix. *)
Definition qualified (n : xmlName) : string :=
  match Space n with
  | EmptyString => Local n
  | p => p ++ ":" ++ Local n
  end.

(** The last attribute of the empty namespace with the local name [n]. *)
Definition lastCore (n : string) (attrs : list Attr) : option Attr :=
  Core.lastAttr n (filter (fun a => Space (Name a) = "") attrs).

End Metadata.
(** * Properties *)

(** ** strconv *)

Section StrconvFacts.
Import Strconv.

Lemma parseUintLoop_bound maxVal cutoff s : forall n,
  0 <= n <= maxVal ->
  0 <= fst (parseUintLoop maxVal cutoff n s) <= maxVal.
Proof.
  induction s as [|c rest IH]; intros n Hn; simpl; [lia|].
  destruct (digit10 c) as [d|]; simpl; [|lia].
  destruct (cutoff <=? n); simpl; [lia|].
  destruct ((_ <? _) || (_ <? _)) eqn:E; simpl; [lia|].
  apply IH. apply orb_false_iff in E as [E1 E2].
  apply Z.ltb_ge in E1, E2. split; [|lia].
  pose proof (Z.mod_pos_bound (n * 10) (2 ^ 64) ltac:(lia)). lia.
Qed.

Lemma ParseUint_bound s bitSize :
  0 <= bitSize -> 0 <= fst (ParseUint s bitSize) < 2 ^ bitSize.
Proof.
  intros Hb. assert (0 < 2 ^ bitSize) by (apply Z.pow_pos_nonneg; lia).
  unfold ParseUint. destruct s as [|c rest]; [simpl; lia|].
  assert (0 <= 0 <= 2 ^ bitSize - 1) as H0 by lia.
  pose proof (parseUintLoop_bound (2 ^ bitSize - 1) (maxUint64 / 10 + 1)
                (String c rest) 0 H0). lia.
Qed.

Lemma ParseUint24_uint32 s : uint32 (fst (ParseUint s 24)) = fst (ParseUint s 24).
Proof.
  pose proof (ParseUint_bound s 24 ltac:(lia)).
  unfold uint32. apply Z.mod_small. lia.
Qed.

Lemma ParseUint24_ToUint24 s :
  Core.ToUint24 (uint32 (fst (ParseUint s 24))) = fst (ParseUint s 24).
Proof.
  rewrite ParseUint24_uint32.
  pose proof (ParseUint_bound s 24 ltac:(lia)).
  unfold Core.ToUint24. apply Z.mod_small. lia.
Qed.

End StrconvFacts.

(** ** The attribute loops *)

Ltac elem :=
  solve [repeat (rewrite ?elem_of_app, ?elem_of_cons, ?list_elem_of_singleton); auto].

Section AttrLoops.
Import Strconv Specerr Core.

Lemma lastAttr_snoc n attrs a :
  lastAttr n (attrs ++ [a]) =
  if decide (Local (Name a) = n) then Some a else lastAttr n attrs.
Proof.
  unfold lastAttr. rewrite filter_app, filter_cons, filter_nil.
  destruct (decide (Local (Name a) = n)).
  - apply last_snoc.
  - by rewrite app_nil_r.
Qed.

Lemma lastAttr_None n attrs :
  lastAttr n attrs = None <-> forall a, a ∈ attrs -> Local (Name a) <> n.
Proof.
  induction attrs as [|a attrs IH] using rev_ind.
  - split; [|done]. intros _ a Ha. by apply elem_of_nil in Ha.
  - rewrite lastAttr_snoc. destruct (decide (Local (Name a) = n)) as [Hn|Hn].
    + split; [done|]. intros Hall. exfalso. apply (Hall a); [elem|done].
    + rewrite IH. split.
      * intros Hall b Hb. apply elem_of_app in Hb as [Hb|Hb]; [by apply Hall|].
        apply list_elem_of_singleton in Hb. by subst.
      * intros Hall b Hb. apply Hall. elem.
Qed.

Lemma lastAttr_Some n attrs a :
  lastAttr n attrs = Some a -> a ∈ attrs /\ Local (Name a) = n.
Proof.
  unfold lastAttr. intros Hl. apply last_Some in Hl as [l' Hl].
  assert (a ∈ filter (fun a => Local (Name a) = n) attrs) as Hin
    by (rewrite Hl; elem).
  by apply list_elem_of_filter in Hin as [? ?].
Qed.


Lemma failing_snoc {V} (parse : string -> V * option NumError) attrs a :
  failing parse (attrs ++ [a]) =
  failing parse attrs ++ (match snd (parse (Value a)) with Some _ => [a] | None => [] end).
Proof.
  unfold failing. rewrite filter_app, filter_cons, filter_nil.
  destruct (snd (parse (Value a))) eqn:E.
  - rewrite decide_True; [done|]. by eexists.
  - rewrite decide_False; [done|]. by intros [? ?].
Qed.

Lemma parseErrors_snoc {V} (parse : string -> V * option NumError) required attrs a :
  parseErrors parse required (attrs ++ [a]) =
  addErr (snd (parse (Value a))) (Local (Name a)) (required a)
    (parseErrors parse required attrs).
Proof.
  unfold parseErrors. rewrite failing_snoc, map_app.
  destruct (snd (parse (Value a))); simpl; [done|]. by rewrite app_nil_r.
Qed.

Ltac name_cases :=
  repeat match goal with
  | |- context [String.eqb ?a ?b] => destruct (String.eqb_spec a b)
  | |- context [decide (?a = ?b)] => destruct (decide (a = b))
  end; subst; try discriminate; try congruence.

Ltac attr_case Ep :=
  subst; simpl; repeat split; try done; name_cases; simpl; rewrite ?Ep; simpl;
  try done; try congruence.

Lemma triangle_loop attrs :
  let l := fold_left triangleAttr attrs triLocals0 in
  V1 (l_t l) = vertexSlot attrV1 attrs /\
  V2 (l_t l) = vertexSlot attrV2 attrs /\
  V3 (l_t l) = vertexSlot attrV3 attrs /\
  propSlot attrPID attrs (l_pid l) (l_hasPID l) /\
  propSlot attrP1 attrs (l_p1 l) (l_hasP1 l) /\
  propSlot attrP2 attrs (l_p2 l) (l_hasP2 l) /\
  propSlot attrP3 attrs (l_p3 l) (l_hasP3 l) /\
  l_errs l = parseErrors (fun s => ParseUint s 24) triangleRequired attrs.
Proof.
  induction attrs as [|a attrs IH] using rev_ind.
  - simpl. unfold vertexSlot, propSlot, lastAttr. simpl. tauto.
  - rewrite fold_left_app. simpl. set (l := fold_left triangleAttr attrs triLocals0) in *.
    simpl in IH. destruct IH as (H1 & H2 & H3 & H4 & H5 & H6 & H7 & H8).
    unfold vertexSlot, propSlot in *. rewrite !lastAttr_snoc, parseErrors_snoc.
    unfold triangleAttr, triangleRequired.
    destruct a as [[sp n] v]. simpl.
    pose proof (ParseUint24_uint32 v) as Hu.
    pose proof (ParseUint24_ToUint24 v) as Ht.
    destruct (ParseUint v 24) as [val err] eqn:Ep. simpl in Hu, Ht.
    destruct l as [t pid p1 p2 p3 hPID hP1 hP2 hP3 errs]. simpl in *.
    unfold attrV1, attrV2, attrV3, attrPID, attrP1, attrP2, attrP3 in *.
    destruct (String.eqb_spec n "v1"); [attr_case Ep|].
    destruct (String.eqb_spec n "v2"); [attr_case Ep|].
    destruct (String.eqb_spec n "v3"); [attr_case Ep|].
    destruct (String.eqb_spec n "pid"); [attr_case Ep|].
    destruct (String.eqb_spec n "p1"); [attr_case Ep|].
    destruct (String.eqb_spec n "p2"); [attr_case Ep|].
    destruct (String.eqb_spec n "p3"); [attr_case Ep|].
    attr_case Ep.
Qed.

Lemma vertex_loop parse attrs :
  let l := fold_left (vertexAttr parse) attrs vertexLocals0 in
  vl_x l = coord parse attrX attrs /\
  vl_y l = coord parse attrY attrs /\
  vl_z l = coord parse attrZ attrs /\
  vl_errs l = parseErrors parse (fun _ => true) attrs.
Proof.
  induction attrs as [|a attrs IH] using rev_ind.
  - simpl. unfold coord, lastAttr. simpl. tauto.
  - rewrite fold_left_app. simpl.
    set (l := fold_left (vertexAttr parse) attrs vertexLocals0) in *.
    simpl in IH. destruct IH as (H1 & H2 & H3 & H4).
    unfold coord in *. rewrite !lastAttr_snoc, parseErrors_snoc.
    unfold vertexAttr. destruct a as [[sp n] v]. simpl.
    destruct (parse v) as [val err] eqn:Ep.
    destruct l as [x y z errs]. simpl in *.
    unfold attrX, attrY, attrZ in *.
    destruct (String.eqb_spec n "x"); [attr_case Ep|].
    destruct (String.eqb_spec n "y"); [attr_case Ep|].
    destruct (String.eqb_spec n "z"); [attr_case Ep|].
    attr_case Ep.
Qed.

Lemma parseErrors_kind {V} (parse : string -> V * option NumError) required attrs e :
  e ∈ parseErrors parse required attrs ->
  exists a, a ∈ attrs /\ is_Some (snd (parse (Value a))) /\
            e = ParseAttrError (Local (Name a)) (required a).
Proof.
  unfold parseErrors, failing. intros He.
  apply list_elem_of_fmap in He as (a & -> & Ha).
  apply list_elem_of_filter in Ha as [Hs Ha]. eauto.
Qed.

Lemma parseErrors_nil {V} (parse : string -> V * option NumError) required attrs :
  parseErrors parse required attrs = [] <->
  forall a, a ∈ attrs -> snd (parse (Value a)) = None.
Proof.
  unfold parseErrors, failing. split.
  - intros Hnil a Ha. apply fmap_nil_inv in Hnil.
    destruct (snd (parse (Value a))) eqn:E; [|done].
    exfalso. eapply filter_nil_not_elem_of; [apply Hnil| |apply Ha].
    simpl. rewrite E. by eexists.
  - intros Hall. induction attrs as [|a attrs IH]; [done|].
    rewrite filter_cons. rewrite decide_False.
    + apply IH. intros b Hb. apply Hall. elem.
    + rewrite (Hall a) by elem. by intros [? ?].
Qed.

End AttrLoops.

(** ** Triangles *)

Section TriangleFacts.
Import Strconv Specerr Core.

(** C2. For every triangle element and every owning object's defaults,
    [triangleDecoder.Start] appends one triangle whose property reference
    is resolved as follows. When the element has no attribute named p1
    ([lastAttr] is [None] exactly then, see [lastAttr_None]) the decoded p1
    is the object's default property index; when p2 or p3 is absent it is
    the resolved p1, not the object default; when pid is absent it is the
    object's default property-group id. An attribute that is present keeps
    the value [strconv.ParseUint] returned for it. *)
Theorem triangle_property_defaults (d : triangleDecoder) (attrs : list Attr) :
  exists t : Triangle,
    Triangles (td_mesh (fst (triangleDecoder_Start d attrs)))
      = Triangles (td_mesh d) ++ [t] /\
    P1 t = match lastAttr attrP1 attrs with
           | Some a => fst (ParseUint (Value a) 24)
           | None => defaultPropertyIndex d
           end /\
    P2 t = match lastAttr attrP2 attrs with
           | Some a => fst (ParseUint (Value a) 24)
           | None => P1 t
           end /\
    P3 t = match lastAttr attrP3 attrs with
           | Some a => fst (ParseUint (Value a) 24)
           | None => P1 t
           end /\
    PID t = match lastAttr attrPID attrs with
            | Some a => fst (ParseUint (Value a) 24)
            | None => defaultPropertyID d
            end.
Proof.
  destruct (triangle_loop attrs) as (_ & _ & _ & Hpid & Hp1 & Hp2 & Hp3 & _).
  unfold triangleDecoder_Start. simpl.
  set (l := fold_left triangleAttr attrs triLocals0) in *.
  eexists. split; [reflexivity|]. simpl. unfold propSlot in *.
  repeat split.
  - destruct (lastAttr attrP1 attrs); destruct Hp1 as [-> ->]; done.
  - destruct (lastAttr attrP2 attrs); destruct Hp2 as [-> ->]; done.
  - destruct (lastAttr attrP3 attrs); destruct Hp3 as [-> ->]; done.
  - destruct (lastAttr attrPID attrs); destruct Hpid as [-> ->]; done.
Qed.

(** The two examples of the specification: with the object defaults
    pid=5, pindex=2, a triangle with only v1, v2, v3 gets pid=5 and
    p1=p2=p3=2, and one that also has p1=9 gets p1=p2=p3=9. *)
Example triangle_defaults_from_object :
  let d := MkTriangleDecoder (MkMesh [] []) 2 5 in
  let v n s := MkAttr (XmlName "" n) s in
  Triangles (td_mesh (fst (triangleDecoder_Start d [v "v1" "0"; v "v2" "1"; v "v3" "2"])))
    = [MkTriangle 0 1 2 5 2 2 2] /\
  Triangles (td_mesh (fst (triangleDecoder_Start d
                             [v "v1" "0"; v "v2" "1"; v "v3" "2"; v "p1" "9"])))
    = [MkTriangle 0 1 2 5 9 9 9].
Proof. split; reflexivity. Qed.

(** C10. For every triangle element, [triangleDecoder.Start] appends
    exactly one triangle; a vertex index whose attribute v1, v2 or v3 is
    absent is zero; the returned error holds one parse-attribute error per
    attribute that is present and does not parse, wrapped with the index
    of the triangle, and never a missing-mandatory-attribute error: an
    element whose present attributes all parse returns no error, whatever
    attributes it lacks. *)
Theorem triangle_missing_vertex_is_zero (d : triangleDecoder) (attrs : list Attr) :
  let r := triangleDecoder_Start d attrs in
  let errs := parseErrors (fun s => ParseUint s 24) triangleRequired attrs in
  exists t : Triangle,
    Triangles (td_mesh (fst r)) = Triangles (td_mesh d) ++ [t] /\
    Vertices (td_mesh (fst r)) = Vertices (td_mesh d) /\
    V1 t = match lastAttr attrV1 attrs with
           | Some a => fst (ParseUint (Value a) 24) | None => 0 end /\
    V2 t = match lastAttr attrV2 attrs with
           | Some a => fst (ParseUint (Value a) 24) | None => 0 end /\
    V3 t = match lastAttr attrV3 attrs with
           | Some a => fst (ParseUint (Value a) 24) | None => 0 end /\
    snd r = WrapIndex errs t (length (Triangles (td_mesh d))) /\
    (forall name, MissingFieldError name ∉ errs) /\
    (forall e, e ∈ errs ->
       exists a, a ∈ attrs /\ is_Some (snd (ParseUint (Value a) 24)) /\
                 e = ParseAttrError (Local (Name a)) (triangleRequired a)) /\
    ((forall a, a ∈ attrs -> snd (ParseUint (Value a) 24) = None) -> snd r = None).
Proof.
  intros r errs.
  destruct (triangle_loop attrs) as (H1 & H2 & H3 & _ & _ & _ & _ & He).
  subst r. unfold triangleDecoder_Start. simpl.
  set (l := fold_left triangleAttr attrs triLocals0) in *.
  eexists. split; [reflexivity|]. simpl.
  rewrite length_app. simpl. replace (_ + 1 - 1)%nat with (length (Triangles (td_mesh d))) by lia.
  unfold vertexSlot in *. rewrite He. fold errs.
  repeat split; try done.
  - intros name Hin. apply parseErrors_kind in Hin as (a & _ & _ & Ha). discriminate.
  - apply parseErrors_kind.
  - intros Hall. apply (parseErrors_nil (fun s => ParseUint s 24) triangleRequired) in Hall.
    subst errs. rewrite Hall. reflexivity.
Qed.

(** The theorem of C10 on a triangle with only v2. *)
Lemma triangle_missing_vertex_witness :
  let d := MkTriangleDecoder (MkMesh [] []) 2 5 in
  let attrs := [MkAttr (XmlName "" "v2") "7"] in
  Triangles (td_mesh (fst (triangleDecoder_Start d attrs))) = [MkTriangle 0 7 0 5 2 2 2] /\
  snd (triangleDecoder_Start d attrs) = None.
Proof.
  intros d attrs.
  destruct (triangle_missing_vertex_is_zero d attrs) as (t & Ht & _ & _ & _ & _ & _ & _ & _ & Hnone).
  split; [reflexivity|]. apply Hnone.
  intros a Ha. apply list_elem_of_singleton in Ha. subst a. reflexivity.
Defined.

End TriangleFacts.

(** ** Vertices *)

Section VertexFacts.
Import Strconv Specerr Core.

(** What [ParseFloat32] returns with an error: zero for a malformed
    number, an infinity for a number out of the float32 range. *)
Lemma ParseFloat32_error s :
  match snd (ParseFloat32 s) with
  | Some ErrSyntax => fst (ParseFloat32 s) = 0
  | Some ErrRange =>
      fst (ParseFloat32 s) = f32Inf \/ fst (ParseFloat32 s) = 2 ^ 31 + f32Inf
  | None => True
  end.
Proof.
  unfold ParseFloat32. destruct (special s); [done|].
  destruct (readFloat s) as [[[neg m] e10]|]; [|done].
  unfold round32. destruct (m =? 0); [done|].
  destruct (scaleDiv _ _ (_ - 1)) as [m2 r].
  match goal with |- context [if ?c then (2 ^ 23, _) else _] => destruct c end;
    match goal with |- context [if ?c <? 2 ^ 23 then _ else _] => destruct (c <? 2 ^ 23) end;
    try done;
    match goal with |- context [if 255 <=? ?b then _ else _] => destruct (255 <=? b) end;
    try done; simpl; unfold f32SignBit; destruct neg; auto.
Qed.

(** C6, as the code has it. For every vertex element and whatever the
    float parser returns, [vertexDecoder.Start] appends exactly one vertex
    and leaves the triangles alone. Each coordinate is the value the parser
    returned for the last attribute with that name, also when the parse
    failed, and zero when the element has no such attribute. When some
    attribute does not parse, the returned error holds one mandatory
    parse-attribute error per failing attribute, wrapped with the index
    the vertex was appended at. With [ParseFloat32] the value that comes
    with an error is zero for a malformed number and an infinity for a
    number out of range. *)
Theorem vertex_start_appends_one (parse : string -> Z * option NumError)
    (d : vertexDecoder) (attrs : list Attr) :
  let r := vertexDecoder_Start parse d attrs in
  let p := MkPoint3D (coord parse attrX attrs) (coord parse attrY attrs)
             (coord parse attrZ attrs) in
  Vertices (vd_mesh (fst r)) = Vertices (vd_mesh d) ++ [p] /\
  Triangles (vd_mesh (fst r)) = Triangles (vd_mesh d) /\
  snd r = WrapIndex (parseErrors parse (fun _ => true) attrs) p
            (length (Vertices (vd_mesh d))) /\
  (forall s, match snd (ParseFloat32 s) with
             | Some ErrSyntax => fst (ParseFloat32 s) = 0
             | Some ErrRange =>
                 fst (ParseFloat32 s) = f32Inf \/ fst (ParseFloat32 s) = 2 ^ 31 + f32Inf
             | None => True
             end).
Proof.
  intros r p. destruct (vertex_loop parse attrs) as (Hx & Hy & Hz & He).
  subst r p. unfold vertexDecoder_Start. simpl.
  set (l := fold_left (vertexAttr parse) attrs vertexLocals0) in *.
  rewrite Hx, Hy, Hz, He, length_app. simpl.
  replace (_ + 1 - 1)%nat with (length (Vertices (vd_mesh d))) by lia.
  repeat split. apply ParseFloat32_error.
Qed.

(** C6 as stated fails: the x attribute 1e39 is out of the float32 range,
    the parse fails with a range error, and the vertex that is appended has
    the positive infinity, not zero, as its x coordinate. *)
Lemma vertex_failed_coordinate_not_zero :
  let v n s := MkAttr (XmlName "" n) s in
  let attrs := [v "x" "1e39"; v "y" "2"; v "z" "3"] in
  let r := vertexDecoder_Start ParseFloat32 (MkVertexDecoder (MkMesh [] [])) attrs in
  snd (ParseFloat32 "1e39") = Some ErrRange /\
  Vertices (vd_mesh (fst r)) = [MkPoint3D f32Inf 0x40000000 0x40400000] /\
  snd r = Some (MkWrapped (MkPoint3D f32Inf 0x40000000 0x40400000) 0
                  [ParseAttrError "x" true]) /\
  f32Inf <> 0.
Proof. repeat split; try reflexivity. discriminate. Qed.

(** A malformed coordinate is zero and the other coordinates are kept. *)
Example vertex_malformed_coordinate :
  let v n s := MkAttr (XmlName "" n) s in
  let d := MkVertexDecoder (MkMesh [MkPoint3D 0 0 0] []) in
  vertexDecoder_Start ParseFloat32 d [v "x" "1"; v "y" "abc"; v "z" "0.5"]
  = (MkVertexDecoder (MkMesh [MkPoint3D 0 0 0; MkPoint3D 0x3F800000 0 0x3F000000] []),
     Some (MkWrapped (MkPoint3D 0x3F800000 0 0x3F000000) 1 [ParseAttrError "y" true])).
Proof. reflexivity. Qed.

End VertexFacts.

(** ** Extension bags *)

Section ExtensionsFacts.
Import Extensions.
Context {Typ V : Type} `{Reflect Typ}.

(** C9. For every target, nil included, [ExtensionsAttr.Get] and
    [Extensions.Get] on a nil or empty bag return false and store nothing,
    without panicking; whenever either call panics the bag has at least
    one entry. *)
Theorem get_on_empty_bag_returns_false (t : target) (e : @bag Typ V) :
  ExtensionsAttr_Get (V:=V) None t = Return false None /\
  ExtensionsAttr_Get (V:=V) (Some []) t = Return false None /\
  Extensions_Get (V:=V) None t = Return false None /\
  Extensions_Get (V:=V) (Some []) t = Return false None /\
  match ExtensionsAttr_Get e t with
  | Panic _ => (0 < bagLen e)%nat
  | Return _ _ => True
  end /\
  match Extensions_Get e t with
  | Panic _ => (0 < bagLen e)%nat
  | Return _ _ => True
  end.
Proof.
  repeat split; unfold ExtensionsAttr_Get, Extensions_Get, get;
    destruct e as [[|v l]|]; simpl; try done;
    repeat case_match; simpl; try done; lia.
Qed.

End ExtensionsFacts.

(** ** The relationship walk *)

Section OPCFacts.
Import Reader.
Context {F : Type} `{PackageFile F} `{CaseFold}.

Lemma fold_left_preserves {A B} (P : A -> Prop) (f : A -> B -> A) l a :
  P a -> (forall a x, P a -> P (f a x)) -> P (fold_left f l a).
Proof. revert a. induction l as [|x l IH]; simpl; auto. Qed.

Lemma existsb_hasPath l name :
  existsb (fun att => EqualFold (att_Path att) name) l = true <-> hasPath l name.
Proof.
  rewrite existsb_exists. unfold hasPath. split; intros (a & Ha & He); exists a.
  - split; [by apply list_elem_of_In|done].
  - split; [by apply list_elem_of_In|done].
Qed.

Lemma addAttachment_same (attachments : list Attachment) (file : F) :
  hasPath attachments (pf_Name file) -> addAttachment attachments file = attachments.
Proof.
  intros Hp. apply existsb_hasPath in Hp. unfold addAttachment. by rewrite Hp.
Qed.

Lemma addAttachment_distinct (attachments : list Attachment) (file : F) :
  foldDistinct attachments -> foldDistinct (addAttachment attachments file).
Proof.
  intros Hd. unfold addAttachment.
  destruct (existsb _ attachments) eqn:Ex; [done|].
  destruct (copyFile file) as [err|buff]; [done|].
  intros i j a b Hij Ha Hb.
  destruct (decide (j < length attachments)%nat) as [Hj|Hj].
  - rewrite lookup_app_l in Ha by lia. rewrite lookup_app_l in Hb by lia. eauto.
  - rewrite lookup_app_r in Hb by lia.
    destruct (j - length attachments)%nat eqn:Ej; [|by destruct n].
    simpl in Hb. injection Hb as <-. simpl.
    rewrite lookup_app_l in Ha by lia.
    destruct (EqualFold (att_Path a) (pf_Name file)) eqn:Ef; [|done].
    assert (existsb (fun att => EqualFold (att_Path att) (pf_Name file)) attachments = true)
      as Hex; [|congruence].
    apply existsb_hasPath. exists a. split; [|done]. by eapply list_elem_of_lookup_2.
Qed.

Lemma sameContent_refl (st : Decoder F * Model) : sameContent st st.
Proof. by repeat split. Qed.

Lemma sameContent_trans (st1 st2 st3 : Decoder F * Model) :
  sameContent st1 st2 -> sameContent st2 st3 -> sameContent st1 st3.
Proof.
  unfold sameContent. intros (?&?&?&?&?&?&?) (?&?&?&?&?&?&?).
  repeat split; congruence.
Qed.

Lemma walkInv_refl (st : Decoder F * Model) : walkInv st st.
Proof. split; [apply sameContent_refl|done]. Qed.

Lemma walkInv_trans (st1 st2 st3 : Decoder F * Model) : walkInv st1 st2 -> walkInv st2 st3 -> walkInv st1 st3.
Proof.
  intros [? ?] [? ?]. split; [by eapply sameContent_trans|auto].
Qed.

Lemma extractRel_inv modelFile isRoot st rel :
  walkInv st (extractRel modelFile isRoot st rel).
Proof.
  destruct st as [d model]. unfold extractRel.
  repeat case_match; try apply walkInv_refl;
    (split; [by repeat split|]); simpl; try done;
    intros Hd; by apply addAttachment_distinct.
Qed.

Lemma extractCoreAttachments_inv modelFile isRoot st :
  walkInv st (extractCoreAttachments modelFile isRoot st).
Proof.
  unfold extractCoreAttachments.
  apply (fold_left_preserves (walkInv st)); [apply walkInv_refl|].
  intros st' rel Hst. eapply walkInv_trans; [apply Hst|apply extractRel_inv].
Qed.

Lemma processRelationships_inv rels : forall rootFile d model,
  let r := processRelationships rels rootFile d model in
  walkInv (d, model) (snd (fst r), snd r).
Proof.
  induction rels as [|r rest IH]; intros rootFile d model; simpl.
  - apply walkInv_refl.
  - destruct (decide (r_Type r = RelType3DModel)).
    + destruct (p_FindFileFromName (d_p d) (r_Path r)) as [root|]; [|apply walkInv_refl].
      set (st1 := extractCoreAttachments root true (d, setPath (pf_Name root) model)).
      destruct (fold_left _ (d_nonRootModels (fst st1)) st1) as [d' model'] eqn:Ef.
      eapply walkInv_trans; [|apply IH].
      assert (walkInv (d, model) st1) as H1.
      { eapply walkInv_trans; [|apply extractCoreAttachments_inv].
        split; [by repeat split|done]. }
      eapply walkInv_trans; [apply H1|]. rewrite <- Ef.
      apply (fold_left_preserves (walkInv st1)); [apply walkInv_refl|].
      intros st' file Hst. eapply walkInv_trans; [apply Hst|apply extractCoreAttachments_inv].
    + destruct (p_FindFileFromName (d_p d) (r_Path r)) as [att|]; [|apply IH].
      eapply walkInv_trans; [|apply IH].
      split; [by repeat split|]. simpl. apply addAttachment_distinct.
Qed.

Lemma processOPC_inv d model :
  let r := processOPC d model in
  walkInv (d, model) (snd (fst r), snd r).
Proof.
  unfold processOPC. destruct (p_Open (d_p d)); [apply walkInv_refl|].
  pose proof (processRelationships_inv (p_Relationships (d_p d)) None d model) as Hr.
  simpl in Hr.
  destruct (processRelationships _ None d model) as [[[err|[root|]] d'] model']; apply Hr.
Qed.

Lemma processRelationships_no_model rels : forall rootFile d model,
  modelRels rels = [] ->
  fst (fst (processRelationships rels rootFile d model)) = inr rootFile.
Proof.
  induction rels as [|r rest IH]; intros rootFile d model Hn; simpl; [done|].
  unfold modelRels in Hn. rewrite filter_cons in Hn.
  destruct (decide (r_Type r = RelType3DModel)); [done|].
  destruct (p_FindFileFromName (d_p d) (r_Path r)); by apply IH.
Qed.

Lemma processRelationships_dangling rels : forall p rootFile d model,
  d_p d = p ->
  (exists r, r ∈ modelRels rels /\ p_FindFileFromName p (r_Path r) = None) ->
  fst (fst (processRelationships rels rootFile d model))
  = inl (errorString "package root model points to an unexisting file").
Proof.
  induction rels as [|r rest IH]; intros p rootFile d model Hp (r0 & Hin & Hnone); simpl.
  - by apply elem_of_nil in Hin.
  - unfold modelRels in Hin. rewrite filter_cons in Hin.
    destruct (decide (r_Type r = RelType3DModel)) as [Ht|Ht].
    + rewrite Hp. destruct (p_FindFileFromName p (r_Path r)) as [root|] eqn:Ef; [|done].
      apply elem_of_cons in Hin as [->|Hin]; [congruence|].
      set (st1 := extractCoreAttachments root true (d, setPath (pf_Name root) model)).
      destruct (fold_left _ (d_nonRootModels (fst st1)) st1) as [d' model'] eqn:Efold.
      apply (IH p); [|by exists r0].
      pose proof (processRelationships_inv [r] rootFile d model) as Hinv.
      simpl in Hinv. rewrite decide_True in Hinv by done. rewrite Hp, Ef in Hinv.
      fold st1 in Hinv. rewrite Efold in Hinv. simpl in Hinv.
      destruct Hinv as [(_&_&_&_&_&Hdp&_) _]. simpl in Hdp. congruence.
    + rewrite Hp. destruct (p_FindFileFromName p (r_Path r)); (apply (IH p); [done|by exists r0]).
Qed.

End OPCFacts.

(** ** The token loop *)

Section EngineFacts.
Import Reader.
Context {D : Type} `{NodeDecoder D}.

Lemma skipLoop_length toks : forall depth rest o,
  skipLoop depth toks = Some (rest, o) -> (length rest < length toks)%nat.
Proof.
  induction toks as [|[t o'] toks IH]; intros depth rest o Hs; simpl in *; [done|].
  destruct t; try (apply IH in Hs; lia).
  destruct depth; [|apply IH in Hs; lia]. injection Hs as <- <-. lia.
Qed.

Lemma skipLoop_wellNested sub : forall k depth rest,
  wellNested depth sub = true ->
  skipLoop (k + depth) (sub ++ rest) = skipLoop k rest.
Proof.
  induction sub as [|[t o] sub IH]; intros k depth rest Hw; simpl in *.
  - apply Nat.eqb_eq in Hw. subst. by rewrite Nat.add_0_r.
  - destruct t; try by apply IH.
    + rewrite <- Nat.add_succ_r. by apply IH.
    + destruct depth as [|depth]; [done|]. rewrite Nat.add_succ_r. by apply IH.
Qed.

Lemma checkErr_Continue (st st' : @loopState D) :
  checkErr st = Continue st' -> st' = st /\ Err (ls_scanner st) = None.
Proof. unfold checkErr. destruct (Err (ls_scanner st)) eqn:E; [done|]. by intros [= <-]. Qed.

Lemma checkErr_Break (st st' : @loopState D) :
  checkErr st = Break st' -> st' = st /\ Err (ls_scanner st) <> None.
Proof. unfold checkErr. destruct (Err (ls_scanner st)) eqn:E; [|done]. by intros [= <-]. Qed.

Lemma checkErr_not_panic (st : @loopState D) : checkErr st <> IterPanic.
Proof. unfold checkErr. by destruct (Err (ls_scanner st)). Qed.

Ltac iteration_cases Hit :=
  unfold iteration, XMLDecoder_Token, XMLDecoder_Skip, checkCancel in Hit;
  repeat (case_match; simplify_eq; simpl in *); try done.

(** An iteration after which the loop goes on has read at least one
    token, has left the final error of the stream alone and has found no
    error. *)
Lemma iteration_Continue (st st' : @loopState D) :
  iteration st = Continue st' ->
  (length (pending (ls_x st')) < length (pending (ls_x st)))%nat /\
  final (ls_x st') = final (ls_x st) /\
  Err (ls_scanner st') = None.
Proof.
  intros Hit. iteration_cases Hit;
    apply checkErr_Continue in Hit as [-> He]; simpl in *;
    repeat match goal with
    | Hs : skipLoop _ _ = Some _ |- _ => apply skipLoop_length in Hs
    end; repeat split; try done; try lia.
Qed.

Lemma loop_fuel n : forall m (st : @loopState D),
  (length (pending (ls_x st)) < n)%nat -> (length (pending (ls_x st)) < m)%nat ->
  loop n st = loop m st.
Proof.
  induction n as [|n IH]; intros m st Hn Hm; [lia|].
  destruct m as [|m]; [lia|]. simpl.
  destruct (iteration st) as [st'| |] eqn:Hit; try done.
  apply iteration_Continue in Hit as (Hlen & _ & _). apply IH; lia.
Qed.

Lemma run_Continue (st st' : @loopState D) : iteration st = Continue st' -> run st = run st'.
Proof.
  intros Hit. unfold run at 1. simpl. rewrite Hit.
  apply iteration_Continue in Hit as (Hlen & _ & _). apply loop_fuel; lia.
Qed.


Lemma loop_total n : forall st : loopState,
  (length (pending (ls_x st)) < n)%nat -> loop n st <> OutOfFuel.
Proof.
  induction n as [|n IH]; intros st Hn; [lia|]. simpl.
  destruct (iteration st) as [st'| |] eqn:Hit; try done.
  apply iteration_Continue in Hit as (Hlen & _ & _). apply IH. lia.
Qed.

Lemma run_total (st : @loopState D) : run st <> OutOfFuel.
Proof. apply loop_total. lia. Qed.

Lemma decodeModelFile_total ctx x model path isRoot strict :
  decodeModelFile ctx x model path isRoot strict <> OutOfFuel.
Proof.
  unfold decodeModelFile.
  pose proof (run_total (initialState ctx x model path isRoot strict)) as Ht.
  destruct (run _); simpl; done.
Qed.

(** The loop only ends on an error in the scanner. *)
Lemma loop_Returns n : forall st st' : loopState,
  loop n st = Returns st' -> Err (ls_scanner st') <> None.
Proof.
  induction n as [|n IH]; intros st st' Hl; [done|]. simpl in Hl.
  destruct (iteration st) as [st1|st1|] eqn:Hit; try done; [by eapply IH|].
  injection Hl as <-. clear IH.
  unfold iteration, XMLDecoder_Token, XMLDecoder_Skip, checkCancel in Hit;
    repeat (case_match; simplify_eq; simpl in *); try done;
    apply checkErr_Break in Hit as [-> He]; done.
Qed.

Lemma setErr_None_id sc : Err sc = None -> setErr None sc = sc.
Proof. destruct sc. simpl. by intros ->. Qed.









(** C7. When the current decoder offers no child for a start element, the
    iteration of the loop that reads the element skips its whole subtree,
    through the matching end element: no decoder is pushed or started, the
    scanner, with the resources, build items and warnings collected so
    far, is unchanged, no error is set, and the scan goes on with the
    tokens after the subtree and ends as it would from there. In
    particular, for an element of a namespace that is neither the core
    namespace nor registered by an extension, no core decoder offers a
    child. *)
Theorem unknown_element_is_skipped
    (st : @loopState D) (name : xmlName) (attr : list Attr) (o : Z)
    (sub : list (Token * Z)) (name' : xmlName) (o' : Z) (rest : list (Token * Z))
    (fin : error) (off : Z)
    (E : Type) (dctx : Dispatch.decoderContext E) (core : Dispatch.coreDecoder)
    (foreign : xmlName) :
  ls_x st = MkXMLDecoder ((StartElement name attr, o) :: sub ++ (EndElement name', o') :: rest)
              fin off ->
  wellNested 0 sub = true ->
  Err (ls_scanner st) = None ->
  decoder_Child (currentDecoder st) (ls_scanner st) name = None ->
  Space foreign <> Namespace ->
  Dispatch.extensionDecoder dctx !! Space foreign = None ->
  let st' := MkLoopState (MkXMLDecoder rest fin o') (ls_scanner st) (ls_ctx st)
               (currentDecoder st) (currentName st) (state st) (names st)
               (nextBytesCheck st) in
  iteration st = Continue st' /\
  run st = run st' /\
  run st <> OutOfFuel /\
  Dispatch.Child dctx core foreign = None.
Proof.
  intros Hx Hw He Hc Hns Hreg st'.
  assert (iteration st = Continue st') as Hit.
  { unfold iteration, XMLDecoder_Token. rewrite Hx. simpl.
    rewrite (setErr_None_id _ He), Hc. unfold XMLDecoder_Skip. simpl.
    pose proof (skipLoop_wellNested sub 0 0 ((EndElement name', o') :: rest) Hw) as Hs.
    simpl in Hs. rewrite Hs. unfold checkErr. simpl.
    by rewrite (setErr_None_id _ He). }
  repeat split; [done|by apply run_Continue|apply run_total|].
  destruct foreign as [sp lc]. simpl in *.
  unfold Dispatch.Child, Dispatch.core, Dispatch.extChild. simpl.
  destruct (String.eqb_spec sp Namespace) as [->|_]; [done|].
  rewrite Hreg. destruct core; simpl; try done.
  destruct (decide (_ = _)) as [[=]|]; done.
Qed.




End EngineFacts.

Section StrictFacts.
Import Reader.


End StrictFacts.

(** ** The orchestration *)

Section OrchestratorFacts.
Import Reader.
Context {F : Type} `{PackageFile F} {D : Type} `{NodeDecoder D} `{CaseFold}.

Lemma sameWalk_refl (st : Decoder F * Model) : sameWalk st st.
Proof. repeat split. exists []. by rewrite app_nil_r. Qed.

Lemma sameWalk_trans (st1 st2 st3 : Decoder F * Model) :
  sameWalk st1 st2 -> sameWalk st2 st3 -> sameWalk st1 st3.
Proof.
  intros (?&?&w1&?) (?&?&w2&?). repeat split; try congruence.
  exists (w1 ++ w2). rewrite app_assoc. congruence.
Qed.

Lemma addChildModelFile_sameWalk p (st st' : Decoder F * Model) :
  addChildModelFile p st = Returns st' -> sameWalk st st'.
Proof.
  destruct st as [d model]. unfold addChildModelFile.
  destruct (m_Childs model !! ModelPath p); [|done].
  intros [= <-]. repeat split. by eexists.
Qed.

Lemma mergeFiles_sameWalk fs indices : forall st st' : Decoder F * Model,
  mergeFiles fs indices st = Returns st' -> sameWalk st st'.
Proof.
  induction indices as [|i rest IH]; intros st st'; simpl.
  - intros [= <-]. apply sameWalk_refl.
  - destruct (loadFile fs i) as [[p|]|]; try done.
    destruct (addChildModelFile p st) as [st1| |] eqn:Ha; simpl; try done.
    intros Hm. eapply sameWalk_trans; [by eapply addChildModelFile_sameWalk|by apply IH].
Qed.

Lemma processNonRootModels_sameWalk sched d model err d' model' :
  processNonRootModels sched d model = Returns (err, d', model') ->
  sameWalk (d, model) (d', model').
Proof.
  unfold processNonRootModels.
  destruct (mapM _ _) as [tasks| |]; simpl; try done.
  destruct (sh_err _).
  - intros [= <- <- <-]. apply sameWalk_refl.
  - destruct (mergeFiles _ _ _) as [[d1 m1]| |] eqn:Hm; simpl; try done.
    intros [= <- <- <-]. by eapply mergeFiles_sameWalk.
Qed.

Lemma processRootModel_sameWalk {G} `{PackageFile G} ctx (rootFile : G)
    (d : Decoder F) model err (d' : Decoder F) model' :
  processRootModel ctx rootFile d model = Returns (err, d', model') ->
  sameWalk (d, model) (d', model').
Proof.
  unfold processRootModel. destruct (pf_Open rootFile).
  - intros [= <- <- <-]. apply sameWalk_refl.
  - destruct (decodeModelFile _ _ _ _ _ _) as [[sc c']| |]; simpl; try done.
    destruct (Done c'). intros [= <- <- <-]. repeat split. by eexists.
Qed.

Lemma mapM_total {A B} (f : A -> outcome B) l :
  (forall a, f a <> OutOfFuel) -> mapM f l <> OutOfFuel.
Proof.
  intros Hf. induction l as [|a l IH]; simpl; [done|].
  specialize (Hf a). destruct (f a); simpl; try done.
  destruct (mapM f l); simpl; done.
Qed.

Lemma readChildModel_total ctx i d model : readChildModel ctx i d model <> OutOfFuel.
Proof.
  unfold readChildModel. destruct (d_nonRootModels d !! i); [|done].
  destruct (pf_Open f); [done|].
  pose proof (decodeModelFile_total ctx (d_x d r) model (pf_Name f) false (d_Strict d)).
  destruct (decodeModelFile _ _ _ _ _ _) as [[sc c']| |]; simpl; done.
Qed.








Lemma classic_dangling (d : Decoder F) :
  (exists r, dangling (d_p d) r) \/ ~ (exists r, dangling (d_p d) r).
Proof.
  unfold dangling.
  assert (forall l : list Relationship,
    (exists r, r ∈ l /\ p_FindFileFromName (d_p d) (r_Path r) = None) \/
    ~ (exists r, r ∈ l /\ p_FindFileFromName (d_p d) (r_Path r) = None)) as Hl.
  { induction l as [|r l [IH|IH]].
    - right. intros (r & Hin & _). by apply elem_of_nil in Hin.
    - left. destruct IH as (r0 & Hin & Hn). exists r0. split; [elem|done].
    - destruct (p_FindFileFromName (d_p d) (r_Path r)) eqn:Ef.
      + right. intros (r0 & Hin & Hn). apply elem_of_cons in Hin as [->|Hin].
        * congruence.
        * apply IH. by exists r0.
      + left. exists r. split; [elem|done]. }
  apply Hl.
Qed.

Lemma processOPC_fails d model :
  modelRels (p_Relationships (d_p d)) = [] \/ (exists r, dangling (d_p d) r) ->
  exists e, fst (fst (processOPC d model)) = inl e /\
    (p_Open (d_p d) = None -> (exists r, dangling (d_p d) r) ->
       e = errorString "package root model points to an unexisting file") /\
    (p_Open (d_p d) = None -> modelRels (p_Relationships (d_p d)) = [] ->
       e = errorString "package does not have root model").
Proof.
  intros Hcase. unfold processOPC. destruct (p_Open (d_p d)) as [err|] eqn:Ho.
  { exists err. by repeat split. }
  destruct (classic_dangling d) as [Hd|Hnd].
  - pose proof (processRelationships_dangling (p_Relationships (d_p d)) (d_p d) None d model
                  eq_refl Hd) as Hr.
    destruct (processRelationships _ None d model) as [[r d1] m1]. simpl in Hr. subst r.
    eexists. split; [done|]. split; [done|].
    intros _ Hnil. destruct Hd as (r & Hin & _). rewrite Hnil in Hin.
    by apply elem_of_nil in Hin.
  - destruct Hcase as [Hnil|Hd]; [|done].
    pose proof (processRelationships_no_model (p_Relationships (d_p d)) None d model Hnil) as Hr.
    destruct (processRelationships _ None d model) as [[r d1] m1]. simpl in Hr. subst r.
    eexists. split; [done|]. split; [|done]. intros _ Hd. done.
Qed.

(** C4, as the code has it. When the package has no relationship of the
    3D-model type, or has one whose target is not a part of the package,
    [DecodeContext] returns an error ([package does not have root model],
    [package root model points to an unexisting file]) before any part is
    decoded: the trace is empty, and the resources, the build items and
    the specs of the caller's model and the warnings of the decoder are
    as they were. The model is not left unchanged, though: what the walk
    wrote before it met the error stays in it. *)
Theorem missing_root_is_fatal (sched : Schedule) (d : Decoder F) (model : Model) :
  modelRels (p_Relationships (d_p d)) = [] \/ (exists r, dangling (d_p d) r) ->
  exists e d' model',
    DecodeContext sched d model = Returns (Some e, d', model', []) /\
    m_Resources model' = m_Resources model /\
    m_BuildItems model' = m_BuildItems model /\
    m_Specs model' = m_Specs model /\
    d_Warnings d' = d_Warnings d /\
    (p_Open (d_p d) = None -> (exists r, dangling (d_p d) r) ->
       e = errorString "package root model points to an unexisting file") /\
    (p_Open (d_p d) = None -> modelRels (p_Relationships (d_p d)) = [] ->
       e = errorString "package does not have root model").
Proof.
  intros Hcase. destruct (processOPC_fails d model Hcase) as (e & He & Hd1 & Hd2).
  pose proof (processOPC_inv d model) as [(Hr & Hb & Hs & Hw & _) _].
  unfold DecodeContext. destruct (processOPC d model) as [[r d1] m1].
  simpl in *. subst r. exists e, d1, m1. repeat split; done.
Qed.

(** C8. Adding a file whose name matches, case ignored, the path of an
    attachment already in the list returns the list unchanged; adding any
    file to a list without two such paths gives a list without two such
    paths; hence the relationship walk of [processOPC] and the whole of
    [DecodeContext] leave a model whose attachments had no two such paths
    (an empty list, for a fresh model) with attachments that have none. *)
Theorem attachments_are_unique_up_to_case
    (attachments : list Attachment) (file file' : F)
    (sched : Schedule) (d : Decoder F) (model : Model) :
  hasPath attachments (pf_Name file) ->
  foldDistinct attachments ->
  foldDistinct (m_Attachments model) ->
  addAttachment attachments file = attachments /\
  foldDistinct (addAttachment attachments file') /\
  foldDistinct (m_Attachments (snd (processOPC d model))) /\
  match DecodeContext sched d model with
  | Returns (_, _, model', _) => foldDistinct (m_Attachments model')
  | _ => True
  end.
Proof.
  intros Hp Hd Hm. split; [by apply addAttachment_same|].
  split; [by apply addAttachment_distinct|].
  pose proof (processOPC_inv d model) as [_ Hinv]. simpl in Hinv. specialize (Hinv Hm).
  split; [done|].
  unfold DecodeContext. destruct (processOPC d model) as [[[e|rootFile] d1] m1]; [done|].
  simpl in Hinv.
  destruct (processNonRootModels sched d1 m1) as [[[e d2] m2]| |] eqn:Hn; simpl; try done.
  apply processNonRootModels_sameWalk in Hn as (Ha & _). simpl in Ha.
  destruct e; [by rewrite Ha|].
  destruct (processRootModel _ _ _ _) as [[[e d3] m3]| |] eqn:Hr; simpl; try done.
  apply processRootModel_sameWalk in Hr as (Ha' & _). simpl in Ha'.
  by rewrite Ha', Ha.
Qed.

End OrchestratorFacts.

(** ** The goroutines and the merge *)

Section MergeFacts.
Import Reader.
Context {F : Type} `{PackageFile F} {D : Type} `{NodeDecoder D} `{CaseFold}.

Section Tails.
Variable tasks : list (option Scanner * option error).
Variable pdone : nat -> bool.

Local Abbreviation step := (tailStep tasks pdone).

Lemma tailStep_pcs sh i :
  pcs (step sh i) =
  match tasks !! i, pcs sh !! i with
  | Some _, Some O => <[i := if cancelled sh || pdone i then 2%nat else 1%nat]> (pcs sh)
  | Some _, Some (S O) => <[i := 2%nat]> (pcs sh)
  | _, _ => pcs sh
  end.
Proof. unfold tailStep. repeat case_match; simplify_eq; done. Qed.

Lemma pcOf_step sh i j :
  pcOf (step sh i) j =
  match tasks !! i, pcs sh !! i with
  | Some _, Some O =>
      if decide (i = j) then (if cancelled sh || pdone i then 2%nat else 1%nat)
      else pcOf sh j
  | Some _, Some (S O) => if decide (i = j) then 2%nat else pcOf sh j
  | _, _ => pcOf sh j
  end.
Proof.
  unfold pcOf. rewrite tailStep_pcs.
  destruct (tasks !! i); [|done].
  destruct (pcs sh !! i) as [[|[|pc]]|] eqn:Ep; try done;
    (assert (i < length (pcs sh))%nat as Hi by (by eapply lookup_lt_Some));
    (destruct (decide (i = j)) as [->|Hne];
      [by rewrite list_lookup_insert_eq|by rewrite list_lookup_insert_ne]).
Qed.

Lemma tailStep_length sh i : length (pcs (step sh i)) = length (pcs sh).
Proof.
  rewrite tailStep_pcs. repeat case_match; try done; by rewrite length_insert.
Qed.

Lemma tailStep_pc_mono sh i j : (pcOf sh j <= pcOf (step sh i) j)%nat.
Proof.
  rewrite pcOf_step.
  destruct (tasks !! i); [|done].
  destruct (pcs sh !! i) as [[|[|pc]]|] eqn:Ep; try done;
    destruct (decide (i = j)) as [->|Hne]; try done;
    unfold pcOf; rewrite Ep; simpl; try lia.
Qed.

Lemma tailStep_progress sh i :
  (i < length tasks)%nat -> length (pcs sh) = length tasks ->
  (pcOf sh i < 2)%nat -> (pcOf sh i < pcOf (step sh i) i)%nat.
Proof.
  intros Hi Hlen Hlt. rewrite pcOf_step.
  destruct (lookup_lt_is_Some_2 tasks i Hi) as [[f e1] ->].
  destruct (lookup_lt_is_Some_2 (pcs sh) i ltac:(lia)) as [pc Ep]. rewrite Ep.
  unfold pcOf in *. rewrite Ep in *. simpl in *.
  destruct pc as [|[|pc]]; rewrite ?decide_True by done; try lia.
  destruct (_ || _); lia.
Qed.

Lemma tailStep_le2 sh i :
  (forall j, (pcOf sh j <= 2)%nat) -> forall j, (pcOf (step sh i) j <= 2)%nat.
Proof.
  intros Hle j. rewrite pcOf_step. pose proof (Hle j).
  repeat case_match; lia.
Qed.

Lemma fold_length l : forall sh,
  length (pcs (fold_left step l sh)) = length (pcs sh).
Proof.
  induction l as [|x l IH]; intros sh; simpl; [done|]. by rewrite IH, tailStep_length.
Qed.

Lemma fold_pc_mono l : forall sh j, (pcOf sh j <= pcOf (fold_left step l sh) j)%nat.
Proof.
  induction l as [|x l IH]; intros sh j; simpl; [done|].
  etrans; [apply (tailStep_pc_mono sh x j)|apply IH].
Qed.

Lemma fold_progress l : forall sh i k,
  i ∈ l -> (i < length tasks)%nat -> length (pcs sh) = length tasks ->
  (k <= pcOf sh i)%nat -> (k < 2)%nat ->
  (k < pcOf (fold_left step l sh) i)%nat.
Proof.
  induction l as [|x l IH]; intros sh i k Hin Hi Hlen Hk Hk2.
  - by apply elem_of_nil in Hin.
  - change (fold_left step (x :: l) sh) with (fold_left step l (step sh x)).
    pose proof (fold_pc_mono l (step sh x) i) as Hm.
    destruct (decide (x = i)) as [->|Hne].
    + destruct (decide (pcOf sh i < 2)%nat) as [Hlt|Hge].
      * pose proof (tailStep_progress sh i Hi Hlen Hlt). lia.
      * pose proof (tailStep_pc_mono sh i i). lia.
    + apply elem_of_cons in Hin as [->|Hin]; [done|].
      apply IH; try done; [by rewrite tailStep_length|].
      pose proof (tailStep_pc_mono sh x i). lia.
Qed.

Lemma tailStep_inv sh i : tailInv tasks pdone sh -> tailInv tasks pdone (step sh i).
Proof.
  intros (Hlen & Hle & Hok). split; [by rewrite tailStep_length|].
  split.
  { by apply tailStep_le2. }
  unfold tailStep.
  destruct (tasks !! i) as [[f e1]|] eqn:Et; [|done].
  destruct (pcs sh !! i) as [pc|] eqn:Ep; [|done].
  assert (i < length (pcs sh))%nat as Hi by (by eapply lookup_lt_Some).
  destruct pc as [|[|pc]]; [| |done].
  - (* the poll *)
    destruct (cancelled sh || pdone i) eqn:Ec; simpl; intros He;
      destruct (Hok He) as (Hc & Hnd & Hkeys & Hone & Hf);
      rewrite Hc in Ec; simpl in Ec;
      (split; [done|]); (split; [done|]); (split; [|split; [|done]]).
    + intros j. rewrite Hkeys. destruct (decide (i = j)) as [->|Hne].
      * rewrite list_lookup_insert_eq by done. rewrite Ep. split; intros [? ?]; [done|congruence].
      * by rewrite list_lookup_insert_ne.
    + intros j. destruct (decide (i = j)) as [->|Hne].
      * by rewrite list_lookup_insert_eq.
      * rewrite list_lookup_insert_ne by done. apply Hone.
    + intros j. rewrite Hkeys. destruct (decide (i = j)) as [->|Hne].
      * rewrite list_lookup_insert_eq by done. rewrite Ep. split; intros [? ?]; done.
      * by rewrite list_lookup_insert_ne.
    + intros j. destruct (decide (i = j)) as [->|Hne].
      * by rewrite list_lookup_insert_eq.
      * rewrite list_lookup_insert_ne by done. apply Hone.
  - (* the store *)
    destruct e1 as [e|]; simpl; [done|]. intros He.
    destruct (Hok He) as (Hc & Hnd & Hkeys & Hone & Hf).
    assert (i ∉ map fst (files sh)) as Hfresh.
    { rewrite Hkeys, Ep. by intros [? ?]. }
    split; [done|]. rewrite map_app. simpl. split; [|split; [|split]].
    + apply NoDup_app. split; [done|]. split; [|apply NoDup_singleton].
      intros x Hx Hx'. apply list_elem_of_singleton in Hx'. by subst.
    + intros j. rewrite elem_of_app, list_elem_of_singleton, Hkeys.
      destruct (decide (i = j)) as [->|Hne].
      * rewrite list_lookup_insert_eq by done. split; [|by right].
        intros _. split; [done|]. by apply Hone.
      * rewrite list_lookup_insert_ne by done. split; [intros [?|?]; [done|congruence]|by left].
    + intros j. destruct (decide (i = j)) as [->|Hne].
      * by rewrite list_lookup_insert_eq.
      * rewrite list_lookup_insert_ne by done. apply Hone.
    + intros j g Hin. apply elem_of_app in Hin as [Hin|Hin]; [by apply Hf|].
      apply list_elem_of_singleton in Hin. by injection Hin as -> ->.
Qed.

Lemma fold_inv l : forall sh,
  tailInv tasks pdone sh -> tailInv tasks pdone (fold_left step l sh).
Proof.
  induction l as [|x l IH]; intros sh Hinv; simpl; [done|]. by apply IH, tailStep_inv.
Qed.

Lemma tailStep_noFailure sh i :
  noFailure tasks pdone -> tailInv tasks pdone sh ->
  sh_err sh = None -> sh_err (step sh i) = None.
Proof.
  intros Hnf (_ & _ & Hok) He. destruct (Hok He) as (_ & _ & _ & Hone & _).
  unfold tailStep.
  destruct (tasks !! i) as [[f e1]|] eqn:Et; [|done].
  destruct (pcs sh !! i) as [pc|] eqn:Ep; [|done].
  destruct pc as [|[|pc]]; [by destruct (_ || _)| |done].
  rewrite (Hnf i f e1 Et (Hone i Ep)). done.
Qed.

Lemma fold_noFailure l : forall sh,
  noFailure tasks pdone -> tailInv tasks pdone sh ->
  sh_err sh = None -> sh_err (fold_left step l sh) = None.
Proof.
  induction l as [|x l IH]; intros sh Hnf Hinv He; simpl; [done|].
  apply IH; [done|by apply tailStep_inv|by apply tailStep_noFailure].
Qed.

Lemma tailInv_init :
  tailInv tasks pdone (MkShared false None [] (replicate (length tasks) O)).
Proof.
  split; [apply length_replicate|]. split.
  { intros i. unfold pcOf. simpl. destruct (replicate _ _ !! i) eqn:E; simpl; [|lia].
    apply lookup_replicate in E as [-> _]. lia. }
  intros _. simpl. split; [done|]. split; [apply NoDup_nil_2|]. split; [|split].
  - intros i. split; [intros Hin; by apply elem_of_nil in Hin|].
    intros [Hin _]. by apply lookup_replicate in Hin as [? _].
  - intros i Hin. by apply lookup_replicate in Hin as [? _].
  - intros i f Hin. by apply elem_of_nil in Hin.
Qed.

(** When the goroutines are through, every one of them is at its end. *)
Lemma runTails_finished order i :
  (i < length tasks)%nat -> pcs (runTails tasks pdone order) !! i = Some 2%nat.
Proof.
  intros Hi. unfold runTails.
  set (sh0 := MkShared false None [] (replicate (length tasks) O)).
  rewrite !fold_left_app.
  set (sh1 := fold_left step order sh0).
  set (sh2 := fold_left step (seq 0 (length tasks)) sh1).
  set (sh3 := fold_left step (seq 0 (length tasks)) sh2).
  assert (length (pcs sh1) = length tasks) as Hl1
    by (unfold sh1; rewrite fold_length; simpl; by rewrite length_replicate).
  assert (length (pcs sh2) = length tasks) as Hl2 by (unfold sh2; by rewrite fold_length).
  assert (i ∈ seq 0 (length tasks)) as Hin by (apply elem_of_seq; lia).
  assert (tailInv tasks pdone sh1) as (_ & Hle1 & _)
    by (unfold sh1; apply fold_inv, tailInv_init).
  assert (tailInv tasks pdone sh2) as (_ & Hle2 & _)
    by (unfold sh2, sh1; repeat apply fold_inv; apply tailInv_init).
  pose proof (fold_progress (seq 0 (length tasks)) sh1 i 0 Hin Hi Hl1 ltac:(lia) ltac:(lia))
    as Hp1.
  fold sh2 in Hp1.
  pose proof (fold_progress (seq 0 (length tasks)) sh2 i 1 Hin Hi Hl2 ltac:(lia) ltac:(lia))
    as Hp2.
  fold sh3 in Hp2.
  assert (tailInv tasks pdone sh3) as (Hl3 & Hle & _)
    by (unfold sh3, sh2, sh1; repeat apply fold_inv; apply tailInv_init).
  specialize (Hle i). unfold pcOf in *.
  destruct (lookup_lt_is_Some_2 (pcs sh3) i ltac:(lia)) as [pc Ep].
  rewrite Ep in *. simpl in *. f_equal. lia.
Qed.

Lemma runTails_inv order : tailInv tasks pdone (runTails tasks pdone order).
Proof. unfold runTails. apply fold_inv, tailInv_init. Qed.

(** Whether the goroutines leave an error does not depend on how they
    interleave. *)
Lemma runTails_err order :
  sh_err (runTails tasks pdone order) = None <-> noFailure tasks pdone.
Proof.
  split.
  - intros He i f e Ht Hp.
    destruct (runTails_inv order) as (_ & _ & Hok).
    destruct (Hok He) as (_ & _ & Hkeys & _ & Hf).
    assert (i < length tasks)%nat as Hi by (by eapply lookup_lt_Some).
    assert (i ∈ map fst (files (runTails tasks pdone order))) as Hin
      by (apply Hkeys; split; [by apply runTails_finished|done]).
    apply list_elem_of_fmap in Hin as ([j g] & -> & Hin). simpl in *.
    apply Hf in Hin. congruence.
  - intros Hnf. unfold runTails. apply fold_noFailure; [done|apply tailInv_init|done].
Qed.

Lemma loadFile_elem fs i :
  i ∈ map fst fs -> exists f, loadFile fs i = Some f /\ (i, f) ∈ fs.
Proof.
  unfold loadFile. induction fs as [|[j g] fs IH]; simpl; intros Hin.
  - by apply elem_of_nil in Hin.
  - destruct (Nat.eqb_spec j i) as [->|Hne].
    + exists g. split; [done|]. elem.
    + apply elem_of_cons in Hin as [Hin|Hin]; [done|].
      destruct (IH Hin) as (f & Hl & Hf). exists f. split; [done|]. elem.
Qed.

(** Without an error, the stored entries are those of [stored], in some
    order, each with the scanner of its task. *)
Lemma runTails_files order :
  sh_err (runTails tasks pdone order) = None ->
  map fst (files (runTails tasks pdone order)) ≡ₚ stored tasks pdone /\
  forall i, i ∈ stored tasks pdone ->
    loadFile (files (runTails tasks pdone order)) i
    = Some (match tasks !! i with Some (f, _) => f | None => None end).
Proof.
  intros He. destruct (runTails_inv order) as (Hlen & _ & Hok).
  destruct (Hok He) as (_ & Hnd & Hkeys & _ & Hf).
  assert (forall i, i ∈ map fst (files (runTails tasks pdone order)) <-> i ∈ stored tasks pdone)
    as Hsame.
  { intros i. rewrite Hkeys. unfold stored. rewrite list_elem_of_filter, elem_of_seq.
    split.
    - intros [Hpc Hp]. split; [done|]. apply lookup_lt_Some in Hpc. lia.
    - intros [Hp Hi]. split; [apply runTails_finished; lia|done]. }
  split.
  - apply NoDup_Permutation; [done| |done].
    unfold stored. apply NoDup_filter, NoDup_seq.
  - intros i Hi. apply Hsame in Hi. apply loadFile_elem in Hi as (f & -> & Hin).
    by rewrite (Hf i f Hin).
Qed.

End Tails.

Lemma StronglySorted_seq j n : StronglySorted lt (seq j n).
Proof.
  revert j. induction n as [|n IH]; intros j; simpl; constructor; [apply IH|].
  apply Forall_forall. intros x Hx. apply elem_of_seq in Hx. lia.
Qed.

Lemma StronglySorted_filter {A} (R : relation A) (P : A -> Prop)
    `{forall x, Decision (P x)} l :
  StronglySorted R l -> StronglySorted R (filter P l).
Proof.
  induction 1 as [|x l Hs IH Hall]; [constructor|].
  rewrite filter_cons. destruct (decide (P x)); [|done].
  constructor; [done|]. apply Forall_forall. intros y Hy.
  apply list_elem_of_filter in Hy as [_ Hy]. rewrite Forall_forall in Hall. by apply Hall.
Qed.

Lemma StronglySorted_weaken {A} (R R' : relation A) l :
  (forall x y, R x y -> R' x y) -> StronglySorted R l -> StronglySorted R' l.
Proof.
  intros HR. induction 1 as [|x l Hs IH Hall]; constructor; [done|].
  eapply Forall_impl; [apply Hall|]. intros y. apply HR.
Qed.

Lemma stored_sorted tasks pdone : StronglySorted lt (stored tasks pdone).
Proof. unfold stored. apply StronglySorted_filter, StronglySorted_seq. Qed.

Lemma sortInts_stored tasks pdone l :
  l ≡ₚ stored tasks pdone -> sortInts l = stored tasks pdone.
Proof.
  intros Hp. unfold sortInts.
  apply (Sorted_unique Nat.le).
  - apply Sorted_merge_sort. apply _.
  - apply StronglySorted_Sorted.
    eapply StronglySorted_weaken; [|apply stored_sorted]. intros x y. lia.
  - by rewrite merge_sort_Permutation.
Qed.

Lemma mergeFiles_scanners tasks fs indices : forall st : Decoder F * Model,
  (forall i, i ∈ indices ->
     loadFile fs i = Some (match tasks !! i with Some (f, _) => f | None => None end)) ->
  mergeFiles fs indices st = mergeInOrder (scannersOf tasks indices) st.
Proof.
  induction indices as [|i rest IH]; intros st Hl; simpl; [done|].
  rewrite (Hl i) by elem.
  destruct (match tasks !! i with Some (f, _) => f | None => None end) as [p|]; [|done].
  destruct (addChildModelFile p st) as [st'| |]; simpl; try done.
  apply IH. intros j Hj. apply Hl. elem.
Qed.

Lemma mergeInOrder_warnings scs : forall (st st' : Decoder F * Model),
  mergeInOrder scs st = Returns st' ->
  exists ps, scs = map Some ps /\
    d_Warnings (fst st') = d_Warnings (fst st) ++ concat (map Warnings ps).
Proof.
  induction scs as [|[p|] rest IH]; intros st st'; simpl; [| |done].
  - intros [= <-]. exists []. simpl. by rewrite app_nil_r.
  - destruct (addChildModelFile p st) as [st1| |] eqn:Ha; simpl; try done.
    intros Hm. destruct (IH _ _ Hm) as (ps & -> & Hw). exists (p :: ps).
    split; [done|]. rewrite Hw. simpl.
    destruct st as [d model]. unfold addChildModelFile in Ha.
    destruct (m_Childs model !! ModelPath p); [|done]. injection Ha as <-.
    simpl. by rewrite app_assoc.
Qed.

Lemma mapM_ext {A B} (f g : A -> outcome B) l :
  (forall a, f a = g a) -> mapM f l = mapM g l.
Proof. intros Hfg. induction l as [|a l IH]; simpl; [done|]. by rewrite Hfg, IH. Qed.

Lemma stored_ext tasks (p q : nat -> bool) :
  (forall i, p i = q i) -> stored tasks p = stored tasks q.
Proof.
  intros Hpq. unfold stored. induction (seq 0 (length tasks)) as [|x l IH]; [done|].
  rewrite !filter_cons, IH, Hpq. by destruct (decide (q x = false)).
Qed.

Lemma noFailure_ext tasks (p q : nat -> bool) :
  (forall i, p i = q i) -> noFailure tasks p -> noFailure tasks q.
Proof. intros Hpq Hn i f e Ht Hq. rewrite <- Hpq in Hq. by eapply Hn. Qed.

(** [processNonRootModels] without its goroutines: when no task that gets
    past its poll has failed, the scanners of those tasks are merged in
    ascending index order; otherwise some error is returned and nothing is
    merged. *)
Lemma processNonRootModels_merge sched d model tasks :
  mapM (fun i => readChildModel (childCtx sched i) i d model)
    (seq 0 (length (d_nonRootModels d))) = Returns tasks ->
  noFailure tasks (parentDone sched) ->
  processNonRootModels sched d model =
  ('(d', model') ← mergeInOrder (scannersOf tasks (stored tasks (parentDone sched))) (d, model);
   Returns (None, d', model')).
Proof.
  intros Hm Hnf. unfold processNonRootModels. rewrite Hm. simpl.
  pose proof (proj2 (runTails_err tasks (parentDone sched) (tailOrder sched)) Hnf) as He.
  rewrite He.
  destruct (runTails_files tasks (parentDone sched) (tailOrder sched) He) as [Hp Hl].
  rewrite (sortInts_stored _ _ _ Hp).
  by rewrite (mergeFiles_scanners tasks _ _ (d, model) Hl).
Qed.

Lemma processNonRootModels_success sched d model d' model' :
  processNonRootModels sched d model = Returns (None, d', model') ->
  exists tasks,
    mapM (fun i => readChildModel (childCtx sched i) i d model)
      (seq 0 (length (d_nonRootModels d))) = Returns tasks /\
    noFailure tasks (parentDone sched).
Proof.
  unfold processNonRootModels.
  destruct (mapM _ _) as [tasks| |] eqn:Hm; simpl; try done.
  destruct (sh_err _) eqn:He; [done|]. intros _. exists tasks. split; [done|].
  by apply (runTails_err tasks (parentDone sched) (tailOrder sched)).
Qed.

(** C5. Take a call of [processNonRootModels] that returns without error
    under some schedule. The scanners that were stored are those of the
    parts in [stored], a strictly ascending list of discovery indices, and
    they are merged in that order: the warnings of the decoder grow by the
    warnings of those scanners, concatenated by ascending index. Under any
    other schedule in which the polls of the context get the same answers,
    however the goroutines interleave and in whatever order they complete
    and store, the call returns the same decoder and the same model, and
    so does the whole of [DecodeContext]. *)
Theorem auxiliary_parts_are_merged_in_index_order
    (sched sched' : Schedule) (d : Decoder F) (model : Model)
    (d' : Decoder F) (model' : Model) :
  (forall i, childCtx sched' i = childCtx sched i) ->
  (forall i, parentDone sched' i = parentDone sched i) ->
  rootCtx sched' = rootCtx sched ->
  processNonRootModels sched d model = Returns (None, d', model') ->
  (exists tasks ps,
     mapM (fun i => readChildModel (childCtx sched i) i d model)
       (seq 0 (length (d_nonRootModels d))) = Returns tasks /\
     StronglySorted lt (stored tasks (parentDone sched)) /\
     scannersOf tasks (stored tasks (parentDone sched)) = map Some ps /\
     mergeInOrder (map Some ps) (d, model) = Returns (d', model') /\
     d_Warnings d' = d_Warnings d ++ concat (map Warnings ps)) /\
  processNonRootModels sched' d model = Returns (None, d', model') /\
  (forall d0 model0 d1 model1 tr,
     DecodeContext sched d0 model0 = Returns (None, d1, model1, tr) ->
     DecodeContext sched' d0 model0 = Returns (None, d1, model1, tr)).
Proof.
  intros Hc Hp Hr Hret.
  assert (forall d model d' model',
    processNonRootModels sched d model = Returns (None, d', model') ->
    processNonRootModels sched' d model = Returns (None, d', model')) as Hsame.
  { clear Hret d model d' model'. intros d model d' model' Hret.
    destruct (processNonRootModels_success _ _ _ _ _ Hret) as (tasks & Hm & Hnf).
    rewrite (processNonRootModels_merge sched d model tasks Hm Hnf) in Hret.
    rewrite (processNonRootModels_merge sched' d model tasks).
    - by rewrite (stored_ext tasks _ _ Hp).
    - rewrite <- Hm. apply mapM_ext. intros i. by rewrite Hc.
    - eapply noFailure_ext; [|apply Hnf]. intros i. by rewrite Hp. }
  split; [|split; [by apply Hsame|]].
  - destruct (processNonRootModels_success _ _ _ _ _ Hret) as (tasks & Hm & Hnf).
    rewrite (processNonRootModels_merge sched d model tasks Hm Hnf) in Hret.
    destruct (mergeInOrder _ (d, model)) as [[d1 m1]| |] eqn:Hmerge; simpl in Hret; try done.
    injection Hret as -> ->.
    destruct (mergeInOrder_warnings _ _ _ Hmerge) as (ps & Hps & Hw).
    exists tasks, ps. split; [done|]. split; [apply stored_sorted|].
    split; [done|]. split; [by rewrite <- Hps|done].
  - intros d0 model0 d1 model1 tr. unfold DecodeContext.
    destruct (processOPC d0 model0) as [[[e|rootFile] d2] m2]; [done|].
    destruct (processNonRootModels sched d2 m2) as [[[e d3] m3]| |] eqn:Hn; simpl; try done.
    destruct e as [e|]; [done|].
    rewrite (Hsame _ _ _ _ Hn). simpl. by rewrite Hr.
Qed.

End MergeFacts.

(** ** The sample package *)

Section SampleFacts.
Import Reader Sample.

Local Abbreviation decodeSample promote strict sched rels :=
  (@DecodeContext file _ node (nodeDecoders promote) asciiFold sched
     (decoderFor rels strict) emptyModel).






(** C4 as stated fails: the package has a thumbnail relationship and no
    relationship of the 3D-model type; the decode returns the error, and
    the caller's model, empty before the call, holds the relationship and
    the attachment. *)
Lemma missing_root_leaves_attachment_in_model :
  errorOf (decodeSample false true quiet [relThumbnail "/thumb.png"])
    = Some (Some (errorString "package does not have root model")) /\
  modelOf (decodeSample false true quiet [relThumbnail "/thumb.png"])
    = Some (MkModel "" [relThumbnail "/thumb.png"] []
              [MkAttachment "/thumb.png" "png" "image/png"] ∅ [] [] []) /\
  MkModel "" [relThumbnail "/thumb.png"] []
    [MkAttachment "/thumb.png" "png" "image/png"] ∅ [] [] [] <> emptyModel.
Proof. split; [|split]; [vm_compute; reflexivity..|discriminate]. Qed.

(** The theorem of C4 on the package without a model relationship. *)
Lemma missing_root_is_fatal_witness :
  exists e d' model',
    decodeSample false true quiet [relThumbnail "/thumb.png"]
      = Returns (Some e, d', model', []) /\
    m_Resources model' = [] /\
    e = errorString "package does not have root model".
Proof.
  destruct (@missing_root_is_fatal file file_PackageFile node (nodeDecoders false) asciiFold quiet
              (decoderFor [relThumbnail "/thumb.png"] true) emptyModel
              (or_introl eq_refl))
    as (e & d' & model' & Hd & Hr & _ & _ & _ & _ & He).
  exists e, d', model'. split; [exact Hd|]. split; [exact Hr|].
  apply He; reflexivity.
Defined.

(** The example of the specification for C7: a document with an element
    of an unregistered namespace, nested three levels deep, between its
    objects decodes to the scanner of the document without it. *)
Example foreign_subtree_contributes_nothing :
  match @decodeModelFile node (nodeDecoders false) Background
          (MkXMLDecoder (withOffsets 0 (modelDocWithForeign ["1"] ["2"])) io_EOF 0)
          emptyModel DefaultModelPath true false,
        @decodeModelFile node (nodeDecoders false) Background
          (MkXMLDecoder (withOffsets 0 (modelDoc ["1"; "2"])) io_EOF 0)
          emptyModel DefaultModelPath true false with
  | Returns (sc, _), Returns (sc', _) =>
      sc = sc' /\ Resources sc = [MkResource 1; MkResource 2] /\
      Warnings sc = [] /\ Err sc = None
  | _, _ => False
  end.
Proof. vm_compute. repeat split; reflexivity. Qed.

(** The theorem of C7 on a document that starts with the foreign subtree. *)
Lemma unknown_element_is_skipped_witness :
  let doc := withOffsets 0 (foreignSubtree ++ modelDoc ["1"]) in
  let st := @initialState node Background (MkXMLDecoder doc io_EOF 0)
              emptyModel DefaultModelPath true false in
  let st' := @initialState node Background
               (MkXMLDecoder (withOffsets 7 (modelDoc ["1"])) io_EOF 7)
               emptyModel DefaultModelPath true false in
  @iteration node (nodeDecoders false) st = Continue st' /\
  @run node (nodeDecoders false) st = @run node (nodeDecoders false) st' /\
  Dispatch.Child (E := unit) (Dispatch.MkDecoderContext ∅) (Dispatch.modelDecoder true)
    (foreignName "a") = None.
Proof.
  intros doc st st'.
  pose proof (@unknown_element_is_skipped node (nodeDecoders false) st
    (foreignName "a") [] 1
    (withOffsets 1 [StartElement (foreignName "b") [];
                    StartElement (foreignName "c") [idAttr "7"];
                    EndElement (foreignName "c");
                    CharData "text";
                    EndElement (foreignName "b")])
    (foreignName "a") 7 (withOffsets 7 (modelDoc ["1"])) io_EOF 0
    unit (Dispatch.MkDecoderContext ∅) (Dispatch.modelDecoder true) (foreignName "a")
    eq_refl eq_refl eq_refl eq_refl ltac:(discriminate) eq_refl)
    as (Hit & Hrun & _ & Hchild).
  split; [exact Hit|]. split; [exact Hrun|exact Hchild].
Defined.

(** Lists of at most one attachment have no two paths to compare. *)
Lemma single_attachment_distinct (a : Attachment) : foldDistinct [a].
Proof.
  intros i j x y Hij Hi Hj. destruct j as [|j]; [lia|]. simpl in Hj. by destruct j.
Defined.

Lemma no_attachment_distinct : foldDistinct [].
Proof. intros i j x y Hij Hi Hj. by destruct i. Defined.

(** The theorem of C8 on the thumbnail that is referred to under two
    names that differ in case. *)
Lemma attachments_are_unique_witness :
  let attachments := [MkAttachment "/thumb.png" "png" "image/png"] in
  hasPath attachments "/THUMB.png" /\
  addAttachment attachments (MkFile parts thumbUpper) = attachments /\
  foldDistinct (addAttachment attachments (MkFile parts aux2)) /\
  match decodeSample false true quiet packageRels with
  | Returns (_, _, model', _) => foldDistinct (m_Attachments model')
  | _ => True
  end.
Proof.
  intros attachments.
  assert (hasPath attachments "/THUMB.png") as Hp.
  { exists (MkAttachment "/thumb.png" "png" "image/png"). split; [|reflexivity].
    apply list_elem_of_singleton. reflexivity. }
  split; [exact Hp|].
  destruct (@attachments_are_unique_up_to_case file file_PackageFile node (nodeDecoders false) asciiFold
              attachments (MkFile parts thumbUpper) (MkFile parts aux2)
              quiet (decoderFor packageRels true) emptyModel
              Hp (single_attachment_distinct _) no_attachment_distinct)
    as (Hsame & Hdist & _ & Hdec).
  split; [exact Hsame|]. split; [exact Hdist|exact Hdec].
Defined.

(** The theorem of C5 on the sample package, for the schedule in which
    the second auxiliary part stores first. *)
Lemma auxiliary_merge_order_witness :
  let walked := @processOPC file _ asciiFold (decoderFor packageRels true) emptyModel in
  let d1 := snd (fst walked) in
  let m1 := snd walked in
  match @processNonRootModels file _ node (nodeDecoders false) quiet d1 m1 with
  | Returns (None, d', model') =>
      @processNonRootModels file _ node (nodeDecoders false) secondFirst d1 m1
        = Returns (None, d', model') /\
      d_Warnings d' = [errorString "invalid id"]
  | _ => False
  end.
Proof.
  intros walked d1 m1.
  destruct (@processNonRootModels file _ node (nodeDecoders false) quiet d1 m1)
    as [[[[e|] d'] model']| |] eqn:E.
  - vm_compute in E. discriminate.
  - destruct (@auxiliary_parts_are_merged_in_index_order file file_PackageFile node (nodeDecoders false)
                asciiFold quiet secondFirst d1 m1 d' model'
                (fun _ => eq_refl) (fun _ => eq_refl) eq_refl E)
      as (_ & Hsame & _).
    split; [exact Hsame|]. vm_compute in E. injection E as <- _. reflexivity.
  - vm_compute in E. discriminate.
  - vm_compute in E. discriminate.
Defined.

(** A model relationship whose target is not in the package is fatal
    too. *)
Example dangling_root_is_fatal :
  errorOf (decodeSample false true quiet [relModel "/3D/missing.model"])
  = Some (Some (errorString "package root model points to an unexisting file")).
Proof. vm_compute. reflexivity. Qed.

End SampleFacts.

(** * Further properties *)

(** ** The token loop: no panic, cancellation *)

Section EngineMore.
Import Reader ReaderSpec.
Context {D : Type} `{NodeDecoder D}.

Lemma skipLoop_suffix toks : forall depth rest o,
  skipLoop depth toks = Some (rest, o) -> exists pre, toks = pre ++ rest.
Proof.
  induction toks as [|[t o'] toks IH]; intros depth rest o Hs; simpl in *; [done|].
  destruct t;
    try (apply IH in Hs as [pre ->]; by eexists (_ :: pre)).
  destruct depth; simplify_eq.
  - by eexists [_].
  - apply IH in Hs as [pre ->]. by exists ((EndElement name, o') :: pre).
Qed.

Lemma namedEndsb_spec toks : namedEndsb toks = true -> namedEnds toks.
Proof.
  unfold namedEndsb. rewrite forallb_forall. intros Hall o Hin.
  apply list_elem_of_In, Hall in Hin. cbn [fst] in Hin.
  by rewrite bool_decide_eq_true_2 in Hin.
Qed.

Lemma namedEnds_suffix pre rest : namedEnds (pre ++ rest) -> namedEnds rest.
Proof. intros Hn o Hin. apply (Hn o). apply elem_of_app. by right. Qed.

Lemma namedEnds_tail e rest : namedEnds (e :: rest) -> namedEnds rest.
Proof. apply (namedEnds_suffix [e]). Qed.

Lemma snoc_cases {A} (l : list A) : l = [] \/ exists l' a, l = l' ++ [a].
Proof. induction l using rev_ind; [by left|right; by eexists _, _]. Qed.

Lemma pop_snoc {A} (l : list A) (a : A) : pop (l ++ [a]) = Some (a, l).
Proof. unfold pop. by rewrite last_snoc, removelast_last. Qed.

Lemma pop_nil {A} : pop (@nil A) = None.
Proof. done. Qed.

Lemma head_snoc_snoc {A} (l : list A) (a b : A) :
  head ((l ++ [a]) ++ [b]) = head (l ++ [a]).
Proof. by destruct l. Qed.

Lemma checkErr_stackInv (st : @loopState D) :
  stackInv st ->
  match checkErr st with
  | Continue st' => stackInv st'
  | Break _ => True
  | IterPanic => False
  end.
Proof. intros Hinv. unfold checkErr. by destruct (Err _). Qed.

(** An iteration from a state with the stacks in order does not panic and
    leaves them in order. *)
Lemma iteration_stackInv (st : @loopState D) :
  stackInv st ->
  match iteration st with
  | Continue st' => stackInv st'
  | Break _ => True
  | IterPanic => False
  end.
Proof.
  intros (Hlen & Hhead & Hn). unfold iteration, XMLDecoder_Token.
  destruct (pending (ls_x st)) as [|[t o] rest] eqn:Ep; [done|].
  pose proof (namedEnds_tail _ _ Hn) as Hrest.
  destruct t; simpl.
  - destruct (decoder_Child _ _ _) as [tmp|].
    + destruct (decoder_Start tmp attr _) as [cur sc'].
      apply checkErr_stackInv. repeat split; simpl; try done.
      * rewrite !length_app. simpl. lia.
      * by rewrite head_snoc_snoc.
    + unfold XMLDecoder_Skip. simpl.
      destruct (skipLoop 0 rest) as [[rest' o']|] eqn:Es;
        apply checkErr_stackInv; repeat split; simpl; try done.
      * apply skipLoop_suffix in Es as [pre ->]. by eapply namedEnds_suffix.
      * intros o0 Hin. by apply elem_of_nil in Hin.
  - destruct (decide (currentName st = name)) as [Heq|Hne].
    + destruct (snoc_cases (state st)) as [Est|(ss & s0 & Est)]; rewrite Est in *.
      * (* the stack is empty: the end element would have the empty name *)
        exfalso. destruct (names st); [|done]. simpl in Hhead.
        injection Hhead as Hc. apply (Hn o). rewrite <- Heq, Hc. apply elem_of_cons. by left.
      * destruct (snoc_cases (names st)) as [Ens|(ns & n0 & Ens)]; rewrite Ens in *;
          [rewrite length_app in Hlen; simpl in Hlen; lia|].
        rewrite !pop_snoc.
        rewrite !length_app in Hlen. simpl in Hlen.
        assert (head (ns ++ [n0]) = Some noName) as Hh by (by rewrite head_snoc_snoc in Hhead).
        destruct (checkCancel _ _ _ _) as [[sc2 ctx2] next].
        apply checkErr_stackInv. repeat split; simpl; try done. lia.
    + destruct (checkCancel _ _ _ _) as [[sc2 ctx2] next].
      apply checkErr_stackInv. repeat split; simpl; done.
  - destruct (decoder_Text _ _ _) as [cur sc'].
    apply checkErr_stackInv. repeat split; done.
  - repeat split; done.
  - repeat split; done.
  - repeat split; done.
Qed.

Lemma loop_no_panic n : forall st : @loopState D, stackInv st -> loop n st <> Panics.
Proof.
  induction n as [|n IH]; intros st Hinv; [done|]. simpl.
  pose proof (iteration_stackInv st Hinv) as Hit.
  destruct (iteration st); try done. by apply IH.
Qed.

Lemma decodeModelFile_not_panics ctx (x : XMLDecoder) model path isRoot strict :
  namedEnds (pending x) ->
  decodeModelFile ctx x model path isRoot strict <> Panics.
Proof.
  intros Hn. unfold decodeModelFile.
  assert (run (initialState ctx x model path isRoot strict) <> Panics) as Hp.
  { apply loop_no_panic. repeat split; done. }
  by destruct (run _) as [st| |].
Qed.

(** X1. A token stream in which no end element has the empty name is
    scanned without panic: [decodeModelFile] returns a scanner, whatever
    the node decoders, the context and the rest of the stream. *)
Theorem decodeModelFile_returns ctx (x : XMLDecoder) model path isRoot strict :
  namedEnds (pending x) ->
  exists sc ctx', decodeModelFile ctx x model path isRoot strict = Returns (sc, ctx').
Proof.
  intros Hn.
  pose proof (decodeModelFile_not_panics ctx x model path isRoot strict Hn) as Hp.
  pose proof (decodeModelFile_total ctx x model path isRoot strict) as Ht.
  destruct (decodeModelFile _ _ _ _ _ _) as [[sc ctx']| |]; try done. by eexists _, _.
Qed.

Lemma checkErr_withCtx c (st : @loopState D) :
  checkErr (withCtx c st) =
  match checkErr st with
  | Continue st' => Continue (withCtx c st')
  | Break st' => Break (withCtx c st')
  | IterPanic => IterPanic
  end.
Proof. unfold checkErr. simpl. by destruct (Err _). Qed.

Lemma checkErr_same (st st' : @loopState D) :
  checkErr st = Continue st' \/ checkErr st = Break st' -> st' = st.
Proof. unfold checkErr. destruct (Err _); intros [?|?]; by simplify_eq. Qed.

Lemma checkCancel_small x sc ctx :
  InputOffset x <= checkEveryBytes ->
  checkCancel x sc ctx checkEveryBytes = (sc, ctx, checkEveryBytes).
Proof.
  intros Ho. unfold checkCancel.
  destruct (Z.ltb_spec checkEveryBytes (InputOffset x)); [lia|done].
Qed.

Lemma lastOffset_small toks o :
  belowFirstCheck toks -> o <= checkEveryBytes -> lastOffset toks o <= checkEveryBytes.
Proof.
  intros Hb Ho. unfold lastOffset. destruct (last toks) as [[t o']|] eqn:El; [|done].
  apply last_Some_elem_of in El. unfold belowFirstCheck in Hb.
  rewrite Forall_forall in Hb. by apply Hb in El.
Qed.

(** Below the threshold an iteration does not look at the context. *)
Lemma iteration_small c (st : @loopState D) :
  smallInv st ->
  match iteration st with
  | Continue st' =>
      iteration (withCtx c st) = Continue (withCtx c st') /\ smallInv st' /\
      ls_ctx st' = ls_ctx st
  | Break st' => iteration (withCtx c st) = Break (withCtx c st') /\ ls_ctx st' = ls_ctx st
  | IterPanic => iteration (withCtx c st) = IterPanic
  end.
Proof.
  intros [Hnext Hb]. unfold iteration, XMLDecoder_Token. simpl.
  destruct (pending (ls_x st)) as [|[t o] rest] eqn:Ep; [done|].
  apply Forall_cons in Hb as [Ho Hb]. simpl in Ho.
  assert (forall st1 : @loopState D,
    nextBytesCheck st1 = checkEveryBytes -> belowFirstCheck (pending (ls_x st1)) ->
    ls_ctx st1 = ls_ctx st ->
    match checkErr st1 with
    | Continue st' =>
        checkErr (withCtx c st1) = Continue (withCtx c st') /\ smallInv st' /\
        ls_ctx st' = ls_ctx st
    | Break st' => checkErr (withCtx c st1) = Break (withCtx c st') /\ ls_ctx st' = ls_ctx st
    | IterPanic => checkErr (withCtx c st1) = IterPanic
    end) as Hend.
  { intros st1 H1 H2 H3. rewrite checkErr_withCtx. unfold checkErr.
    destruct (Err _); repeat split; done. }
  destruct t.
  - destruct (decoder_Child _ _ _) as [tmp|].
    + destruct (decoder_Start tmp attr _) as [cur sc']. by apply Hend.
    + unfold XMLDecoder_Skip. simpl.
      destruct (skipLoop 0 rest) as [[rest' o']|] eqn:Es; apply Hend; simpl; try done.
      * apply skipLoop_suffix in Es as [pre ->]. by apply Forall_app in Hb as [_ ?].
      * apply Forall_nil_2.
  - rewrite Hnext.
    destruct (decide (currentName st = name)) as [Heq|Hne].
    + destruct (pop (state st)) as [[cur state']|]; [|done].
      destruct (pop (names st)) as [[cname names']|]; [|done].
      rewrite !checkCancel_small by done. by apply Hend.
    + rewrite !checkCancel_small by done. by apply Hend.
  - destruct (decoder_Text _ _ _) as [cur sc']. by apply Hend.
  - by apply Hend.
  - by apply Hend.
  - by apply Hend.
Qed.

Lemma loop_small c n : forall st st' : @loopState D,
  smallInv st -> loop n st = Returns st' ->
  loop n (withCtx c st) = Returns (withCtx c st') /\ ls_ctx st' = ls_ctx st.
Proof.
  induction n as [|n IH]; intros st st' Hinv Hl; [done|]. simpl in *.
  pose proof (iteration_small c st Hinv) as Hit.
  destruct (iteration st) as [st1|st1|].
  - destruct Hit as (-> & Hinv1 & Hc). destruct (IH st1 st' Hinv1 Hl) as [-> Hc'].
    split; [done|congruence].
  - destruct Hit as [-> Hc]. by simplify_eq.
  - done.
Qed.

Lemma decodeModelFile_small ctx ctx2 (x : XMLDecoder) model path isRoot strict sc ctx' :
  belowFirstCheck (pending x) ->
  decodeModelFile ctx x model path isRoot strict = Returns (sc, ctx') ->
  ctx' = ctx /\
  decodeModelFile ctx2 x model path isRoot strict = Returns (sc, ctx2).
Proof.
  intros Hb Hr. unfold decodeModelFile in *.
  destruct (run (initialState ctx x model path isRoot strict)) as [st| |] eqn:Hl;
    [|done|done].
  change (Returns (clearEOF (ls_scanner st), ls_ctx st) = Returns (sc, ctx')) in Hr.
  simplify_eq.
  assert (@smallInv D (initialState ctx x model path isRoot strict)) as Hinv by done.
  destruct (loop_small ctx2 _ _ _ Hinv Hl) as [Hl2 Hc].
  split; [done|].
  assert (run (initialState ctx2 x model path isRoot strict) = Returns (withCtx ctx2 st))
    as -> by exact Hl2.
  done.
Qed.

(** X2. A part whose tokens all end within the first [checkEveryBytes]
    bytes is decoded without a look at the context: the context comes back
    as it was given, and any other context gives the same scanner. *)
Theorem small_part_never_polls ctx ctx2 (x : XMLDecoder) model path isRoot strict sc ctx' :
  belowFirstCheck (pending x) ->
  decodeModelFile ctx x model path isRoot strict = Returns (sc, ctx') ->
  ctx' = ctx /\
  decodeModelFile ctx2 x model path isRoot strict = Returns (sc, ctx2).
Proof. apply decodeModelFile_small. Qed.

End EngineMore.

(** ** The token loop and the polls of the context *)

Section EnginePolls.
Import Reader ReaderSpec.
Context {D : Type} `{NodeDecoder D}.

Lemma checkCancel_polls x sc ctx next :
  let '(sc2, ctx2, _) := checkCancel x sc ctx next in
  ctxErr ctx2 = ctxErr ctx /\
  ((sc2 = sc /\ (ctx2 = ctx \/ polls ctx = false :: polls ctx2)) \/
   (sc2 = setErr (Some (ctxErr ctx)) sc /\ polls ctx = true :: polls ctx2)).
Proof.
  unfold checkCancel, Done. destruct (_ <? _); [|by auto].
  destruct (polls ctx) as [|[|] rest] eqn:Ep; simpl; auto.
Qed.

Lemma checkErr_cases (st : @loopState D) :
  (checkErr st = Continue st /\ Err (ls_scanner st) = None) \/
  (checkErr st = Break st /\ Err (ls_scanner st) <> None).
Proof. unfold checkErr. destruct (Err _); [right|left]; done. Qed.

(** What an iteration does to the context: it leaves it alone, or it uses
    one poll; after a poll that answered done it stops with the error of
    the context. *)
Lemma iteration_polls (st : @loopState D) :
  match iteration st with
  | Continue st1 => usedPolls (ls_ctx st) (ls_ctx st1) [] \/
                    usedPolls (ls_ctx st) (ls_ctx st1) [false]
  | Break st1 => usedPolls (ls_ctx st) (ls_ctx st1) [] \/
                 usedPolls (ls_ctx st) (ls_ctx st1) [false] \/
                 (usedPolls (ls_ctx st) (ls_ctx st1) [true] /\
                  Err (ls_scanner st1) = Some (ctxErr (ls_ctx st)))
  | IterPanic => True
  end.
Proof.
  assert (forall st1 : @loopState D, ls_ctx st1 = ls_ctx st ->
    match checkErr st1 with
    | Continue st1 => usedPolls (ls_ctx st) (ls_ctx st1) [] \/
                      usedPolls (ls_ctx st) (ls_ctx st1) [false]
    | Break st1 => usedPolls (ls_ctx st) (ls_ctx st1) [] \/
                   usedPolls (ls_ctx st) (ls_ctx st1) [false] \/
                   (usedPolls (ls_ctx st) (ls_ctx st1) [true] /\
                    Err (ls_scanner st1) = Some (ctxErr (ls_ctx st)))
    | IterPanic => True
    end) as Hsame.
  { intros st1 Hc. unfold checkErr. destruct (Err _); left; by rewrite Hc. }
  assert (forall x sc (cur : @decoder D) cname state' names',
    let '(sc2, ctx, next) := checkCancel x sc (ls_ctx st) (nextBytesCheck st) in
    match checkErr (MkLoopState x sc2 ctx cur cname state' names' next) with
    | Continue st1 => usedPolls (ls_ctx st) (ls_ctx st1) [] \/
                      usedPolls (ls_ctx st) (ls_ctx st1) [false]
    | Break st1 => usedPolls (ls_ctx st) (ls_ctx st1) [] \/
                   usedPolls (ls_ctx st) (ls_ctx st1) [false] \/
                   (usedPolls (ls_ctx st) (ls_ctx st1) [true] /\
                    Err (ls_scanner st1) = Some (ctxErr (ls_ctx st)))
    | IterPanic => True
    end) as Hcancel.
  { intros x sc cur cname state' names'.
    pose proof (checkCancel_polls x sc (ls_ctx st) (nextBytesCheck st)) as Hp.
    destruct (checkCancel _ _ _ _) as [[sc2 ctx2] next].
    destruct Hp as [He [[-> [->|Hp]]|[-> Hp]]]; unfold checkErr; simpl.
    - destruct (Err sc); by left.
    - destruct (Err sc); [right; left|right]; done.
    - right; right. done. }
  unfold iteration, XMLDecoder_Token.
  destruct (pending (ls_x st)) as [|[t o] rest]; [by left|].
  destruct t.
  - destruct (decoder_Child _ _ _) as [tmp|].
    + destruct (decoder_Start tmp attr _) as [cur sc']. by apply Hsame.
    + destruct (XMLDecoder_Skip _) as [err x']. by apply Hsame.
  - destruct (decide (currentName st = name)).
    + destruct (pop (state st)) as [[cur state']|]; [|done].
      destruct (pop (names st)) as [[cname names']|]; [|done].
      match goal with
      | |- context [checkCancel ?a ?b ?c ?d] =>
          pose proof (Hcancel a b cur cname state' names') as Hc;
          by destruct (checkCancel a b c d) as [[? ?] ?]
      end.
    + match goal with
      | |- context [checkCancel ?a ?b ?c ?d] =>
          pose proof (Hcancel a b (currentDecoder st) (currentName st) (state st) (names st))
            as Hc;
          by destruct (checkCancel a b c d) as [[? ?] ?]
      end.
  - destruct (decoder_Text _ _ _) as [cur sc']. by apply Hsame.
  - by apply Hsame.
  - by apply Hsame.
  - by apply Hsame.
Qed.

Lemma usedPolls_trans c1 c2 c3 u v :
  usedPolls c1 c2 u -> usedPolls c2 c3 v -> usedPolls c1 c3 (u ++ v).
Proof. intros [Hp He] [Hp' He']. split; [by rewrite Hp, Hp', app_assoc|congruence]. Qed.

Lemma loop_polls n : forall st st' : @loopState D,
  loop n st = Returns st' ->
  exists used, usedPolls (ls_ctx st) (ls_ctx st') used /\
    (Forall (fun b => b = false) used \/
     exists rest, used = rest ++ [true] /\ Forall (fun b => b = false) rest /\
       Err (ls_scanner st') = Some (ctxErr (ls_ctx st))).
Proof.
  induction n as [|n IH]; intros st st' Hl; [done|]. simpl in Hl.
  pose proof (iteration_polls st) as Hit.
  destruct (iteration st) as [st1|st1|]; [| |done].
  - destruct (IH _ _ Hl) as (used & Hu & Hrest).
    assert (exists pre, usedPolls (ls_ctx st) (ls_ctx st1) pre /\
              Forall (fun b => b = false) pre) as (pre & Hpre & Hf).
    { destruct Hit; [exists []|exists [false]]; split; auto. }
    exists (pre ++ used). split; [by eapply usedPolls_trans|].
    destruct Hrest as [Hall|(rest & -> & Hall & He)].
    + left. by apply Forall_app.
    + right. exists (pre ++ rest). split; [by rewrite app_assoc|].
      split; [by apply Forall_app|]. destruct Hpre as [_ <-]. done.
  - simplify_eq. destruct Hit as [Hu|[Hu|[Hu He]]].
    + exists []. split; [done|]. by left.
    + exists [false]. split; [done|]. left. auto.
    + exists [true]. split; [done|]. right. exists []. auto.
Qed.

(** X3. Of the answers the context gives, the scan of a part uses a run of
    not-done answers and at most one done answer, which is the last one it
    uses: then it stops with the error of the context as the error of the
    scanner, and no token is read after it. *)
Theorem done_poll_stops_scan ctx (x : XMLDecoder) model path isRoot strict sc ctx' :
  ctxErr ctx <> io_EOF ->
  decodeModelFile ctx x model path isRoot strict = Returns (sc, ctx') ->
  exists used, usedPolls ctx ctx' used /\
    (Forall (fun b => b = false) used \/
     exists rest, used = rest ++ [true] /\ Forall (fun b => b = false) rest /\
       Err sc = Some (ctxErr ctx)).
Proof.
  intros Hne Hr. unfold decodeModelFile in Hr.
  destruct (run (initialState ctx x model path isRoot strict)) as [st| |] eqn:Hl;
    [|done|done].
  change (Returns (clearEOF (ls_scanner st), ls_ctx st) = Returns (sc, ctx')) in Hr.
  simplify_eq.
  destruct (loop_polls _ _ _ Hl) as (used & Hu & Hrest).
  exists used. split; [done|].
  destruct Hrest as [Hall|(rest & -> & Hall & He)]; [by left|].
  right. exists rest. repeat split; try done.
  unfold clearEOF. simpl in He. rewrite He. by rewrite decide_False by congruence.
Qed.

End EnginePolls.

(** ** The discovery of the auxiliary parts *)

Section WalkMore.
Import Reader ReaderSpec.
Context {F : Type} `{PackageFile F} `{CaseFold}.

Lemma extractRel_nonroot modelFile (st : Decoder F * Model) rel :
  let st' := extractRel modelFile false st rel in
  fst st' = fst st /\ sameChildKeys (snd st) (snd st') /\
  m_Path (snd st') = m_Path (snd st).
Proof.
  destruct st as [d model]. unfold extractRel, sameChildKeys.
  destruct (pf_FindFileFromName modelFile (r_Path rel)); [|done]. simpl.
  destruct (decide (r_Type rel = RelType3DModel)); [done|].
  destruct (m_Childs model !! pf_Name modelFile) as [child|] eqn:Ec; [|done].
  simpl. repeat split; try done.
  - intros Hk. apply lookup_insert_is_Some in Hk as [<-|[_ Hk]]; [by eexists|done].
  - intros Hk. apply lookup_insert_is_Some.
    destruct (decide (pf_Name modelFile = k)); [by left|by right].
Qed.

Lemma extractCoreAttachments_nonroot modelFile (st : Decoder F * Model) :
  let st' := extractCoreAttachments modelFile false st in
  fst st' = fst st /\ sameChildKeys (snd st) (snd st') /\
  m_Path (snd st') = m_Path (snd st).
Proof.
  unfold extractCoreAttachments.
  apply (fold_left_preserves (fun st' : Decoder F * Model =>
    fst st' = fst st /\ sameChildKeys (snd st) (snd st') /\
    m_Path (snd st') = m_Path (snd st))); [done|].
  intros st1 rel (Hd & Hk & Hp).
  destruct (extractRel_nonroot modelFile st1 rel) as (Hd' & Hk' & Hp').
  repeat split; try congruence.
  - intros Hs. by apply Hk, Hk'.
  - intros Hs. by apply Hk', Hk.
Qed.

Lemma childrenKnown_nonroot modelFile (st : Decoder F * Model) :
  childrenKnown st -> childrenKnown (extractCoreAttachments modelFile false st).
Proof.
  intros Hc f Hin.
  destruct (extractCoreAttachments_nonroot modelFile st) as (Hd & Hk & _).
  rewrite Hd in Hin. by apply Hk, Hc.
Qed.

Lemma fold_nonroot files : forall st : Decoder F * Model,
  let st' := fold_left (fun st file => extractCoreAttachments file false st) files st in
  fst st' = fst st /\ (childrenKnown st -> childrenKnown st') /\
  m_Path (snd st') = m_Path (snd st).
Proof.
  induction files as [|f files IH]; intros st; simpl; [done|].
  destruct (IH (extractCoreAttachments f false st)) as (Hd & Hc & Hp).
  destruct (extractCoreAttachments_nonroot f st) as (Hd' & _ & Hp').
  repeat split; try congruence.
  intros Hk. by apply Hc, childrenKnown_nonroot.
Qed.

Lemma fold_extractRel_root root rels : forall st : Decoder F * Model,
  let st' := fold_left (extractRel root true) rels st in
  d_nonRootModels (fst st') =
    d_nonRootModels (fst st)
    ++ omap (fun rel => pf_FindFileFromName root (r_Path rel)) (modelRels rels) /\
  (childrenKnown st -> childrenKnown st') /\
  m_Path (snd st') = m_Path (snd st).
Proof.
  induction rels as [|rel rels IH]; intros [d model]; simpl.
  - by rewrite app_nil_r.
  - unfold modelRels. rewrite filter_cons. fold (modelRels rels).
    destruct (pf_FindFileFromName root (r_Path rel)) as [file|] eqn:Ef; simpl.
    + destruct (decide (r_Type rel = RelType3DModel)) as [Ht|Ht].
      * destruct (IH (addNonRootModel file d,
          setChilds (<[pf_Name file := MkChildModel [] []]> (m_Childs model)) model))
          as (Hn & Hc & Hp).
        simpl in *. rewrite Ef. simpl. rewrite Hn, <- app_assoc.
        repeat split; try done.
        intros Hk. apply Hc. intros f Hin. simpl in *.
        apply lookup_insert_is_Some.
        destruct (decide (pf_Name file = pf_Name f)); [by left|right]. split; [done|].
        apply elem_of_app in Hin as [Hin|Hin]; [by apply Hk|].
        apply list_elem_of_singleton in Hin. congruence.
      * destruct (IH (d, setRelationships (m_Relationships model ++ [rel])
          (setAttachments (addAttachment (m_Attachments model) file) model)))
          as (Hn & Hc & Hp).
        repeat split; done.
    + destruct (IH (d, model)) as (Hn & Hc & Hp).
      destruct (decide (r_Type rel = RelType3DModel)); simpl; [rewrite Ef|]; done.
Qed.

Lemma extractCoreAttachments_root root (st : Decoder F * Model) :
  let st' := extractCoreAttachments root true st in
  d_nonRootModels (fst st') = d_nonRootModels (fst st) ++ modelTargets root /\
  (childrenKnown st -> childrenKnown st') /\
  m_Path (snd st') = m_Path (snd st).
Proof. apply fold_extractRel_root. Qed.

Lemma processRelationships_roots rels : forall p rootFile (d : Decoder F) model root d' model',
  d_p d = p ->
  processRelationships rels rootFile d model = (inr root, d', model') ->
  let roots := omap (fun rel => p_FindFileFromName p (r_Path rel)) (modelRels rels) in
  root = from_option Some rootFile (last roots) /\
  d_nonRootModels d' = d_nonRootModels d ++ flat_map modelTargets roots /\
  m_Path model' = from_option pf_Name (m_Path model) (last roots) /\
  (childrenKnown (d, model) -> childrenKnown (d', model')).
Proof.
  induction rels as [|r rest IH]; intros p rootFile d model root d' model' Hp Hr; simpl in Hr.
  - simplify_eq. simpl. by rewrite app_nil_r.
  - unfold modelRels. rewrite filter_cons. fold (modelRels rest).
    destruct (decide (r_Type r = RelType3DModel)) as [Ht|Ht].
    + rewrite Hp in Hr.
      destruct (p_FindFileFromName p (r_Path r)) as [root0|] eqn:Ef; [|done].
      set (st0 := (d, setPath (pf_Name root0) model)) in *.
      set (st1 := extractCoreAttachments root0 true st0) in *.
      destruct (extractCoreAttachments_root root0 st0) as (Hn1 & Hc1 & Hp1).
      destruct (extractCoreAttachments_inv root0 true st0) as [(_&_&_&_&_&Hdp&_) _].
      destruct (fold_nonroot (d_nonRootModels (fst st1)) st1) as (Hd2 & Hc2 & Hp2).
      fold st1 in Hn1, Hc1, Hp1, Hdp.
      destruct (fold_left _ (d_nonRootModels (fst st1)) st1) as [d2 model2] eqn:Efold.
      simpl in Hd2, Hp2.
      assert (d_p d2 = p) as Hp' by (rewrite Hd2, Hdp; done).
      destruct (IH p (Some root0) d2 model2 root d' model' Hp' Hr) as (Hroot & Hn & Hpath & Hc).
      simpl. rewrite Ef. simpl. rewrite last_cons.
      destruct (last _) as [rl|] eqn:El; simpl in *.
      * rewrite Hn, Hd2, Hn1, <- app_assoc. repeat split; try done.
        intros Hk. by apply Hc, Hc2, Hc1.
      * rewrite Hn, Hd2, Hn1, <- app_assoc. rewrite Hpath, Hp2, Hp1. repeat split; try done.
        intros Hk. by apply Hc, Hc2, Hc1.
    + destruct (p_FindFileFromName (d_p d) (r_Path r)) as [att|].
      * destruct (IH p rootFile d _ root d' model' Hp Hr) as (Hroot & Hn & Hpath & Hc).
        repeat split; done.
      * by apply (IH p rootFile d model).
Qed.

(** X4. When [processOPC] succeeds, the root part it returns is the target
    of the last model relationship of the package and the model has the
    path of that part; the auxiliary parts the decoder has gained are the
    targets of the model relationships of the root parts, in the order of
    the relationships: the model relationships of an auxiliary part are not
    followed. *)
Theorem processOPC_discovery (d : Decoder F) (model : Model) root d' model' :
  processOPC d model = (inr root, d', model') ->
  last (packageRoots (d_p d)) = Some root /\
  m_Path model' = pf_Name root /\
  d_nonRootModels d' = d_nonRootModels d ++ flat_map modelTargets (packageRoots (d_p d)).
Proof.
  unfold processOPC. destruct (p_Open (d_p d)); [done|].
  destruct (processRelationships _ None d model) as [[[err|[root0|]] d1] model1] eqn:Hr;
    try done.
  intros ?. simplify_eq.
  destruct (processRelationships_roots _ _ _ _ _ _ _ _ eq_refl Hr) as (Hroot & Hn & Hpath & _).
  fold (packageRoots (d_p d)) in *.
  destruct (last (packageRoots (d_p d))) as [rl|]; simpl in *; [|done].
  by simplify_eq.
Qed.

Lemma processOPC_childrenKnown (d : Decoder F) (model : Model) root d' model' :
  processOPC d model = (inr root, d', model') ->
  childrenKnown (d, model) -> childrenKnown (d', model').
Proof.
  unfold processOPC. destruct (p_Open (d_p d)); [done|].
  destruct (processRelationships _ None d model) as [[[err|[root0|]] d1] model1] eqn:Hr;
    try done.
  intros ?. simplify_eq.
  by destruct (processRelationships_roots _ _ _ _ _ _ _ _ eq_refl Hr) as (_ & _ & _ & Hc).
Qed.

Lemma extractRel_rootRels modelFile isRoot (st : Decoder F * Model) rel :
  m_RootRelationships (snd (extractRel modelFile isRoot st rel))
  = m_RootRelationships (snd st).
Proof. destruct st as [d model]. unfold extractRel. by repeat case_match. Qed.

Lemma extractCoreAttachments_rootRels modelFile isRoot (st : Decoder F * Model) :
  m_RootRelationships (snd (extractCoreAttachments modelFile isRoot st))
  = m_RootRelationships (snd st).
Proof.
  unfold extractCoreAttachments.
  apply (fold_left_preserves (fun st' : Decoder F * Model =>
    m_RootRelationships (snd st') = m_RootRelationships (snd st))); [done|].
  intros st1 rel <-. apply extractRel_rootRels.
Qed.

Lemma processRelationships_rootRels rels :
  forall p rootFile (d : Decoder F) model root d' model',
  d_p d = p ->
  processRelationships rels rootFile d model = (inr root, d', model') ->
  m_RootRelationships model' = m_RootRelationships model ++ keptRelationships p rels.
Proof.
  unfold keptRelationships.
  induction rels as [|r rest IH]; intros p rootFile d model root d' model' Hp Hr; simpl in Hr.
  - simplify_eq. by rewrite app_nil_r.
  - rewrite filter_cons. destruct (decide (r_Type r = RelType3DModel)) as [Ht|Ht].
    + rewrite decide_False by tauto. rewrite Hp in Hr.
      destruct (p_FindFileFromName p (r_Path r)) as [root0|] eqn:Ef; [|done].
      set (st0 := (d, setPath (pf_Name root0) model)) in *.
      set (st1 := extractCoreAttachments root0 true st0) in *.
      destruct (extractCoreAttachments_inv root0 true st0) as [(_&_&_&_&_&Hdp&_) _].
      destruct (fold_nonroot (d_nonRootModels (fst st1)) st1) as (Hd2 & _ & _).
      pose proof (fold_left_preserves (fun st' : Decoder F * Model =>
        m_RootRelationships (snd st') = m_RootRelationships model)
        (fun st file => extractCoreAttachments file false st)
        (d_nonRootModels (fst st1)) st1) as Hrr.
      fold st1 in Hdp.
      destruct (fold_left _ (d_nonRootModels (fst st1)) st1) as [d2 model2] eqn:Efold.
      simpl in Hd2, Hrr.
      assert (d_p d2 = p) as Hp' by (rewrite Hd2, Hdp; done).
      rewrite (IH p (Some root0) d2 model2 root d' model' Hp' Hr). f_equal.
      apply Hrr.
      * unfold st1. by rewrite extractCoreAttachments_rootRels.
      * intros st' file <-. apply extractCoreAttachments_rootRels.
    + rewrite Hp in Hr. destruct (p_FindFileFromName p (r_Path r)) as [att|] eqn:Ef.
      * rewrite decide_True by (split; [done|by eexists]).
        rewrite (IH p rootFile d _ root d' model' Hp Hr). simpl.
        by rewrite <- app_assoc.
      * rewrite decide_False by (intros [_ [? ?]]; done).
        by apply (IH p rootFile d model root d' model').
Qed.

(** X24. When [processOPC] succeeds, the root relationships of the model
    have grown by the package relationships that are not of the 3D-model
    type and whose target is in the package, in the order of the package;
    a relationship whose target is missing is dropped without an error,
    and the walks over the model parts add nothing to them. *)
Theorem processOPC_root_relationships (d : Decoder F) (model : Model) root d' model' :
  processOPC d model = (inr root, d', model') ->
  m_RootRelationships model' =
    m_RootRelationships model ++ keptRelationships (d_p d) (p_Relationships (d_p d)).
Proof.
  unfold processOPC. destruct (p_Open (d_p d)); [done|].
  destruct (processRelationships _ None d model) as [[[err|[root0|]] d1] model1] eqn:Hr;
    try done.
  intros ?. simplify_eq. by eapply processRelationships_rootRels.
Qed.

End WalkMore.

(** ** The path of the scanner *)

Section EnginePath.
Import Reader ReaderSpec.
Context {D : Type} `{NodeDecoder D}.
Hypothesis Hhooks : hooksKeepPath.

Lemma decoder_Start_path (cur : @decoder D) attr sc :
  ModelPath (snd (decoder_Start cur attr sc)) = ModelPath sc.
Proof.
  destruct cur; simpl; [done|]. destruct Hhooks as (Hs & _).
  specialize (Hs d attr sc). by destruct (Start d attr sc).
Qed.

Lemma decoder_Text_path (cur : @decoder D) data sc :
  ModelPath (snd (decoder_Text cur data sc)) = ModelPath sc.
Proof.
  destruct cur; simpl; [done|]. destruct Hhooks as (_ & Ht & _).
  specialize (Ht d data sc). by destruct (Text d data sc).
Qed.

Lemma decoder_End_path (cur : @decoder D) sc : ModelPath (decoder_End cur sc) = ModelPath sc.
Proof. destruct cur; simpl; [done|]. by destruct Hhooks as (_ & _ & He). Qed.

Lemma checkCancel_path x sc ctx next :
  ModelPath (fst (fst (checkCancel x sc ctx next))) = ModelPath sc.
Proof.
  unfold checkCancel. destruct (_ <? _); [|done].
  destruct (Done ctx) as [[|] ctx']; done.
Qed.

Lemma iteration_path (st : @loopState D) :
  match iteration st with
  | Continue st' | Break st' => ModelPath (ls_scanner st') = ModelPath (ls_scanner st)
  | IterPanic => True
  end.
Proof.
  assert (forall st1 : @loopState D,
    ModelPath (ls_scanner st1) = ModelPath (ls_scanner st) ->
    match checkErr st1 with
    | Continue st' | Break st' => ModelPath (ls_scanner st') = ModelPath (ls_scanner st)
    | IterPanic => True
    end) as Hend.
  { intros st1 Hp. unfold checkErr. by destruct (Err _). }
  unfold iteration, XMLDecoder_Token.
  destruct (pending (ls_x st)) as [|[t o] rest]; [done|].
  destruct t.
  - destruct (decoder_Child _ _ _) as [tmp|].
    + pose proof (decoder_Start_path tmp attr
        (setElement (Local name) (setErr None (ls_scanner st)))) as Hp.
      destruct (decoder_Start tmp attr _) as [cur sc']. by apply Hend.
    + destruct (XMLDecoder_Skip _) as [err x']. by apply Hend.
  - destruct (decide (currentName st = name)).
    + destruct (pop (state st)) as [[cur state']|]; [|done].
      destruct (pop (names st)) as [[cname names']|]; [|done].
      match goal with
      | |- context [checkCancel ?a ?b ?c ?d] =>
          pose proof (checkCancel_path a b c d) as Hp;
          destruct (checkCancel a b c d) as [[? ?] ?]
      end.
      apply Hend. simpl in *. by rewrite Hp, decoder_End_path.
    + match goal with
      | |- context [checkCancel ?a ?b ?c ?d] =>
          pose proof (checkCancel_path a b c d) as Hp;
          destruct (checkCancel a b c d) as [[? ?] ?]
      end.
      by apply Hend.
  - pose proof (decoder_Text_path (currentDecoder st) data (setErr None (ls_scanner st)))
      as Hp.
    destruct (decoder_Text _ _ _) as [cur sc']. by apply Hend.
  - by apply Hend.
  - by apply Hend.
  - by apply Hend.
Qed.

Lemma loop_path n : forall st st' : @loopState D,
  loop n st = Returns st' -> ModelPath (ls_scanner st') = ModelPath (ls_scanner st).
Proof.
  induction n as [|n IH]; intros st st' Hl; [done|]. simpl in Hl.
  pose proof (iteration_path st) as Hit.
  destruct (iteration st) as [st1|st1|]; [| |done].
  - rewrite (IH _ _ Hl). done.
  - by simplify_eq.
Qed.

Lemma decodeModelFile_path ctx (x : XMLDecoder) model path isRoot strict sc ctx' :
  decodeModelFile ctx x model path isRoot strict = Returns (sc, ctx') ->
  ModelPath sc = path.
Proof.
  intros Hr. unfold decodeModelFile in Hr.
  destruct (run (initialState ctx x model path isRoot strict)) as [st| |] eqn:Hl;
    [|done|done].
  change (Returns (clearEOF (ls_scanner st), ls_ctx st) = Returns (sc, ctx')) in Hr.
  simplify_eq. apply loop_path in Hl. unfold clearEOF.
  destruct (decide _); simpl; by rewrite Hl.
Qed.

End EnginePath.

(** ** [DecodeContext] does not panic *)

Section NoPanic.
Import Reader ReaderSpec.
Context {F : Type} `{PackageFile F} {D : Type} `{NodeDecoder D} `{CaseFold}.

Lemma mapM_lookup {A B} (f : A -> outcome B) l : forall bs,
  mapM f l = Returns bs ->
  length bs = length l /\
  forall k b, bs !! k = Some b -> exists a, l !! k = Some a /\ f a = Returns b.
Proof.
  induction l as [|a l IH]; intros bs Hm; simpl in Hm.
  - by simplify_eq.
  - destruct (f a) as [b0| |] eqn:Hf; simpl in Hm; try done.
    destruct (mapM f l) as [bs0| |]; simpl in Hm; try done. simplify_eq.
    destruct (IH bs0 eq_refl) as [Hlen Hk]. split; [simpl; by rewrite Hlen|].
    intros [|k] b Hb; simpl in *; [simplify_eq; by exists a|by apply Hk].
Qed.

Lemma mapM_not_panics {A B} (f : A -> outcome B) l :
  (forall a, a ∈ l -> f a <> Panics) -> mapM f l <> Panics.
Proof.
  induction l as [|a l IH]; intros Hf; simpl; [done|].
  pose proof (Hf a ltac:(elem)) as Ha. destruct (f a); simpl; try done.
  assert (mapM f l <> Panics) as Hl by (apply IH; intros; apply Hf; elem).
  by destruct (mapM f l).
Qed.

(** What [readChildModel] returns: no scanner and an error, or a scanner
    with the name of the part as its path and its error. *)
Lemma readChildModel_shape ctx i (d : Decoder F) model f e :
  hooksKeepPath ->
  readChildModel ctx i d model = Returns (f, e) ->
  exists a, d_nonRootModels d !! i = Some a /\
    ((f = None /\ e <> None) \/
     exists sc, f = Some sc /\ ModelPath sc = pf_Name a /\ e = Err sc).
Proof.
  intros Hh. unfold readChildModel.
  destruct (d_nonRootModels d !! i) as [a|]; [|done].
  destruct (pf_Open a) as [err|file].
  - intros ?. simplify_eq. exists a. split; [done|]. by left.
  - destruct (decodeModelFile _ _ _ _ _ _) as [[sc ctx']| |] eqn:Hd; simpl; try done.
    intros ?. simplify_eq. exists a. split; [done|]. right. exists sc.
    repeat split. by eapply decodeModelFile_path.
Qed.

Lemma readChildModel_not_panics ctx i (d : Decoder F) model :
  (forall rc, namedEnds (pending (d_x d rc))) ->
  (i < length (d_nonRootModels d))%nat ->
  readChildModel ctx i d model <> Panics.
Proof.
  intros Hn Hi. unfold readChildModel.
  destruct (lookup_lt_is_Some_2 (d_nonRootModels d) i Hi) as [a ->].
  destruct (pf_Open a) as [err|file]; [done|].
  pose proof (decodeModelFile_not_panics ctx (d_x d file) model (pf_Name a) false
                (d_Strict d) (Hn file)) as Hp.
  by destruct (decodeModelFile _ _ _ _ _ _) as [[sc ctx']| |].
Qed.

Lemma addChildModelFile_keys p (st : Decoder F * Model) :
  is_Some (m_Childs (snd st) !! ModelPath p) ->
  exists st', addChildModelFile p st = Returns st' /\
    sameChildKeys (snd st) (snd st') /\ d_x (fst st') = d_x (fst st).
Proof.
  destruct st as [d model]. simpl. intros [child Hc]. unfold addChildModelFile.
  rewrite Hc. eexists. split; [done|]. split; [|done]. intros k. simpl.
  rewrite lookup_insert_is_Some. split.
  - intros [<-|[_ Hk]]; [by eexists|done].
  - intros Hk. destruct (decide (ModelPath p = k)); [by left|by right].
Qed.

Lemma mergeFiles_returns fs (K : string -> Prop) indices : forall st : Decoder F * Model,
  (forall k, K k -> is_Some (m_Childs (snd st) !! k)) ->
  (forall i, i ∈ indices -> exists sc, loadFile fs i = Some (Some sc) /\ K (ModelPath sc)) ->
  exists st', mergeFiles fs indices st = Returns st' /\ d_x (fst st') = d_x (fst st).
Proof.
  induction indices as [|i rest IH]; intros st Hk Hall; simpl; [by eexists|].
  destruct (Hall i ltac:(elem)) as (sc & -> & Hsc).
  destruct (addChildModelFile_keys sc st (Hk _ Hsc)) as (st1 & -> & Hkeys & Hx). simpl.
  destruct (IH st1) as (st' & -> & Hx').
  - intros k Kk. by apply Hkeys, Hk.
  - intros j Hj. apply Hall. elem.
  - exists st'. split; [done|congruence].
Qed.

Lemma processNonRootModels_returns sched (d : Decoder F) model :
  childrenKnown (d, model) -> hooksKeepPath ->
  (forall rc, namedEnds (pending (d_x d rc))) ->
  exists err d' model', processNonRootModels sched d model = Returns (err, d', model') /\
    d_x d' = d_x d.
Proof.
  intros Hc Hh Hn. unfold processNonRootModels.
  pose proof (mapM_total (fun i => readChildModel (childCtx sched i) i d model)
                (seq 0 (length (d_nonRootModels d)))
                (fun i => readChildModel_total _ i d model)) as Ht.
  assert (mapM (fun i => readChildModel (childCtx sched i) i d model)
            (seq 0 (length (d_nonRootModels d))) <> Panics) as Hp.
  { apply mapM_not_panics. intros i Hi. apply elem_of_seq in Hi.
    apply readChildModel_not_panics; [done|lia]. }
  destruct (mapM _ _) as [tasks| |] eqn:Hm; simpl; try done.
  destruct (sh_err _) eqn:He; [by eexists _, _, _|].
  set (sh := runTails tasks (parentDone sched) (tailOrder sched)) in *.
  destruct (runTails_inv tasks (parentDone sched) (tailOrder sched)) as (_ & _ & Hok).
  destruct (Hok He) as (_ & _ & _ & _ & Hf). fold sh in Hf.
  destruct (mapM_lookup _ _ _ Hm) as [_ Hk].
  destruct (mergeFiles_returns (files sh)
              (fun k => exists a, a ∈ d_nonRootModels d /\ pf_Name a = k)
              (sortInts (map fst (files sh))) (d, model)) as ([d' model'] & -> & Hx).
  - intros k (a & Ha & <-). by apply Hc.
  - intros i Hi. unfold sortInts in Hi. rewrite merge_sort_Permutation in Hi.
    apply loadFile_elem in Hi as (f & Hl & Hin). apply Hf in Hin.
    destruct (Hk _ _ Hin) as (j & Hj & Hr).
    apply (readChildModel_shape _ _ _ _ _ _ Hh) in Hr
      as (a & Ha & [[_ Hne]|(sc & -> & Hpath & _)]); [done|].
    exists sc. split; [done|]. exists a. split; [by eapply list_elem_of_lookup_2|done].
  - simpl. by eexists _, _, _.
Qed.

Lemma processRootModel_returns {G} `{PackageFile G} ctx (rootFile : G)
    (d : Decoder F) model :
  (forall rc, namedEnds (pending (d_x d rc))) ->
  exists r, processRootModel ctx rootFile d model = Returns r.
Proof.
  intros Hn. unfold processRootModel. destruct (pf_Open rootFile) as [err|f]; [by eexists|].
  pose proof (decodeModelFile_not_panics ctx (d_x d f) model (pf_Name rootFile) true
                (d_Strict d) (Hn f)) as Hp.
  pose proof (decodeModelFile_total ctx (d_x d f) model (pf_Name rootFile) true
                (d_Strict d)) as Ht.
  destruct (decodeModelFile _ _ _ _ _ _) as [[sc ctx']| |]; simpl; try done.
  destruct (Done ctx'). by eexists.
Qed.

(** X5. [DecodeContext] returns, without a panic, when every auxiliary
    part the decoder already lists has its child entry in the model (a new
    decoder lists none), the hooks of the node decoders leave the path of
    the scanner alone and no token reader gives an end element with the
    empty name: the parts found by the walk have their child entries, and
    a scanner that is merged has the path of its part. *)
Theorem DecodeContext_returns (sched : Schedule) (d : Decoder F) (model : Model) :
  childrenKnown (d, model) -> hooksKeepPath ->
  (forall rc, namedEnds (pending (d_x d rc))) ->
  exists r, DecodeContext sched d model = Returns r.
Proof.
  intros Hc Hh Hn. unfold DecodeContext.
  destruct (processOPC d model) as [[[err|rootFile] d1] m1] eqn:Ho; [by eexists|].
  pose proof (processOPC_inv d model) as [(_&_&_&_&_&_&Hx) _].
  rewrite Ho in Hx. simpl in Hx.
  pose proof (processOPC_childrenKnown _ _ _ _ _ Ho Hc) as Hc1.
  destruct (processNonRootModels_returns sched d1 m1 Hc1 Hh) as (e & d2 & m2 & -> & Hx2).
  { intros rc. rewrite Hx. apply Hn. }
  simpl. destruct e; [by eexists|].
  destruct (processRootModel_returns (rootCtx sched) rootFile d2 m2) as [[[e3 d3] m3] ->].
  { intros rc. rewrite Hx2, Hx. apply Hn. }
  by eexists.
Qed.

End NoPanic.

(** ** The error and the cancellation of the auxiliary tasks *)

Section MergeMore.
Import Reader ReaderSpec.
Context {F : Type} `{PackageFile F} {D : Type} `{NodeDecoder D} `{CaseFold}.

Lemma tailStep_errInv tasks pdone sh i :
  errInv tasks pdone sh -> errInv tasks pdone (tailStep tasks pdone sh i).
Proof.
  intros [Hone Herr]. unfold tailStep.
  destruct (tasks !! i) as [[f e1]|] eqn:Et; [|done].
  destruct (pcs sh !! i) as [pc|] eqn:Ep; [|done].
  assert (i < length (pcs sh))%nat as Hi by (by eapply lookup_lt_Some).
  destruct pc as [|[|pc]]; [| |done].
  - destruct (cancelled sh || pdone i) eqn:Ec; (split; [|done]); simpl; intros j;
      (destruct (decide (i = j)) as [->|Hne];
        [rewrite list_lookup_insert_eq by done|rewrite list_lookup_insert_ne by done; apply Hone]).
    + done.
    + intros _. by apply orb_false_elim in Ec as [_ ?].
  - assert (forall j, <[i := 2%nat]> (pcs sh) !! j = Some 1%nat -> pdone j = false) as Hone'.
    { intros j. destruct (decide (i = j)) as [->|Hne];
        [by rewrite list_lookup_insert_eq|rewrite list_lookup_insert_ne by done; apply Hone]. }
    destruct e1 as [e|]; (split; [done|]); simpl; [|done].
    intros e' [= <-]. exists i, f. split; [done|]. by apply Hone.
Qed.

Lemma runTails_errInv tasks pdone order : errInv tasks pdone (runTails tasks pdone order).
Proof.
  unfold runTails. apply fold_left_preserves; [|intros; by apply tailStep_errInv].
  split; simpl; [|done]. intros i Hi. by apply lookup_replicate in Hi as [? _].
Qed.

(** X6. When [processNonRootModels] returns an error, the decoder and the
    model are as they were: nothing has been merged, also from the parts
    that were decoded without error. The error is the one [readChildModel]
    returned for one of the auxiliary parts, whose goroutine found the
    context not done when it polled. *)
Theorem auxiliary_error_merges_nothing
    (sched : Schedule) (d : Decoder F) (model : Model) e d' model' :
  processNonRootModels sched d model = Returns (Some e, d', model') ->
  d' = d /\ model' = model /\
  exists i f, (i < length (d_nonRootModels d))%nat /\ parentDone sched i = false /\
    readChildModel (childCtx sched i) i d model = Returns (f, Some e).
Proof.
  unfold processNonRootModels.
  destruct (mapM _ _) as [tasks| |] eqn:Hm; simpl; try done.
  destruct (mapM_lookup _ _ _ Hm) as [Hlen Hk].
  destruct (runTails_errInv tasks (parentDone sched) (tailOrder sched)) as [_ Herr].
  destruct (sh_err _) as [e0|] eqn:He.
  - intros ?. simplify_eq. repeat split.
    destruct (Herr e eq_refl) as (i & f & Ht & Hp).
    destruct (Hk _ _ Ht) as (j & Hj & Hr).
    apply lookup_seq in Hj as [-> Hlt]. simpl in *. by exists i, f.
  - destruct (mergeFiles _ _ _) as [[d1 m1]| |]; simpl; done.
Qed.

(** X7. When the context of the caller is done at the time each goroutine
    polls it, [processNonRootModels] reports no error and merges nothing,
    whatever the tasks have decoded and whatever errors they met. *)
Theorem done_caller_merges_nothing
    (sched : Schedule) (d : Decoder F) (model : Model) err d' model' :
  (forall i, parentDone sched i = true) ->
  processNonRootModels sched d model = Returns (err, d', model') ->
  err = None /\ d' = d /\ model' = model.
Proof.
  intros Hdone Hr.
  assert (exists tasks, mapM (fun i => readChildModel (childCtx sched i) i d model)
            (seq 0 (length (d_nonRootModels d))) = Returns tasks) as [tasks Hm].
  { unfold processNonRootModels in Hr. destruct (mapM _ _); try done. by eexists. }
  assert (noFailure tasks (parentDone sched)) as Hnf.
  { intros i f e _ Hp. rewrite Hdone in Hp. done. }
  rewrite (processNonRootModels_merge sched d model tasks Hm Hnf) in Hr.
  assert (stored tasks (parentDone sched) = []) as Hs.
  { unfold stored. induction (seq 0 (length tasks)) as [|i l IH]; [done|].
    rewrite filter_cons, IH. rewrite decide_False; [done|]. by rewrite Hdone. }
  rewrite Hs in Hr. simpl in Hr. by simplify_eq.
Qed.

(** X23. A context that is done is noticed only after the root part has
    been decoded and merged. For a root part that opens and whose tokens
    all end within the first [checkEveryBytes] bytes, [processRootModel]
    with a context whose next answer is done returns the error of the
    context, and leaves the decoder and the model exactly as the call with
    the background context leaves them, whatever that call returns. *)
Theorem done_context_is_seen_after_decoding {G} `{PackageFile G}
    (ctx : Context) rest (rootFile : G) (d : Decoder F) (model : Model) f e0 d' model' :
  pf_Open rootFile = inr f ->
  belowFirstCheck (pending (d_x d f)) ->
  polls ctx = true :: rest ->
  processRootModel Background rootFile d model = Returns (e0, d', model') ->
  processRootModel ctx rootFile d model = Returns (Some (ctxErr ctx), d', model').
Proof.
  intros Ho Hb Hp. unfold processRootModel. rewrite Ho.
  destruct (decodeModelFile Background _ _ _ _ _) as [[sc c']| |] eqn:Hd; simpl; try done.
  destruct (decodeModelFile_small Background ctx _ _ _ _ _ _ _ Hb Hd) as [-> ->].
  simpl. unfold Done. rewrite Hp. simpl. intros ?. by simplify_eq.
Qed.

End MergeMore.

(** ** Attachments and the relationships of an auxiliary part *)

Section AttachMore.
Import Reader ReaderSpec.
Context {F : Type} `{PackageFile F} `{CaseFold}.

Lemma existsb_snoc {A} (p : A -> bool) l a : existsb p (l ++ [a]) = existsb p l || p a.
Proof. rewrite existsb_app. simpl. by rewrite orb_false_r. Qed.

(** X8. Of two files whose names are equal when case is ignored, the one
    attached first stays and the second is dropped: once the content of
    the first has been copied, adding the second changes nothing. *)
Theorem first_attachment_wins (attachments : list Attachment) (f1 f2 : F) buff :
  EqualFold (pf_Name f1) (pf_Name f1) = true ->
  (forall a, EqualFold a (pf_Name f1) = EqualFold a (pf_Name f2)) ->
  copyFile f1 = inr buff ->
  addAttachment (addAttachment attachments f1) f2 = addAttachment attachments f1.
Proof.
  intros Hrefl Hsame Hcopy.
  assert (forall l, existsb (fun att => EqualFold (att_Path att) (pf_Name f2)) l
                    = existsb (fun att => EqualFold (att_Path att) (pf_Name f1)) l) as Hex.
  { intros l. induction l as [|a l IH]; simpl; [done|]. by rewrite IH, Hsame. }
  unfold addAttachment at 2 3. rewrite Hcopy.
  destruct (existsb _ attachments) eqn:Ee.
  - unfold addAttachment. by rewrite Hex, Ee.
  - unfold addAttachment. rewrite Hex, existsb_snoc. simpl. by rewrite Hrefl, orb_true_r.
Qed.

(** X9. The walk over the relationships of an auxiliary part leaves the
    decoder as it is, so no part is discovered through an auxiliary part,
    and adds or removes no child entry of the model; when the part has no
    child entry it changes nothing at all. *)
Theorem auxiliary_part_discovers_nothing (modelFile : F) (st : Decoder F * Model) :
  let st' := extractCoreAttachments modelFile false st in
  fst st' = fst st /\
  sameChildKeys (snd st) (snd st') /\
  (m_Childs (snd st) !! pf_Name modelFile = None -> st' = st).
Proof.
  destruct (extractCoreAttachments_nonroot modelFile st) as (Hd & Hk & _).
  repeat split; try done; try apply Hk.
  intros Hnone. unfold extractCoreAttachments.
  apply (fold_left_preserves (fun st' : Decoder F * Model => st' = st)); [done|].
  intros st1 rel ->. destruct st as [d model]. unfold extractRel. simpl in Hnone.
  rewrite Hnone. by repeat case_match.
Qed.

End AttachMore.

(** ** The tree of the core element decoders *)

Section DispatchMore.
Import Dispatch DispatchSpec.
Context {E : Type}.

Lemma Child_core_inv (ctx : decoderContext E) p name c :
  Child ctx p name = Some (coreElement c) ->
  (exists n, elementName c = Some n /\ name = XmlName Namespace n) /\ p ∈ parents c.
Proof.
  destruct name as [sp lo].
  destruct p; unfold Child, core, extChild; cbn [Space Local];
    repeat match goal with
    | |- context [decide ?P] => destruct (decide P); simplify_eq
    | |- context [String.eqb ?a ?b] => destruct (String.eqb_spec a b); subst; cbn [andb]
    | |- context [extensionDecoder ctx !! ?k] => destruct (extensionDecoder ctx !! k)
    | |- context [NewElementDecoder ?e ?n] => destruct (NewElementDecoder e n)
    | |- context [if ?b then _ else _] => is_var b; destruct b
    end;
    try discriminate; intros [= <-];
    try match goal with r : bool |- _ => destruct r end;
    (split; [by eexists|cbn [parents]; elem]).
Qed.

Lemma Child_core_intro (ctx : decoderContext E) p c n :
  elementName c = Some n -> p ∈ parents c ->
  Child ctx p (XmlName Namespace n) = Some (coreElement c).
Proof.
  destruct c; cbn [elementName parents]; intros [= <-] Hp;
    repeat (apply elem_of_cons in Hp as [->|Hp]); try (by apply elem_of_nil in Hp);
    reflexivity.
Qed.

Lemma Child_extension_inv (ctx : decoderContext E) p name e :
  Child ctx p name = Some (extensionElement e) ->
  Space name <> Namespace /\
  exists ext, extensionDecoder ctx !! Space name = Some ext /\
    NewElementDecoder ext name = Some e.
Proof.
  destruct name as [sp lo].
  destruct p; unfold Child, core, extChild; cbn [Space Local];
    repeat match goal with
    | |- context [decide ?P] => destruct (decide P); simplify_eq
    | |- context [String.eqb ?a ?b] => destruct (String.eqb_spec a b); subst; cbn [andb]
    | |- context [if ?b then _ else _] => is_var b; destruct b
    end;
    try discriminate;
    (destruct (extensionDecoder ctx !! sp) as [ext|] eqn:Ex; [|done]);
    (destruct (NewElementDecoder ext _) as [e'|] eqn:En; [|done]);
    intros [= <-]; (split; [done|by exists ext]).
Qed.

(** X10. What [Child] returns, over all the core decoders. A core decoder
    is created only for the element of the core namespace that has its
    name, and only by the decoders of [parents]; every such element under
    one of those decoders gets it. The decoder of an extension is created
    only for an element outside the core namespace, by the extension
    registered for the namespace of the element: no extension takes the
    place of a core element. *)
Theorem child_of_core_decoders (ctx : decoderContext E) p name :
  (forall c, Child ctx p name = Some (coreElement c) <->
     (exists n, elementName c = Some n /\ name = XmlName Namespace n) /\ p ∈ parents c) /\
  (forall e, Child ctx p name = Some (extensionElement e) ->
     Space name <> Namespace /\
     exists ext, extensionDecoder ctx !! Space name = Some ext /\
       NewElementDecoder ext name = Some e).
Proof.
  split.
  - intros c. split; [apply Child_core_inv|].
    intros [(n & Hn & ->) Hp]. by apply Child_core_intro.
  - apply Child_extension_inv.
Qed.

Lemma descend_snoc (ctx : decoderContext E) path : forall d name,
  descend ctx d (path ++ [name]) =
  match descend ctx d path with
  | Some p =>
      match Child ctx p name with
      | Some (coreElement c) => Some c
      | _ => None
      end
  | None => None
  end.
Proof.
  induction path as [|n path IH]; intros d name; simpl.
  - by destruct (Child ctx d name) as [[c|e]|].
  - destruct (Child ctx d n) as [[c|e]|]; [apply IH|done|done].
Qed.

(** The last step of a path. *)
Lemma descend_last (ctx : decoderContext E) path d c :
  descend ctx d path = Some c ->
  (path = [] /\ d = c) \/
  exists path' p name, path = path' ++ [name] /\ descend ctx d path' = Some p /\
    p ∈ parents c /\ exists n, elementName c = Some n /\ name = XmlName Namespace n.
Proof.
  destruct (snoc_cases path) as [->|(path' & name & ->)]; simpl.
  - intros [= ->]. by left.
  - rewrite descend_snoc. destruct (descend ctx d path') as [p|] eqn:Hd; [|done].
    destruct (Child ctx p name) as [[c'|e]|] eqn:Hc; try done. intros [= ->].
    apply Child_core_inv in Hc as [Hn Hp]. right. by exists path', p, name.
Qed.

Ltac up H :=
  let Hp := fresh "Hp" in
  let Hn := fresh "Hn" in
  apply descend_last in H as [[-> ?]|(? & ? & ? & -> & H & Hp & (? & Hn & ->))];
  [simplify_eq
  |cbn [elementName] in Hn; simplify_eq; cbn [parents] in Hp;
   repeat (apply elem_of_cons in Hp as [->|Hp]); try (by apply elem_of_nil in Hp)].

(** X11. The one place of triangles and of vertices in a document: the
    triangle decoder is reached from the top-level decoder by the path
    model, resources, object, mesh, triangles, triangle of the core
    namespace and by no other path, and the vertex decoder by the path
    that ends in vertices, vertex; this holds for the root part and for
    auxiliary parts, whatever extensions are registered. *)
Theorem triangle_and_vertex_paths (ctx : decoderContext E) (r : bool) (path : list xmlName) :
  (descend ctx (topLevelDecoder r) path = Some triangleDecoder <->
   path = corePath [attrModel; attrResources; attrObject; attrMesh; attrTriangles;
                    attrTriangle]) /\
  (descend ctx (topLevelDecoder r) path = Some vertexDecoder <->
   path = corePath [attrModel; attrResources; attrObject; attrMesh; attrVertices;
                    attrVertex]).
Proof.
  split; (split; [|intros ->; by destruct r]); intros Hd.
  - up Hd. up Hd. up Hd. up Hd. up Hd; up Hd; up Hd; done.
  - up Hd. up Hd. up Hd. up Hd. up Hd; up Hd; up Hd; done.
Qed.

(** X12. In an auxiliary part no element gets a decoder of the build
    section: going down from the top-level decoder of a part that is not
    the root, no path reaches the build decoder or the build-item decoder,
    and the root flag is never set on the way. *)
Theorem auxiliary_part_has_no_build (ctx : decoderContext E) (path : list xmlName) d :
  descend ctx (topLevelDecoder false) path = Some d ->
  ofBuild d = false /\ ofRoot d = false.
Proof.
  revert d. induction path as [|name path IH] using rev_ind; intros d Hd.
  - simpl in Hd. by simplify_eq.
  - rewrite descend_snoc in Hd.
    destruct (descend ctx (topLevelDecoder false) path) as [p|]; [|done].
    destruct (IH p eq_refl) as [Hb Hr].
    destruct (Child ctx p name) as [[c|e]|] eqn:Hc; try done. simplify_eq.
    apply Child_core_inv in Hc as [_ Hp].
    destruct d as [| [|] | | | | | | | | | | | | | | |]; cbn [parents] in Hp;
      repeat (apply elem_of_cons in Hp as [->|Hp]); try (by apply elem_of_nil in Hp);
      done.
Qed.

Lemma Child_height (ctx : decoderContext E) p name c :
  Child ctx p name = Some (coreElement c) -> (height c < height p)%nat.
Proof.
  intros Hc. apply Child_core_inv in Hc as [_ Hp].
  destruct c; cbn [parents] in Hp;
    repeat (apply elem_of_cons in Hp as [->|Hp]); try (by apply elem_of_nil in Hp);
    simpl; lia.
Qed.

Lemma descend_height (ctx : decoderContext E) path : forall d c,
  descend ctx d path = Some c -> (length path + height c <= height d)%nat.
Proof.
  induction path as [|name path IH]; intros d c Hd; simpl in Hd.
  - simplify_eq. simpl. lia.
  - destruct (Child ctx d name) as [[c'|e]|] eqn:Hc; try done.
    apply Child_height in Hc. apply IH in Hd. simpl. lia.
Qed.

(** X13. The core decoders nest at most six deep. A path of elements that
    all get core decoders has at most six elements below the document,
    and a path of six ends in a decoder without children: the decoders
    never form a cycle, whatever the document repeats. *)
Theorem core_decoders_nest_six_deep (ctx : decoderContext E) (r : bool) path d :
  descend ctx (topLevelDecoder r) path = Some d ->
  (length path <= 6)%nat /\
  (length path = 6%nat -> forall name, Child ctx d name = None).
Proof.
  intros Hd. pose proof (descend_height ctx path _ _ Hd) as Hh. simpl in Hh.
  split; [lia|]. intros Hlen name.
  destruct (Child ctx d name) as [[c|e]|] eqn:Hc; [| |done].
  - apply Child_height in Hc. lia.
  - exfalso. assert (height d = 0%nat) as H0 by lia.
    destruct d; simpl in H0; try discriminate; simpl in Hc; discriminate.
Qed.

End DispatchMore.

(** ** Encoding the extension bags *)

Section EncodeFacts.
Import Encode.
Context {X E : Type}.

(** X14. [Extensions.encode] never reports an error, and it stops at the
    first marshaler that succeeds: when the marshalers before it have all
    failed and it succeeds, the call returns with the encoder as that
    marshaler left it and the entries after it are not called, be they
    nil; when all the marshalers fail, all are called and the call still
    returns nil. *)
Theorem extensions_encode_stops_at_first_success :
  (forall (e : list (option (Marshaler X E))) x x' err,
     Extensions_encode e x = Some (x', err) -> err = None) /\
  (forall (pre : list (Marshaler X E)) m post x x1 x2,
     allFail pre x = Some x1 -> Marshal3MF m x1 = (x2, None) ->
     Extensions_encode (map Some pre ++ Some m :: post) x = Some (x2, None)) /\
  (forall (l : list (Marshaler X E)) x x1,
     allFail l x = Some x1 -> Extensions_encode (map Some l) x = Some (x1, None)).
Proof.
  repeat split.
  - intros e. induction e as [|[m|] e IH]; intros x x' err He; simpl in He.
    + by simplify_eq.
    + destruct (Marshal3MF m x) as [x1 [e1|]]; [by eapply IH|by simplify_eq].
    + done.
  - intros pre. induction pre as [|p pre IH]; intros m post x x1 x2 Hf Hm; simpl in *.
    + simplify_eq. by rewrite Hm.
    + destruct (Marshal3MF p x) as [x0 [e0|]]; [by eapply IH|done].
  - intros l. induction l as [|p l IH]; intros x x1 Hf; simpl in *.
    + by simplify_eq.
    + destruct (Marshal3MF p x) as [x0 [e0|]]; [by apply IH|done].
Qed.

(** X15. [ExtensionsAttr.encode] keeps the attributes the start element
    already has, in place, and what it adds does not depend on them. *)
Theorem attr_encode_keeps_start (e : list (option (MarshalerAttr X E))) x start :
  ExtensionsAttr_encode e x start
  = (fun r => (fst r, start ++ snd r)) <$> ExtensionsAttr_encode e x [].
Proof.
  revert x start. induction e as [|[m|] e IH]; intros x start; simpl.
  - by rewrite app_nil_r.
  - destruct (Marshal3MFAttr m x) as [x1 [att [e1|]]]; [apply IH|].
    rewrite (IH x1 (start ++ att)), (IH x1 att).
    destruct (ExtensionsAttr_encode e x1 []) as [[x2 added]|]; simpl; [|done].
    by rewrite app_assoc.
  - done.
Qed.

End EncodeFacts.

(** ** Looking up an extension by type *)

Section GetFacts.
Import Extensions GetSpec.
Context {Typ V : Type} `{Reflect Typ}.

Lemma firstAssignable_spec targetType (l : list (option (@dyn Typ V))) :
  match firstAssignable targetType l with
  | Return true (Some v) =>
      exists pre post, l = pre ++ Some v :: post /\ matches targetType (Some v) = true /\
        Forall (fun o => matches targetType o = false) pre
  | Return false None => Forall (fun o => matches targetType o = false) l
  | _ => False
  end.
Proof.
  induction l as [|[v|] l IH]; simpl.
  - apply Forall_nil_2.
  - destruct (AssignableTo (dynType v) targetType) eqn:Ea.
    + exists [], l. repeat split; [done|apply Forall_nil_2].
    + destruct (firstAssignable targetType l) as [msg|[|] [w|]]; try done.
      * destruct IH as (pre & post & -> & Hm & Hpre). exists (Some v :: pre), post.
        repeat split; [done|]. by apply Forall_cons.
      * by apply Forall_cons.
  - destruct (firstAssignable targetType l) as [msg|[|] [w|]]; try done.
    + destruct IH as (pre & post & -> & Hm & Hpre). exists (None :: pre), post.
      repeat split; [done|]. by apply Forall_cons.
    + by apply Forall_cons.
Qed.

Lemma get_valid iface msg (l : list (option (@dyn Typ V))) typ :
  l <> [] -> validTarget iface typ ->
  get iface msg (Some l) (targetOf typ false) = firstAssignable (Elem typ) l.
Proof.
  intros Hl [Hk Hi]. unfold get. destruct l as [|o l]; [done|]. simpl.
  rewrite Hk. rewrite bool_decide_eq_true_2 by done. simpl.
  destruct Hi as [-> | ->]; [rewrite bool_decide_eq_true_2 by done; done|].
  by rewrite andb_false_r.
Qed.

(** X16. [Get] on a bag that is not empty, with a target that is a
    non-nil pointer to an interface type or to a type that implements the
    marshaler interface, does not panic, and it finds the first match: it
    returns true with the first entry that is not nil and whose type is
    assignable to the target type, or false when no entry is one. *)
Theorem get_finds_first_match iface msg (l : list (option (@dyn Typ V))) typ :
  l <> [] -> validTarget iface typ ->
  match get iface msg (Some l) (targetOf typ false) with
  | Return true (Some v) =>
      exists pre post, l = pre ++ Some v :: post /\ matches (Elem typ) (Some v) = true /\
        Forall (fun o => matches (Elem typ) o = false) pre
  | Return false None => Forall (fun o => matches (Elem typ) o = false) l
  | _ => False
  end.
Proof. intros Hl Hv. rewrite get_valid by done. apply firstAssignable_spec. Qed.

End GetFacts.

(** ** The production extension: UUIDs before encoding *)

Section ProductionFacts.
Import Extensions GetSpec Production.
Variable uuid_New : nat -> string.

Local Abbreviation target t := (targetOf (PtrTo (PtrTo (Struct t))) false).

Lemma production_target_valid t :
  validTarget marshalerAttrType (PtrTo (PtrTo (Struct t))).
Proof. split; [done|by right]. Qed.

Lemma Get_production t (l : list (option (@dyn goType attrValue))) :
  ExtensionsAttr_Get (Some l) (target t) = firstAssignable (PtrTo (Struct t)) l.
Proof.
  destruct l as [|o l]; [done|].
  unfold ExtensionsAttr_Get. by rewrite get_valid by (done || apply production_target_valid).
Qed.

Lemma firstAssignable_snoc t (l : list (option (@dyn goType attrValue))) v :
  firstAssignable (PtrTo (Struct t)) l = Return false None ->
  dynType v = PtrTo (Struct t) ->
  firstAssignable (PtrTo (Struct t)) (l ++ [Some v]) = Return true (Some v).
Proof.
  intros Hl Hv. induction l as [|[w|] l IH]; simpl in *.
  - rewrite Hv. by rewrite bool_decide_eq_true_2.
  - destruct (bool_decide _); [done|by apply IH].
  - by apply IH.
Qed.

Lemma firstAssignable_type t (l : list (option (@dyn goType attrValue))) v :
  firstAssignable (PtrTo (Struct t)) l = Return true (Some v) ->
  dynType v = PtrTo (Struct t).
Proof.
  intros Hl. pose proof (firstAssignable_spec (PtrTo (Struct t)) l) as Hs.
  rewrite Hl in Hs. destruct Hs as (_ & _ & _ & Hm & _). simpl in Hm.
  by apply bool_decide_eq_true_1 in Hm.
Qed.

Lemma keeps_refl b : keeps b b.
Proof. exists []. by rewrite app_nil_r. Qed.

(** The step on one bag: it does not panic; afterwards the bag has an
    attribute of the type; a bag that had one is left as it is and no
    UUID is drawn, otherwise one attribute with the next UUID is added at
    the end. *)
Lemma ensure_spec t b n :
  exists b' n', ensure uuid_New t b n = Some (b', n') /\
    hasAttr t b' /\ keeps b b' /\
    ((hasAttr t b /\ b' = b /\ n' = n) \/
     (n' = S n /\
      b' = appendAttr b (MkDyn (PtrTo (Struct t)) (MkAttrValue "" (uuid_New n))))).
Proof.
  unfold ensure, hasAttr.
  destruct b as [l|].
  - rewrite Get_production.
    pose proof (firstAssignable_spec (PtrTo (Struct t)) l) as Hs.
    destruct (firstAssignable (PtrTo (Struct t)) l) as [msg|[|] [w|]] eqn:Hf; try done.
    + exists (Some l), n. rewrite ?Get_production, ?Hf.
      assert (exists v, Return true (Some w) = Return true (Some v) /\
                dynType v = PtrTo (Struct t)) as Hw
        by (exists w; split; [done|by eapply firstAssignable_type]).
      repeat split; [done|apply keeps_refl|]. by left.
    + eexists _, _. split; [done|]. unfold appendAttr.
      change (default [] (Some l)) with l.
      rewrite ?Get_production,
        (firstAssignable_snoc t l
           (MkDyn (PtrTo (Struct t)) (MkAttrValue "" (uuid_New n))) Hf eq_refl).
      split; [eexists; split; reflexivity|]. split; [eexists; reflexivity|]. by right.
  - simpl. eexists _, _. split; [done|]. unfold appendAttr. simpl.
    rewrite bool_decide_eq_true_2 by done.
    split; [eexists; split; reflexivity|]. split; [eexists; reflexivity|]. by right.
Qed.

Lemma ensure_again t b n : hasAttr t b -> ensure uuid_New t b n = Some (b, n).
Proof. intros (v & Hg & _). unfold ensure. by rewrite Hg. Qed.

Lemma ensureItems_spec items : forall n,
  exists items' n', ensureItems uuid_New items n = Some (items', n') /\
    Forall (fun i => hasAttr ItemAttr (i_AnyAttr i)) items' /\
    Forall2 (fun i i' => keeps (i_AnyAttr i) (i_AnyAttr i')) items items' /\
    (n <= n')%nat.
Proof.
  induction items as [|i items IH]; intros n; simpl.
  - exists [], n. split; [done|]. split; [apply Forall_nil_2|]. split; [apply Forall2_nil_2|lia].
  - destruct (ensure_spec ItemAttr (i_AnyAttr i) n) as (a & n1 & -> & Ha & Hk & Hn).
    destruct (IH n1) as (items' & n2 & -> & Hall & Hkeep & Hle).
    eexists _, _. split; [done|].
    split; [by apply Forall_cons|]. split; [by apply Forall2_cons|].
    destruct Hn as [(_ & _ & ->)|[-> _]]; lia.
Qed.

Lemma ensureComponents_spec cs : forall n,
  exists cs' n', ensureComponents uuid_New cs n = Some (cs', n') /\
    Forall (fun c => hasAttr ComponentAttr (c_AnyAttr c)) cs' /\
    Forall2 (fun c c' => keeps (c_AnyAttr c) (c_AnyAttr c')) cs cs' /\
    (n <= n')%nat.
Proof.
  induction cs as [|c cs IH]; intros n; simpl.
  - exists [], n. split; [done|]. split; [apply Forall_nil_2|]. split; [apply Forall2_nil_2|lia].
  - destruct (ensure_spec ComponentAttr (c_AnyAttr c) n) as (a & n1 & -> & Ha & Hk & Hn).
    destruct (IH n1) as (cs' & n2 & -> & Hall & Hkeep & Hle).
    eexists _, _. split; [done|].
    split; [by apply Forall_cons|]. split; [by apply Forall2_cons|].
    destruct Hn as [(_ & _ & ->)|[-> _]]; lia.
Qed.

Lemma ensureItems_again items : forall n,
  Forall (fun i => hasAttr ItemAttr (i_AnyAttr i)) items ->
  ensureItems uuid_New items n = Some (items, n).
Proof.
  induction items as [|[a] items IH]; intros n Hall; simpl; [done|].
  apply Forall_cons in Hall as [Ha Hall]. simpl in Ha.
  by rewrite (ensure_again _ _ _ Ha), (IH n Hall).
Qed.

Lemma ensureComponents_again cs : forall n,
  Forall (fun c => hasAttr ComponentAttr (c_AnyAttr c)) cs ->
  ensureComponents uuid_New cs n = Some (cs, n).
Proof.
  induction cs as [|[a] cs IH]; intros n Hall; simpl; [done|].
  apply Forall_cons in Hall as [Ha Hall]. simpl in Ha.
  by rewrite (ensure_again _ _ _ Ha), (IH n Hall).
Qed.

Lemma before_encode_build_spec (s : Spec) (build : Build) (n : nat) :
  DisableAutoUUID s = false ->
  exists build' n', BeforeEncode_build uuid_New s build n = Some (build', n') /\
    hasAttr BuildAttr (b_AnyAttr build') /\
    Forall (fun i => hasAttr ItemAttr (i_AnyAttr i)) (b_Items build') /\
    keeps (b_AnyAttr build) (b_AnyAttr build') /\
    Forall2 (fun i i' => keeps (i_AnyAttr i) (i_AnyAttr i')) (b_Items build)
      (b_Items build') /\
    (n <= n')%nat.
Proof.
  intros Hs. unfold BeforeEncode_build. rewrite Hs.
  destruct (ensure_spec BuildAttr (b_AnyAttr build) n) as (a & n1 & -> & Ha & Hk & Hn).
  destruct (ensureItems_spec (b_Items build) n1) as (items' & n2 & -> & Hall & Hkeep & Hle).
  eexists _, _. split; [done|]. simpl. repeat split; try done.
  destruct Hn as [(_ & _ & ->)|[-> _]]; lia.
Qed.

Lemma before_encode_object_spec (o : Object) (n : nat) :
  exists o' n', BeforeEncode_object uuid_New o n = Some (o', n') /\
    hasAttr ObjectAttr (o_AnyAttr o') /\
    Forall (fun c => hasAttr ComponentAttr (c_AnyAttr c)) (o_Components o') /\
    keeps (o_AnyAttr o) (o_AnyAttr o') /\
    Forall2 (fun c c' => keeps (c_AnyAttr c) (c_AnyAttr c')) (o_Components o)
      (o_Components o').
Proof.
  unfold BeforeEncode_object.
  destruct (ensure_spec ObjectAttr (o_AnyAttr o) n) as (a & n1 & -> & Ha & Hk & Hn).
  destruct (ensureComponents_spec (o_Components o) n1) as (cs' & n2 & -> & Hall & Hkeep & Hle).
  eexists _, _. split; [done|]. simpl. repeat split; done.
Qed.

(** X17. With automatic UUIDs enabled, the part of [BeforeEncode] on the
    build does not panic, whatever the bags hold; afterwards [Get] finds a
    build attribute in the bag of the build and an item attribute in the
    bag of every item; the items are the same in number and order, and
    every bag keeps the entries it had, in place. *)
Theorem before_encode_completes_build (s : Spec) (build : Build) (n : nat) :
  DisableAutoUUID s = false ->
  exists build' n', BeforeEncode_build uuid_New s build n = Some (build', n') /\
    hasAttr BuildAttr (b_AnyAttr build') /\
    Forall (fun i => hasAttr ItemAttr (i_AnyAttr i)) (b_Items build') /\
    keeps (b_AnyAttr build) (b_AnyAttr build') /\
    Forall2 (fun i i' => keeps (i_AnyAttr i) (i_AnyAttr i')) (b_Items build)
      (b_Items build') /\
    (n <= n')%nat.
Proof. apply before_encode_build_spec. Qed.

(** X18. The function [BeforeEncode] applies to every object does not
    panic; afterwards [Get] finds an object attribute in the bag of the
    object and a component attribute in the bag of each of its
    components, and every bag keeps the entries it had. *)
Theorem before_encode_completes_object (o : Object) (n : nat) :
  exists o' n', BeforeEncode_object uuid_New o n = Some (o', n') /\
    hasAttr ObjectAttr (o_AnyAttr o') /\
    Forall (fun c => hasAttr ComponentAttr (c_AnyAttr c)) (o_Components o') /\
    keeps (o_AnyAttr o) (o_AnyAttr o') /\
    Forall2 (fun c c' => keeps (c_AnyAttr c) (c_AnyAttr c')) (o_Components o)
      (o_Components o').
Proof. apply before_encode_object_spec. Qed.

(** X19. [BeforeEncode] is idempotent and never replaces a UUID: run on a
    build, or on an object, it has already been run on, it changes nothing
    and draws no UUID. *)
Theorem before_encode_is_idempotent (s : Spec) (build build' : Build) (o o' : Object)
    (n n' m m' : nat) :
  BeforeEncode_build uuid_New s build n = Some (build', n') ->
  BeforeEncode_object uuid_New o m = Some (o', m') ->
  (forall k, BeforeEncode_build uuid_New s build' k = Some (build', k)) /\
  (forall k, BeforeEncode_object uuid_New o' k = Some (o', k)).
Proof.
  intros Hb Ho. split; intros k.
  - unfold BeforeEncode_build in *. destruct (DisableAutoUUID s) eqn:Hs; [by simplify_eq|].
    assert (DisableAutoUUID s = false) as Hs' by done.
    destruct (before_encode_build_spec s build n Hs') as (b1 & n1 & Hb1 & Ha & Hall & _).
    unfold BeforeEncode_build in Hb1. rewrite Hs in Hb1. rewrite Hb1 in Hb. simplify_eq.
    destruct build' as [a items]. simpl in *.
    by rewrite (ensure_again _ _ _ Ha), (ensureItems_again _ _ Hall).
  - destruct (before_encode_object_spec o m) as (o1 & m1 & Ho1 & Ha & Hall & _).
    rewrite Ho1 in Ho. simplify_eq. unfold BeforeEncode_object.
    destruct o' as [a cs]. simpl in *.
    by rewrite (ensure_again _ _ _ Ha), (ensureComponents_again _ _ Hall).
Qed.

End ProductionFacts.

(** ** Objects and the defaults of their triangles *)

Section ObjectFacts.
Import Strconv Specerr Core Objects.
Context {ObjectType : Type}.
Variable newObjectType : string -> ObjectType * bool.
Variable extensionAttr : @Object ObjectType -> Attr -> option (@Object ObjectType * list AttrError).

Local Abbreviation step := (objectAttr newObjectType extensionAttr).

Lemma coreUint_snoc n attrs a d :
  coreUint n (attrs ++ [a]) d =
  if decide (Space (Name a) = "" /\ Local (Name a) = n)
  then uint32 (fst (ParseUint (Value a) 32)) else coreUint n attrs d.
Proof.
  unfold coreUint. rewrite filter_app, filter_cons, filter_nil.
  destruct (decide (Space (Name a) = "")) as [Hs|Hs].
  - rewrite lastAttr_snoc. destruct (decide (Local (Name a) = n)) as [Hn|Hn].
    + by rewrite decide_True.
    + rewrite decide_False; [done|]. by intros [_ ?].
  - rewrite app_nil_r. rewrite decide_False; [done|]. by intros [? _].
Qed.

Lemma parseCoreAttr_defaults (o : @Object ObjectType) a :
  let o' := fst (parseCoreAttr newObjectType o a) in
  o_PID o' = (if decide (Local (Name a) = attrPID)
              then uint32 (fst (ParseUint (Value a) 32)) else o_PID o) /\
  o_PIndex o' = (if decide (Local (Name a) = attrPIndex)
                 then uint32 (fst (ParseUint (Value a) 32)) else o_PIndex o).
Proof.
  destruct o as [id typ th nm pn pid pindex mesh]. unfold parseCoreAttr.
  destruct (ParseUint (Value a) 32) as [val err].
  destruct (newObjectType (Value a)) as [t ok].
  repeat match goal with
  | |- context [String.eqb ?x ?y] => destruct (String.eqb_spec x y) as [->|?]
  end; simpl; split; by repeat case_decide.
Qed.

(** The attribute loop of [objectDecoder.Start] on the two defaults. *)
Lemma object_loop_defaults (o0 : @Object ObjectType) errs0 attrs :
  extensionsKeepDefaults extensionAttr ->
  let o := fst (fold_left step attrs (o0, errs0)) in
  o_PID o = coreUint attrPID attrs (o_PID o0) /\
  o_PIndex o = coreUint attrPIndex attrs (o_PIndex o0).
Proof.
  intros Hext. induction attrs as [|a attrs IH] using rev_ind; [done|].
  rewrite fold_left_app, !coreUint_snoc. simpl.
  destruct (fold_left step attrs (o0, errs0)) as [o errs]. simpl in IH.
  destruct IH as [Hpid Hpindex]. unfold objectAttr.
  destruct (String.eqb_spec (Space (Name a)) "") as [Hs|Hs].
  - pose proof (parseCoreAttr_defaults o a) as [H1 H2].
    destruct (parseCoreAttr newObjectType o a) as [o' e]. simpl in *.
    rewrite H1, H2, Hpid, Hpindex.
    split; repeat case_decide; try done; tauto.
  - rewrite !decide_False by tauto.
    destruct (extensionAttr o a) as [[o' e]|] eqn:Ee; simpl; [|done].
    destruct (Hext _ _ _ _ Ee) as [-> ->]. done.
Qed.

Lemma triangle_resolved (d : triangleDecoder) tattrs :
  let d' := fst (triangleDecoder_Start d tattrs) in
  defaultPropertyID d' = defaultPropertyID d /\
  defaultPropertyIndex d' = defaultPropertyIndex d /\
  exists t, Triangles (td_mesh d') = Triangles (td_mesh d) ++ [t] /\
    resolved (defaultPropertyID d) (defaultPropertyIndex d) tattrs t.
Proof.
  destruct (triangle_loop tattrs) as (_ & _ & _ & Hpid & Hp1 & _).
  unfold triangleDecoder_Start. simpl.
  set (l := fold_left triangleAttr tattrs triLocals0) in *.
  repeat split. eexists. split; [reflexivity|]. unfold resolved, propSlot in *. simpl.
  split.
  - destruct (lastAttr attrPID tattrs); destruct Hpid as [-> ->]; done.
  - destruct (lastAttr attrP1 tattrs); destruct Hp1 as [-> ->]; done.
Qed.

Lemma triangles_resolved ts : forall d : triangleDecoder,
  let d' := fold_left (fun d tattrs => fst (triangleDecoder_Start d tattrs)) ts d in
  exists new, Triangles (td_mesh d') = Triangles (td_mesh d) ++ new /\
    Forall2 (resolved (defaultPropertyID d) (defaultPropertyIndex d)) ts new.
Proof.
  induction ts as [|tattrs ts IH]; intros d; cbn [fold_left].
  - exists []. by rewrite app_nil_r.
  - destruct (triangle_resolved d tattrs) as (Hpid & Hpindex & t & Ht & Hr).
    destruct (IH (fst (triangleDecoder_Start d tattrs))) as (new & Hnew & Hall).
    exists (t :: new). rewrite Hnew, Ht, <- app_assoc. split; [done|].
    apply Forall2_cons. split; [done|]. by rewrite Hpid, Hpindex in Hall.
Qed.

(** X20. The property defaults of an object reach its triangles. After
    [objectDecoder.Start], the default property group and index of the
    object are the values of its last pid and pindex attributes of the
    empty namespace (what they were, when it has none), provided the
    extensions leave the two fields alone. The triangle decoder set up at
    the start of the triangles element of its mesh takes them over, and
    the mesh then holds one triangle per triangle element, in document
    order, whose pid and p1, when the element lacks them, are those
    defaults of the object. *)
Theorem object_defaults_reach_triangles
    (o0 : @Object ObjectType) (oattrs : list Attr) (nObjects : nat) (ts : list (list Attr)) :
  extensionsKeepDefaults extensionAttr ->
  let o := fst (objectDecoder_Start newObjectType extensionAttr o0 oattrs nObjects) in
  o_PID o = coreUint attrPID oattrs (o_PID o0) /\
  o_PIndex o = coreUint attrPIndex oattrs (o_PIndex o0) /\
  exists td, trianglesDecoder_Start (meshDecoder_Start o) = Some td /\
    Forall2 (resolved (o_PID o) (o_PIndex o)) ts
      (Triangles (td_mesh (fold_left (fun d tattrs => fst (triangleDecoder_Start d tattrs))
                             ts td))).
Proof.
  intros Hext o.
  pose proof (object_loop_defaults o0 [] oattrs Hext) as [Hpid Hpindex].
  assert (o = fst (fold_left step oattrs (o0, []))) as Ho.
  { subst o. unfold objectDecoder_Start. by destruct (fold_left step oattrs (o0, [])). }
  rewrite <- Ho in Hpid, Hpindex. split; [done|]. split; [done|].
  eexists. split; [reflexivity|].
  destruct (triangles_resolved ts (MkTriangleDecoder (MkMesh [] []) (o_PIndex o) (o_PID o)))
    as (new & Hnew & Hall).
  simpl in *. by rewrite Hnew.
Qed.

End ObjectFacts.

(** ** Base materials *)

Section MaterialsFacts.
Import Strconv Specerr Core Materials.
Context {Color : Type}.
Variable ParseRGBA : string -> Color * bool.
Variable zeroColor : Color.

Lemma idLoop_spec attrs (r : @BaseMaterials Color) :
  idLoop attrs r =
  match firstID attrs with
  | Some a =>
      (MkBaseMaterials (uint32 (fst (ParseUint (Value a) 32))) (bm_Materials r),
       addErr (snd (ParseUint (Value a) 32)) (Local (Name a)) true [])
  | None => (r, [])
  end.
Proof.
  unfold firstID. induction attrs as [|a attrs IH]; simpl; [done|].
  rewrite filter_cons.
  destruct (String.eqb_spec (Space (Name a)) "") as [Hs|Hs];
    destruct (String.eqb_spec (Local (Name a)) Objects.attrID) as [Hl|Hl]; simpl.
  - rewrite decide_True by done. simpl. by destruct (ParseUint (Value a) 32).
  - rewrite decide_False by tauto. apply IH.
  - rewrite decide_False by tauto. apply IH.
  - rewrite decide_False by tauto. apply IH.
Qed.

Lemma base_loop_name battrs (l0 : @baseLocals Color) :
  bl_name (fold_left (baseAttr ParseRGBA) battrs l0) =
  match lastAttr Objects.attrName battrs with
  | Some a => Value a
  | None => bl_name l0
  end.
Proof.
  induction battrs as [|a battrs IH] using rev_ind; [done|].
  rewrite fold_left_app, lastAttr_snoc. simpl. unfold baseAttr at 1.
  destruct (String.eqb_spec (Local (Name a)) Objects.attrName) as [Hn|Hn].
  - by rewrite decide_True.
  - rewrite decide_False by done.
    destruct (String.eqb (Local (Name a)) attrDisplayColor); [|done].
    by destruct (ParseRGBA (Value a)).
Qed.

Lemma bases_fold bases : forall r : @BaseMaterials Color,
  let r' := fold_left (fun r battrs => fst (baseMaterialDecoder_Start ParseRGBA zeroColor
                                              r battrs)) bases r in
  bm_ID r' = bm_ID r /\
  exists new, bm_Materials r' = bm_Materials r ++ new /\
    Forall2 (fun battrs b =>
               base_Name b = match lastAttr Objects.attrName battrs with
                             | Some a => Value a
                             | None => ""
                             end) bases new.
Proof.
  induction bases as [|battrs bases IH]; intros r; cbn [fold_left].
  - split; [done|]. exists []. by rewrite app_nil_r.
  - destruct (IH (fst (baseMaterialDecoder_Start ParseRGBA zeroColor r battrs)))
      as (Hid & new & Hnew & Hall).
    split; [by rewrite Hid|].
    eexists (_ :: new). rewrite Hnew. simpl. rewrite <- app_assoc. split; [done|].
    apply Forall2_cons. split; [|done]. simpl. apply base_loop_name.
Qed.

(** X21. A basematerials element, from its start to its end, adds
    exactly one asset. Its id is the value of the first id attribute of
    the empty namespace: the attribute loop ends there, so a later id
    attribute is neither used nor checked, and the start reports an error
    exactly when that first attribute does not parse, with the index the
    asset is then added at. The asset holds one material per base element,
    in document order, each named by the last name attribute of its
    element. *)
Theorem base_materials_first_id_wins
    (assets : list (@BaseMaterials Color)) (attrs : list Attr) (bases : list (list Attr)) :
  let r := decodeBaseMaterials ParseRGBA zeroColor assets attrs bases in
  exists bm, fst r = assets ++ [bm] /\
    bm_ID bm = match firstID attrs with
               | Some a => uint32 (fst (ParseUint (Value a) 32))
               | None => 0
               end /\
    Forall2 (fun battrs b =>
               base_Name b = match lastAttr Objects.attrName battrs with
                             | Some a => Value a
                             | None => ""
                             end) bases (bm_Materials bm) /\
    (snd r = None <->
     match firstID attrs with
     | Some a => snd (ParseUint (Value a) 32) = None
     | None => True
     end) /\
    (forall w, snd r = Some w -> fst r !! Index w = Some bm).
Proof.
  intros r. subst r. unfold decodeBaseMaterials, baseMaterialsDecoder_Start.
  rewrite idLoop_spec.
  destruct (firstID attrs) as [a|]; simpl.
  - match goal with |- context [fold_left ?f bases ?r0] =>
      destruct (bases_fold bases r0) as (Hid & new & Hnew & Hall) end.
    simpl in *. eexists. split; [reflexivity|]. rewrite Hid, Hnew. simpl.
    split; [done|]. split; [done|].
    destruct (snd (ParseUint (Value a) 32)); simpl.
    + split; [done|]. intros w [= <-]. simpl. unfold baseMaterialsDecoder_End.
      by rewrite lookup_app_r, Nat.sub_diag.
    + split; done.
  - match goal with |- context [fold_left ?f bases ?r0] =>
      destruct (bases_fold bases r0) as (Hid & new & Hnew & Hall) end.
    simpl in *. eexists. split; [reflexivity|]. rewrite Hid, Hnew. simpl. done.
Qed.

End MaterialsFacts.

(** ** Metadata *)

Section MetadataFacts.
Import Strconv Core Metadata.
Variable namespace : string -> option string.

Lemma substring_all s : substring 0 (String.length s) s = s.
Proof. induction s as [|c s IH]; simpl; [done|by rewrite IH]. Qed.

Lemma IndexByte_split s c : forall i,
  IndexByte s c = Some i ->
  s = (substring 0 i s ++ String c (substring (S i) (String.length s - S i) s))%string.
Proof.
  induction s as [|x s IH]; intros i Hi; simpl in Hi; [done|].
  destruct (Ascii.eqb_spec x c) as [->|Hne].
  - simplify_eq. simpl. by rewrite Nat.sub_0_r, substring_all.
  - destruct (IndexByte s c) as [j|] eqn:Hj; simpl in Hi; [|done]. simplify_eq.
    simpl. rewrite (IH j eq_refl) at 1. reflexivity.
Qed.

Lemma substring_0_empty s i c :
  IndexByte s c = Some i -> substring 0 i s = EmptyString -> i = O.
Proof.
  destruct s as [|x s]; simpl; [done|].
  destruct (Ascii.eqb x c); [by intros [= <-]|].
  destruct (IndexByte s c); simpl; [|done]. intros [= <-]. done.
Qed.

Lemma metadata_loop_name (m : Metadata) attrs :
  md_Name (metadataDecoder_Start namespace m attrs) =
  match lastCore Objects.attrName attrs with
  | Some a => metadataName namespace a
  | None => md_Name m
  end.
Proof.
  unfold metadataDecoder_Start, lastCore.
  induction attrs as [|a attrs IH] using rev_ind; [done|].
  rewrite fold_left_app, filter_app, filter_cons, filter_nil. simpl.
  unfold metadataAttr at 1.
  destruct (String.eqb_spec (Space (Name a)) "") as [Hs|Hs]; simpl.
  - rewrite decide_True by done. rewrite lastAttr_snoc.
    destruct (String.eqb_spec (Local (Name a)) Objects.attrName) as [Hn|Hn].
    + by rewrite decide_True.
    + rewrite decide_False by done.
      destruct (String.eqb (Local (Name a)) Objects.attrType); [done|].
      by destruct (String.eqb (Local (Name a)) attrPreserve).
  - rewrite decide_False by done. by rewrite app_nil_r.
Qed.

(** X22. The name of a metadata is the value of its name attribute read
    as a qualified name: written back with its prefix, the name the
    decoder keeps is the value of the last name attribute of the empty
    namespace, and a prefix is split off only when a namespace is bound
    to it; this holds when no namespace is bound to the empty prefix or
    the value does not begin with a colon. *)
Theorem metadata_name_round_trip (m : Metadata) (attrs : list Attr) (a : Attr) :
  lastCore Objects.attrName attrs = Some a ->
  namespace "" = None \/ IndexByte (Value a) ":" <> Some O ->
  let n := md_Name (metadataDecoder_Start namespace m attrs) in
  qualified n = Value a /\
  (Space n <> "" -> is_Some (namespace (Space n))).
Proof.
  intros Hlast Hcolon n. subst n. rewrite metadata_loop_name, Hlast.
  assert (Space (Name a) = "") as Hs.
  { unfold lastCore in Hlast. apply lastAttr_Some in Hlast as [Hin _].
    by apply list_elem_of_filter in Hin as [? _]. }
  unfold metadataName. rewrite Hs.
  destruct (IndexByte (Value a) ":") as [i|] eqn:Hi; [|by split].
  destruct (namespace (substring 0 i (Value a))) as [ns|] eqn:Hns; [|by split].
  unfold qualified. simpl. split; [|by rewrite Hns].
  destruct (substring 0 i (Value a)) as [|c p] eqn:Hp.
  - exfalso. pose proof (substring_0_empty _ _ _ Hi Hp) as ->.
    destruct Hcolon as [Hn|Hn]; [congruence|done].
  - rewrite <- Hp. symmetry. apply (IndexByte_split _ _ _ Hi).
Qed.

End MetadataFacts.

(** ** The further properties on the sample package *)

Section SampleMore.
Import Reader ReaderSpec Sample.

Lemma belowFirstCheckb_spec toks : belowFirstCheckb toks = true -> belowFirstCheck toks.
Proof.
  unfold belowFirstCheckb, belowFirstCheck. rewrite forallb_forall, Forall_forall.
  intros Hall e He. apply list_elem_of_In, Hall in He. lia.
Qed.

Lemma tokenTable_namedEnds docs :
  forallb (fun e => namedEndsb (withOffsets 0 (snd e))) docs = true ->
  forall rc, namedEnds (pending (tokenTable docs rc)).
Proof.
  intros Hall rc. unfold tokenTable.
  destruct (List.find _ docs) as [[n toks]|] eqn:Ef; simpl.
  - apply find_some in Ef as [Hin _]. rewrite forallb_forall in Hall.
    apply namedEndsb_spec. apply (Hall _ Hin).
  - by apply namedEndsb_spec.
Qed.

Lemma sample_hooks_keep_path promote : @hooksKeepPath node (nodeDecoders promote).
Proof.
  repeat split.
  - intros [| |id] attr sc; simpl; try done.
    destruct (Core.lastAttr "id" attr); [|done].
    destruct (Strconv.ParseUint _ _) as [v [e|]]; done.
  - intros [| |id] sc; done.
Qed.

Local Abbreviation rootDoc :=
  (MkXMLDecoder (withOffsets 0 (modelDoc ["1"; "x"; "3"])) io_EOF 0).

(** A document whose only end element of the model lies beyond the first
    threshold of the cancellation check. *)
Local Abbreviation longDoc :=
  (MkXMLDecoder [(startCore attrModel [], 10); (endCore attrModel, 5000000);
                 (Comment "tail", 5000010)] io_EOF 0).

Local Abbreviation doneContext := (MkContext [true; false] context_Canceled).

(** The theorem of X1 on the root document of the sample. *)
Lemma decodeModelFile_returns_witness :
  namedEnds (pending rootDoc) /\
  exists sc ctx',
    @decodeModelFile node (nodeDecoders false) Background rootDoc emptyModel
      DefaultModelPath true false = Returns (sc, ctx').
Proof.
  assert (namedEnds (pending rootDoc)) as Hn by (apply namedEndsb_spec; reflexivity).
  split; [exact Hn|].
  exact (@decodeModelFile_returns node (nodeDecoders false) Background rootDoc emptyModel
           DefaultModelPath true false Hn).
Defined.

(** The theorem of X2 on the root document of the sample, scanned with a
    context that is done. *)
Lemma small_part_never_polls_witness :
  belowFirstCheck (pending rootDoc) /\
  match @decodeModelFile node (nodeDecoders false) doneContext rootDoc emptyModel
          DefaultModelPath true false with
  | Returns (sc, ctx') =>
      ctx' = doneContext /\
      @decodeModelFile node (nodeDecoders false) Background rootDoc emptyModel
        DefaultModelPath true false = Returns (sc, Background)
  | _ => False
  end.
Proof.
  assert (belowFirstCheck (pending rootDoc)) as Hb
    by (apply belowFirstCheckb_spec; reflexivity).
  split; [exact Hb|].
  destruct (@decodeModelFile node (nodeDecoders false) doneContext rootDoc emptyModel
              DefaultModelPath true false) as [[sc ctx']| |] eqn:E.
  - exact (@small_part_never_polls node (nodeDecoders false) doneContext Background rootDoc
             emptyModel DefaultModelPath true false sc ctx' Hb E).
  - vm_compute in E. discriminate.
  - vm_compute in E. discriminate.
Defined.

(** The theorem of X3 on the long document: the first poll answers done,
    the scan stops with the error of the context. *)
Lemma done_poll_stops_scan_witness :
  ctxErr doneContext <> io_EOF /\
  match @decodeModelFile node (nodeDecoders false) doneContext longDoc emptyModel
          DefaultModelPath true false with
  | Returns (sc, ctx') =>
      exists used, usedPolls doneContext ctx' used /\
        (Forall (fun b => b = false) used \/
         exists rest, used = rest ++ [true] /\ Forall (fun b => b = false) rest /\
           Err sc = Some (ctxErr doneContext))
  | _ => False
  end.
Proof.
  assert (ctxErr doneContext <> io_EOF) as Hne by discriminate.
  split; [exact Hne|].
  destruct (@decodeModelFile node (nodeDecoders false) doneContext longDoc emptyModel
              DefaultModelPath true false) as [[sc ctx']| |] eqn:E.
  - exact (@done_poll_stops_scan node (nodeDecoders false) doneContext longDoc emptyModel
             DefaultModelPath true false sc ctx' Hne E).
  - vm_compute in E. discriminate.
  - vm_compute in E. discriminate.
Defined.

(** On the long document the done answer is indeed used: the error of the
    scanner is the error of the context and the comment after the end
    element is never read. *)
Example long_document_is_cancelled :
  @decodeModelFile node (nodeDecoders false) doneContext longDoc emptyModel
    DefaultModelPath true false
  = Returns (setErr (Some context_Canceled)
               (setElement attrModel (newScanner emptyModel DefaultModelPath true false)),
             MkContext [false] context_Canceled).
Proof. vm_compute. reflexivity. Qed.

Local Abbreviation walkSample strict :=
  (@processOPC file _ asciiFold (decoderFor packageRels strict) emptyModel).

(** The theorem of X4 on the sample package: the two auxiliary parts are
    the targets of the model relationships of the root part. *)
Lemma processOPC_discovery_witness :
  match walkSample false with
  | (inr root, d', model') =>
      last (packageRoots (d_p (decoderFor packageRels false))) = Some root /\
      m_Path model' = pf_Name root /\
      d_nonRootModels d' =
        d_nonRootModels (decoderFor packageRels false)
        ++ flat_map modelTargets (packageRoots (d_p (decoderFor packageRels false)))
  | _ => False
  end.
Proof.
  destruct (walkSample false) as [[[err|root] d'] model'] eqn:E.
  - vm_compute in E. discriminate.
  - exact (@processOPC_discovery file file_PackageFile asciiFold
             (decoderFor packageRels false) emptyModel root d' model' E).
Defined.

Example sample_auxiliary_parts :
  map pf_Name (d_nonRootModels (snd (fst (walkSample false))))
  = ["/3D/aux1.model"; "/3D/aux2.model"].
Proof. vm_compute. reflexivity. Qed.

Lemma new_decoder_children_known rels strict :
  @childrenKnown file _ (decoderFor rels strict, emptyModel).
Proof. intros f Hin. by apply elem_of_nil in Hin. Qed.

(** The theorem of X5 on the sample package. *)
Lemma DecodeContext_returns_witness :
  @childrenKnown file _ (decoderFor packageRels true, emptyModel) /\
  @hooksKeepPath node (nodeDecoders true) /\
  (forall rc, namedEnds (pending (d_x (decoderFor packageRels true) rc))) /\
  exists r, @DecodeContext file _ node (nodeDecoders true) asciiFold secondFirst
              (decoderFor packageRels true) emptyModel = Returns r.
Proof.
  assert (forall rc, namedEnds (pending (d_x (decoderFor packageRels true) rc))) as Hn
    by (apply tokenTable_namedEnds; reflexivity).
  split; [apply new_decoder_children_known|]. split; [apply sample_hooks_keep_path|].
  split; [exact Hn|].
  exact (@DecodeContext_returns file file_PackageFile node (nodeDecoders true) asciiFold
           secondFirst (decoderFor packageRels true) emptyModel
           (new_decoder_children_known _ _) (sample_hooks_keep_path _) Hn).
Defined.

(** The theorem of X6 on the sample package, decoded in strict mode with
    decoders that make a warning the error of the scan: the first
    auxiliary part fails and nothing of the second is merged. *)
Lemma auxiliary_error_merges_nothing_witness :
  let d1 := snd (fst (walkSample true)) in
  let m1 := snd (walkSample true) in
  match @processNonRootModels file _ node (nodeDecoders true) quiet d1 m1 with
  | Returns (Some e, d', model') =>
      d' = d1 /\ model' = m1 /\
      exists i f, (i < length (d_nonRootModels d1))%nat /\ parentDone quiet i = false /\
        @readChildModel file _ node (nodeDecoders true) (childCtx quiet i) i d1 m1
          = Returns (f, Some e)
  | _ => False
  end.
Proof.
  intros d1 m1.
  destruct (@processNonRootModels file _ node (nodeDecoders true) quiet d1 m1)
    as [[[[e|] d'] model']| |] eqn:E.
  - exact (@auxiliary_error_merges_nothing file file_PackageFile node (nodeDecoders true)
             quiet d1 m1 e d' model' E).
  - vm_compute in E. discriminate.
  - vm_compute in E. discriminate.
  - vm_compute in E. discriminate.
Defined.

(** A schedule in which the context of the caller is done when the
    goroutines poll it. *)
Local Abbreviation callerDone :=
  (MkSchedule (fun _ => Background) (fun _ => true) [] Background).

(** The theorem of X7 on the sample package. *)
Lemma done_caller_merges_nothing_witness :
  let d1 := snd (fst (walkSample true)) in
  let m1 := snd (walkSample true) in
  (forall i, parentDone callerDone i = true) /\
  match @processNonRootModels file _ node (nodeDecoders true) callerDone d1 m1 with
  | Returns (err, d', model') => err = None /\ d' = d1 /\ model' = m1
  | _ => False
  end.
Proof.
  intros d1 m1. split; [intros i; reflexivity|].
  destruct (@processNonRootModels file _ node (nodeDecoders true) callerDone d1 m1)
    as [[[err d'] model']| |] eqn:E.
  - exact (@done_caller_merges_nothing file file_PackageFile node (nodeDecoders true)
             callerDone d1 m1 err d' model' (fun _ => eq_refl) E).
  - vm_compute in E. discriminate.
  - vm_compute in E. discriminate.
Defined.

(** The theorem of X8 on the thumbnail that is in the package under two
    names that differ in case. *)
Lemma first_attachment_wins_witness :
  EqualFold (pf_Name (MkFile parts thumb)) (pf_Name (MkFile parts thumb)) = true /\
  (forall a, EqualFold a (pf_Name (MkFile parts thumb))
             = EqualFold a (pf_Name (MkFile parts thumbUpper))) /\
  copyFile (MkFile parts thumb) = inr "png" /\
  addAttachment (addAttachment [] (MkFile parts thumb)) (MkFile parts thumbUpper)
  = addAttachment [] (MkFile parts thumb).
Proof.
  split; [reflexivity|]. split; [intros a; reflexivity|]. split; [reflexivity|].
  exact (@first_attachment_wins file file_PackageFile asciiFold [] (MkFile parts thumb)
           (MkFile parts thumbUpper) "png" eq_refl (fun _ => eq_refl) eq_refl).
Defined.

(** The theorem of X23 on the root part of the sample package. *)
Lemma done_context_is_seen_after_decoding_witness :
  let d := decoderFor packageRels false in
  pf_Open (MkFile parts rootPart) = inr (MkReadCloser "root" None) /\
  belowFirstCheck (pending (d_x d (MkReadCloser "root" None))) /\
  polls doneContext = [true; false] /\
  match @processRootModel file node (nodeDecoders false) file _ Background
          (MkFile parts rootPart) d emptyModel with
  | Returns (_, d', model') =>
      @processRootModel file node (nodeDecoders false) file _ doneContext
        (MkFile parts rootPart) d emptyModel
      = Returns (Some (ctxErr doneContext), d', model')
  | _ => False
  end.
Proof.
  intros d.
  assert (belowFirstCheck (pending (d_x d (MkReadCloser "root" None)))) as Hb
    by (apply belowFirstCheckb_spec; reflexivity).
  split; [reflexivity|]. split; [exact Hb|]. split; [reflexivity|].
  destruct (@processRootModel file node (nodeDecoders false) file _ Background
              (MkFile parts rootPart) d emptyModel) as [[[e0 d'] model']| |] eqn:E.
  - exact (@done_context_is_seen_after_decoding file node (nodeDecoders false) file _
             doneContext [false] (MkFile parts rootPart) d emptyModel
             (MkReadCloser "root" None) e0 d' model' eq_refl Hb eq_refl E).
  - vm_compute in E. discriminate.
  - vm_compute in E. discriminate.
Defined.

(** Package relationships with a thumbnail that is in the package and one
    that is not. *)
Local Abbreviation mixedRels :=
  [relThumbnail "/missing.png"; relModel "/3D/3dmodel.model"; relThumbnail "/thumb.png"].

(** The theorem of X24 on the sample package with these relationships. *)
Lemma processOPC_root_relationships_witness :
  match @processOPC file _ asciiFold (decoderFor mixedRels false) emptyModel with
  | (inr _, _, model') =>
      m_RootRelationships model' =
        m_RootRelationships emptyModel
        ++ keptRelationships (d_p (decoderFor mixedRels false))
             (p_Relationships (d_p (decoderFor mixedRels false)))
  | _ => False
  end.
Proof.
  destruct (@processOPC file _ asciiFold (decoderFor mixedRels false) emptyModel)
    as [[[err|root] d'] model'] eqn:E.
  - vm_compute in E. discriminate.
  - exact (@processOPC_root_relationships file file_PackageFile asciiFold
             (decoderFor mixedRels false) emptyModel root d' model' E).
Defined.

Example missing_thumbnail_is_dropped :
  m_RootRelationships (snd (@processOPC file _ asciiFold (decoderFor mixedRels false)
                              emptyModel))
  = [relThumbnail "/thumb.png"].
Proof. vm_compute. reflexivity. Qed.

End SampleMore.

Section DispatchSample.
Import Dispatch DispatchSpec.

Local Abbreviation noExtensions := (@MkDecoderContext unit ∅).

(** The theorem of X12 on the path to the objects of an auxiliary part. *)
Lemma auxiliary_part_has_no_build_witness :
  descend noExtensions (topLevelDecoder false)
    (corePath [attrModel; attrResources; attrObject]) = Some objectDecoder /\
  ofBuild objectDecoder = false /\ ofRoot objectDecoder = false.
Proof.
  split; [reflexivity|].
  exact (@auxiliary_part_has_no_build unit noExtensions
           (corePath [attrModel; attrResources; attrObject]) objectDecoder eq_refl).
Defined.

(** In an auxiliary part the build element gets no decoder, in the root
    part it does. *)
Example build_only_in_root :
  descend noExtensions (topLevelDecoder false) (corePath [attrModel; attrBuild]) = None /\
  descend noExtensions (topLevelDecoder true) (corePath [attrModel; attrBuild])
  = Some buildDecoder.
Proof. split; reflexivity. Qed.

(** The theorem of X13 on the path to a triangle. *)
Lemma core_decoders_nest_six_deep_witness :
  let path := corePath [attrModel; attrResources; attrObject; attrMesh; attrTriangles;
                        attrTriangle] in
  descend noExtensions (topLevelDecoder true) path = Some triangleDecoder /\
  (length path <= 6)%nat /\
  (length path = 6%nat -> forall name, Child noExtensions triangleDecoder name = None).
Proof.
  intros path. split; [reflexivity|].
  exact (@core_decoders_nest_six_deep unit noExtensions true path triangleDecoder eq_refl).
Defined.

End DispatchSample.

Section ProductionSample.
Import Extensions GetSpec Production.

(** The identifiers of the sample: the number of the call, as a digit. *)
Local Abbreviation sampleUUID := (fun n : nat => String (ascii_of_nat (48 + n)) "").

Local Abbreviation attrOf t uuid :=
  (Some (MkDyn (PtrTo (Struct t)) (MkAttrValue "" uuid))).

(** A bag with a nil entry, an item attribute and two build attributes. *)
Local Abbreviation sampleBag :=
  [None; attrOf ItemAttr "i"; attrOf BuildAttr "b1"; attrOf BuildAttr "b2"].

(** The theorem of X16 on the sample bag: the first build attribute is
    found. *)
Lemma get_finds_first_match_witness :
  sampleBag <> [] /\
  validTarget marshalerAttrType (PtrTo (PtrTo (Struct BuildAttr))) /\
  match ExtensionsAttr_Get (Some sampleBag)
          (targetOf (PtrTo (PtrTo (Struct BuildAttr))) false) with
  | Return true (Some v) =>
      exists pre post, sampleBag = pre ++ Some v :: post /\
        matches (PtrTo (Struct BuildAttr)) (Some v) = true /\
        Forall (fun o => matches (PtrTo (Struct BuildAttr)) o = false) pre
  | Return false None =>
      Forall (fun o => matches (PtrTo (Struct BuildAttr)) o = false) sampleBag
  | _ => False
  end.
Proof.
  assert (sampleBag <> []) as Hl by discriminate.
  assert (validTarget marshalerAttrType (PtrTo (PtrTo (Struct BuildAttr)))) as Hv
    by (split; [reflexivity|right; reflexivity]).
  split; [exact Hl|]. split; [exact Hv|].
  exact (@get_finds_first_match goType attrValue goReflect marshalerAttrType
           "go3mf: *target must be interface or implement AttrMarshaler"
           sampleBag (PtrTo (PtrTo (Struct BuildAttr))) Hl Hv).
Defined.

Example get_returns_first_build_attribute :
  ExtensionsAttr_Get (Some sampleBag) (targetOf (PtrTo (PtrTo (Struct BuildAttr))) false)
  = Return true (attrOf BuildAttr "b1").
Proof. reflexivity. Qed.

(** A build without attributes, with one item that has its UUID and one
    that has none. *)
Local Abbreviation sampleBuild :=
  (MkBuild None [MkItem (Some [attrOf ItemAttr "kept"]); MkItem None]).

Local Abbreviation sampleObject :=
  (MkObject (Some [attrOf ItemAttr "other"]) [MkComponent None]).

(** The theorem of X17 on the sample build. *)
Lemma before_encode_completes_build_witness :
  DisableAutoUUID (MkSpec false) = false /\
  exists build' n',
    BeforeEncode_build sampleUUID (MkSpec false) sampleBuild 0 = Some (build', n') /\
    hasAttr BuildAttr (b_AnyAttr build') /\
    Forall (fun i => hasAttr ItemAttr (i_AnyAttr i)) (b_Items build') /\
    keeps (b_AnyAttr sampleBuild) (b_AnyAttr build') /\
    Forall2 (fun i i' => keeps (i_AnyAttr i) (i_AnyAttr i')) (b_Items sampleBuild)
      (b_Items build') /\
    (0 <= n')%nat.
Proof.
  split; [reflexivity|].
  exact (@before_encode_completes_build sampleUUID (MkSpec false) sampleBuild 0 eq_refl).
Defined.

Example sample_build_gets_two_uuids :
  BeforeEncode_build sampleUUID (MkSpec false) sampleBuild 0
  = Some (MkBuild (Some [attrOf BuildAttr "0"])
            [MkItem (Some [attrOf ItemAttr "kept"]); MkItem (Some [attrOf ItemAttr "1"])],
          2%nat).
Proof. reflexivity. Qed.

(** The theorem of X19 on the sample build and the sample object. *)
Lemma before_encode_is_idempotent_witness :
  match BeforeEncode_build sampleUUID (MkSpec false) sampleBuild 0,
        BeforeEncode_object sampleUUID sampleObject 2 with
  | Some (build', _), Some (o', _) =>
      (forall k, BeforeEncode_build sampleUUID (MkSpec false) build' k = Some (build', k)) /\
      (forall k, BeforeEncode_object sampleUUID o' k = Some (o', k))
  | _, _ => False
  end.
Proof.
  destruct (BeforeEncode_build sampleUUID (MkSpec false) sampleBuild 0)
    as [[build' n']|] eqn:Eb; [|vm_compute in Eb; discriminate].
  destruct (BeforeEncode_object sampleUUID sampleObject 2)
    as [[o' m']|] eqn:Eo; [|vm_compute in Eo; discriminate].
  exact (@before_encode_is_idempotent sampleUUID (MkSpec false) sampleBuild build'
           sampleObject o' 0%nat n' 2%nat m' Eb Eo).
Defined.

End ProductionSample.

Section DecoderSample.
Import Strconv Specerr Core Objects Metadata.

Local Abbreviation attr n v := (MkAttr (XmlName "" n) v).

Local Abbreviation noExtension :=
  (fun (_ : @Object unit) (_ : Attr) => @None (@Object unit * list AttrError)).

Lemma no_extension_keeps_defaults : extensionsKeepDefaults noExtension.
Proof. intros o a o' errs Hn. discriminate. Qed.

Local Abbreviation zeroObject := (@MkObject unit 0 tt "" "" "" 0 0 None).
Local Abbreviation objectAttrs := [attr "id" "7"; attr "pid" "5"; attr "pindex" "2"].
Local Abbreviation triangleElements :=
  [[attr "v1" "0"; attr "v2" "1"; attr "v3" "2"];
   [attr "v1" "0"; attr "v2" "2"; attr "v3" "3"; attr "pid" "6"; attr "p1" "9"]].

(** The theorem of X20 on an object with the defaults pid=5, pindex=2 and
    two triangles. *)
Lemma object_defaults_reach_triangles_witness :
  let o := fst (objectDecoder_Start (fun _ => (tt, true)) noExtension zeroObject
                  objectAttrs 0) in
  extensionsKeepDefaults noExtension /\
  o_PID o = coreUint attrPID objectAttrs 0 /\
  o_PIndex o = coreUint attrPIndex objectAttrs 0 /\
  exists td, trianglesDecoder_Start (meshDecoder_Start o) = Some td /\
    Forall2 (resolved (o_PID o) (o_PIndex o)) triangleElements
      (Triangles (td_mesh (fold_left (fun d tattrs => fst (triangleDecoder_Start d tattrs))
                             triangleElements td))).
Proof.
  intros o. split; [exact no_extension_keeps_defaults|].
  exact (@object_defaults_reach_triangles unit (fun _ => (tt, true)) noExtension zeroObject
           objectAttrs 0 triangleElements no_extension_keeps_defaults).
Defined.

Example sample_triangles_take_object_defaults :
  let o := fst (objectDecoder_Start (fun _ => (tt, true)) noExtension zeroObject
                  objectAttrs 0) in
  (fun td => Triangles (td_mesh (fold_left
                (fun d tattrs => fst (triangleDecoder_Start d tattrs)) triangleElements td)))
    <$> trianglesDecoder_Start (meshDecoder_Start o)
  = Some [MkTriangle 0 1 2 5 2 2 2; MkTriangle 0 2 3 6 9 9 9].
Proof. reflexivity. Qed.

(** A context in which only the prefix m is bound. *)
Local Abbreviation sampleNamespace :=
  (fun p : string => if String.eqb p "m" then Some "http://example.com/m" else None).

Local Abbreviation zeroMetadata := (MkMetadata (XmlName "" "") "" false "").

(** The theorem of X22 on a metadata named m:Title. *)
Lemma metadata_name_round_trip_witness :
  let attrs := [attr "name" "Title"; attr "type" "xs:string"; attr "name" "m:Title"] in
  lastCore Objects.attrName attrs = Some (attr "name" "m:Title") /\
  (sampleNamespace "" = None \/ IndexByte "m:Title" ":" <> Some O) /\
  qualified (md_Name (metadataDecoder_Start sampleNamespace zeroMetadata attrs))
    = "m:Title" /\
  (Space (md_Name (metadataDecoder_Start sampleNamespace zeroMetadata attrs)) <> "" ->
   is_Some (sampleNamespace
              (Space (md_Name (metadataDecoder_Start sampleNamespace zeroMetadata attrs))))).
Proof.
  intros attrs. split; [reflexivity|]. split; [left; reflexivity|].
  exact (@metadata_name_round_trip sampleNamespace zeroMetadata attrs
           (attr "name" "m:Title") eq_refl (or_introl eq_refl)).
Defined.

(** The condition of X22 is needed: with a namespace bound to the empty
    prefix, the colon a value begins with is lost. *)
Example metadata_leading_colon_is_lost :
  let n := md_Name (metadataDecoder_Start (fun _ => Some "ns") zeroMetadata
                      [attr "name" ":Title"]) in
  n = XmlName "" "Title" /\ qualified n <> ":Title".
Proof. split; [reflexivity|discriminate]. Qed.

(** Only the first id attribute of a basematerials element counts: the
    second one, which does not parse, is never looked at. *)
Example first_id_attribute_only :
  Materials.decodeBaseMaterials (fun _ : string => (0, false)) 0 []
    [attr "id" "4"; attr "id" "x"] [[attr "name" "red"]; []]
  = ([Materials.MkBaseMaterials 4 [Materials.MkBase "red" 0; Materials.MkBase "" 0]],
     None).
Proof. reflexivity. Qed.

End DecoderSample.
